(** * nexus-agent: the reliable delivery pipeline

    A shallow embedding of the Go sources of the agent
    (internal/crypto, internal/config, internal/sender, internal/queue,
    internal/handler, internal/sync and the drain loop of cmd/agent)
    together with the properties of the delivery pipeline that the design
    document states about them, and further properties of the code.

    Conventions.
    - A Go [string] is a Rocq [string] (a sequence of 8-bit characters), a
      Go [[]byte] is a [list byte].
    - A Go [int] is a [Z]; where the program multiplies configuration
      values the 64-bit wrap-around is written out ([int_mul]).
    - A Go [(T, error)] result is a [Result T]; the error carries the
      message the program formats.
    - Calls that leave the process (clock, entropy source, AES-GCM, HTTP
      client, sleeping) are recorded in a trace of [event]s; what they
      answer is given by an environment [Env]. *)

From Stdlib Require Import ZArith Lia List String Ascii Bool.
From Stdlib.Strings Require Import Byte.
From stdpp Require Import base option list strings gmap fin_maps.

Local Open Scope string_scope.
Local Open Scope list_scope.
Local Open Scope Z_scope.

(** ** Bytes and strings *)

Module Bytes.

Definition to_Z (b : byte) : Z := Z.of_N (Byte.to_N b).

Definition of_Z (z : Z) : byte :=
  match Byte.of_N (Z.to_N (z mod 256)) with
  | Some b => b
  | None => x00
  end.

(** [[]byte(s)] and [string(b)]. *)
Definition of_string (s : string) : list byte := list_byte_of_string s.
Definition to_string (b : list byte) : string := string_of_list_byte b.

(** [make([]byte, n)]: [n] zero bytes. *)
Definition make (n : nat) : list byte := repeat x00 n.

Definition xor_with (c : Z) (b : byte) : byte := of_Z (Z.lxor (to_Z b) c).

(** Big-endian rendering of a word on [n] bytes. *)
Fixpoint be_bytes (n : nat) (v : Z) : list byte :=
  match n with
  | O => []
  | S k => of_Z (Z.shiftr v (8 * Z.of_nat k)) :: be_bytes k v
  end.

(** Big-endian reading of a byte string. *)
Definition be_word (bs : list byte) : Z :=
  fold_left (fun acc b => Z.lor (Z.shiftl acc 8) (to_Z b)) bs 0.

End Bytes.

(** ** SHA-256 (FIPS 180-4), as provided by Go's [crypto/sha256] *)

Module SHA256.

Definition w32 (x : Z) : Z := x mod 2 ^ 32.
Definition add32 (x y : Z) : Z := w32 (x + y).
Definition rotr (n x : Z) : Z :=
  Z.lor (Z.shiftr x n) (w32 (Z.shiftl x (32 - n))).
Definition not32 (x : Z) : Z := Z.lxor x (2 ^ 32 - 1).

Definition Ch (x y z : Z) : Z := Z.lxor (Z.land x y) (Z.land (not32 x) z).
Definition Maj (x y z : Z) : Z :=
  Z.lxor (Z.lxor (Z.land x y) (Z.land x z)) (Z.land y z).
Definition bsig0 (x : Z) : Z := Z.lxor (Z.lxor (rotr 2 x) (rotr 13 x)) (rotr 22 x).
Definition bsig1 (x : Z) : Z := Z.lxor (Z.lxor (rotr 6 x) (rotr 11 x)) (rotr 25 x).
Definition ssig0 (x : Z) : Z := Z.lxor (Z.lxor (rotr 7 x) (rotr 18 x)) (Z.shiftr x 3).
Definition ssig1 (x : Z) : Z := Z.lxor (Z.lxor (rotr 17 x) (rotr 19 x)) (Z.shiftr x 10).

(** The round constants are the first 32 bits of the fractional parts of
    the cube roots of the first 64 primes, the initial hash value those of
    the square roots of the first 8 primes; both tables are computed from
    that description. *)
Definition is_prime (n : Z) : bool :=
  (1 <? n) && forallb (fun d => negb (n mod d =? 0))
                      (map Z.of_nat (seq 2 (Z.to_nat n - 2))).

Definition primes_upto (n : nat) : list Z :=
  filter (fun p => is_prime p = true) (map Z.of_nat (seq 2 n)).

(** Largest [r] with [r ^ 3 <= n], found bit by bit below [2 ^ bits]. *)
Fixpoint cbrt_bits (bits : nat) (n r : Z) : Z :=
  match bits with
  | O => r
  | S k =>
      let r' := r + 2 ^ Z.of_nat k in
      cbrt_bits k n (if r' ^ 3 <=? n then r' else r)
  end.

Definition frac_cbrt32 (p : Z) : Z := w32 (cbrt_bits 48 (p * 2 ^ 96) 0).
Definition frac_sqrt32 (p : Z) : Z := w32 (Z.sqrt (p * 2 ^ 64)).

Definition K : list Z :=
  Eval vm_compute in map frac_cbrt32 (take 64 (primes_upto 320)).
Definition H0 : list Z :=
  Eval vm_compute in map frac_sqrt32 (take 8 (primes_upto 20)).

(** Chaining value: the eight working words. *)
Record state := St { sa : Z; sb : Z; sc : Z; sd : Z; se : Z; sf : Z; sg : Z; sh : Z }.

Definition init : state :=
  match H0 with
  | [a; b; c; d; e; f; g; h] => St a b c d e f g h
  | _ => St 0 0 0 0 0 0 0 0
  end.

(** Message schedule: [W] holds the words computed so far, newest first. *)
Fixpoint extend (n : nat) (W : list Z) : list Z :=
  match n with
  | O => W
  | S k =>
      let wt := add32 (add32 (ssig1 (nth 1 W 0)) (nth 6 W 0))
                      (add32 (ssig0 (nth 14 W 0)) (nth 15 W 0)) in
      extend k (wt :: W)
  end.

Fixpoint words_of (n : nat) (block : list byte) : list Z :=
  match n with
  | O => []
  | S k => Bytes.be_word (take 4 block) :: words_of k (drop 4 block)
  end.

Definition schedule (block : list byte) : list Z :=
  rev (extend 48 (rev (words_of 16 block))).

Definition round (s : state) (kw : Z * Z) : state :=
  let '(k, w) := kw in
  let t1 := add32 (add32 (add32 (add32 (sh s) (bsig1 (se s))) (Ch (se s) (sf s) (sg s))) k) w in
  let t2 := add32 (bsig0 (sa s)) (Maj (sa s) (sb s) (sc s)) in
  St (add32 t1 t2) (sa s) (sb s) (sc s) (add32 (sd s) t1) (se s) (sf s) (sg s).

Definition compress (s : state) (block : list byte) : state :=
  let r := fold_left round (combine K (schedule block)) s in
  St (add32 (sa s) (sa r)) (add32 (sb s) (sb r)) (add32 (sc s) (sc r))
     (add32 (sd s) (sd r)) (add32 (se s) (se r)) (add32 (sf s) (sf r))
     (add32 (sg s) (sg r)) (add32 (sh s) (sh r)).

(** Padding: a one bit, zeros up to 56 mod 64, the bit length on 64 bits. *)
Definition pad (msg : list byte) : list byte :=
  let len := Z.of_nat (length msg) in
  msg ++ [x80] ++ Bytes.make (Z.to_nat ((55 - len) mod 64))
      ++ Bytes.be_bytes 8 (8 * len).

Fixpoint absorb (fuel : nat) (s : state) (data : list byte) : state :=
  match fuel, data with
  | S k, _ :: _ => absorb k (compress s (take 64 data)) (drop 64 data)
  | _, _ => s
  end.

Definition digest_bytes (s : state) : list byte :=
  Bytes.be_bytes 4 (sa s) ++ Bytes.be_bytes 4 (sb s) ++
  Bytes.be_bytes 4 (sc s) ++ Bytes.be_bytes 4 (sd s) ++
  Bytes.be_bytes 4 (se s) ++ Bytes.be_bytes 4 (sf s) ++
  Bytes.be_bytes 4 (sg s) ++ Bytes.be_bytes 4 (sh s).

(** [sha256.Sum256], as a byte string. *)
Definition Sum (msg : list byte) : list byte :=
  let p := pad msg in digest_bytes (absorb (length p) init p).

Definition Size : nat := 32.
Definition BlockSize : nat := 64.

End SHA256.

Definition hex_digit (n : Z) : ascii :=
  ascii_of_nat (Z.to_nat (if n <? 10 then 48 + n else 87 + n)).

(** Lower-case hexadecimal rendering, for comparison with published vectors. *)
Fixpoint hex (bs : list byte) : string :=
  match bs with
  | [] => EmptyString
  | b :: r =>
      String (hex_digit (Bytes.to_Z b / 16))
             (String (hex_digit (Bytes.to_Z b mod 16)) (hex r))
  end.


(** ** HMAC, as provided by Go's [crypto/hmac] over SHA-256 *)

Module HMAC.

(** [hmac.New(sha256.New, key)]: a key longer than a block is hashed first,
    then the key is copied into zeroed pads of one block. *)
Definition block_key (key : list byte) : list byte :=
  let k := if (SHA256.BlockSize <? length key)%nat then SHA256.Sum key else key in
  k ++ Bytes.make (SHA256.BlockSize - length k).

Definition ipad (key : list byte) : list byte := map (Bytes.xor_with 0x36) (block_key key).
Definition opad (key : list byte) : list byte := map (Bytes.xor_with 0x5c) (block_key key).

(** [Write(msg); Sum(nil)] on a fresh (or reset) MAC. *)
Definition Sum (key msg : list byte) : list byte :=
  SHA256.Sum (opad key ++ SHA256.Sum (ipad key ++ msg)).

End HMAC.

(** ** Results and formatting *)

(** A Go [(T, error)] pair: the value, or the error's message. *)
Inductive Result (A : Type) : Type :=
| Ok (a : A)
| Err (e : string).
Arguments Ok {A} a.
Arguments Err {A} e.

Definition is_ok {A} (r : Result A) : bool :=
  match r with Ok _ => true | Err _ => false end.

Module fmt.

Definition digit (n : Z) : ascii := ascii_of_nat (Z.to_nat (48 + n)).

(** Decimal digits of a non-negative number, most significant first. *)
Fixpoint digits (fuel : nat) (n : Z) (acc : string) : string :=
  match fuel with
  | O => acc
  | S k =>
      let acc' := String (digit (n mod 10)) acc in
      if n <? 10 then acc' else digits k (n / 10) acc'
  end.

(** The [%d] verb. *)
Definition itoa (n : Z) : string :=
  if n <? 0 then String "-" (digits (Z.to_nat (Z.log2 (- n)) + 1) (- n) EmptyString)
  else digits (Z.to_nat (Z.log2 n) + 1) n EmptyString.

Fixpoint zeros (n : nat) : string :=
  match n with O => EmptyString | S k => String "0" (zeros k) end.

(** [appendInt(b, x, width)] of package [time]: sign, then the digits
    padded with zeros to [width]. *)
Definition appendInt (x : Z) (width : nat) : string :=
  let d := digits (Z.to_nat (Z.log2 (Z.abs x)) + 1) (Z.abs x) EmptyString in
  (if x <? 0 then "-" else EmptyString) +:+ zeros (width - String.length d) +:+ d.

End fmt.

(** ** HKDF: the reader of [golang.org/x/crypto/hkdf] *)

Module hkdf.

(** The [hkdf] struct: the expander is an HMAC keyed with the pseudorandom
    key; [counter] is a Go [byte]. *)
Record reader := Reader {
  expander : list byte;
  size : nat;
  info : list byte;
  counter : Z;
  prev : list byte;
  buf : list byte
}.

(** [Extract]: a nil salt is replaced by [hash.Size()] zero bytes. *)
Definition Extract (secret : list byte) (salt : option (list byte)) : list byte :=
  let salt' := match salt with None => Bytes.make SHA256.Size | Some s => s end in
  HMAC.Sum salt' secret.

Definition Expand (pseudorandomKey info : list byte) : reader :=
  Reader pseudorandomKey SHA256.Size info 1 [] [].

Definition New (secret : list byte) (salt : option (list byte)) (info : list byte) : reader :=
  Expand (Extract secret salt) info.

(** The loop of [Read] that fills the rest of [p]: [need] bytes are still
    wanted, [out] is what was copied so far and [n] the size of the last
    copy. *)
Fixpoint fill (fuel : nat) (f : reader) (need : nat) (out : list byte) (n : nat)
  : option (reader * list byte * nat) :=
  match need with
  | O => Some (f, out, n)
  | S _ =>
      match fuel with
      | O => None
      | S k =>
          let input := prev f ++ info f ++ [Bytes.of_Z (counter f)] in
          let prev' := HMAC.Sum (expander f) input in
          let f' := Reader (expander f) (size f) (info f)
                           ((counter f + 1) mod 256) prev' prev' in
          let n' := Nat.min need (length prev') in
          fill k f' (need - n') (out ++ take n' prev') n'
      end
  end.

(** [Read(p)] with [len(p) = need]. The outer [None] stands for a loop that
    does not end. *)
Definition Read (f : reader) (need : nat) : option (Result (list byte) * reader) :=
  let remains :=
    Z.of_nat (length (buf f)) + ((255 - counter f + 1) mod 256) * Z.of_nat (size f) in
  if remains <? Z.of_nat need then
    Some (Err "hkdf: entropy limit reached", f)
  else
    let n := Nat.min need (length (buf f)) in
    match fill need f (need - n) (take n (buf f)) n with
    | None => None
    | Some (f', out, n') =>
        Some (Ok out, Reader (expander f') (size f') (info f') (counter f')
                             (prev f') (drop n' (buf f')))
    end.

End hkdf.

(** ** HKDF as RFC 5869 words it (the reference the wire contract names) *)

Module RFC5869.

Definition HashLen : nat := 32.

(** HKDF-Extract(salt, IKM) = HMAC-Hash(salt, IKM); a salt that is not
    provided is a string of [HashLen] zeros. *)
Definition HKDF_Extract (salt : option (list byte)) (IKM : list byte) : list byte :=
  HMAC.Sum (match salt with Some s => s | None => repeat x00 HashLen end) IKM.

(** T(1) | T(2) | ... | T(N), where T(0) is empty and
    T(i) = HMAC-Hash(PRK, T(i-1) | info | i). *)
Fixpoint T_blocks (N : nat) (PRK info Tprev : list byte) (i : Z) : list byte :=
  match N with
  | O => []
  | S k =>
      let Ti := HMAC.Sum PRK (Tprev ++ info ++ [Bytes.of_Z i]) in
      Ti ++ T_blocks k PRK info Ti (i + 1)
  end.

(** HKDF-Expand(PRK, info, L): the first [L] octets of T, with
    N = ceil(L / HashLen). *)
Definition HKDF_Expand (PRK info : list byte) (L : nat) : list byte :=
  let N := ((L + HashLen - 1) / HashLen)%nat in
  take L (T_blocks N PRK info [] 1).

Definition HKDF (IKM : list byte) (salt : option (list byte)) (info : list byte) (L : nat)
  : list byte :=
  HKDF_Expand (HKDF_Extract salt IKM) info L.

End RFC5869.

(** ** Base64: [base64.StdEncoding] of Go's [encoding/base64] *)

Module base64.

Definition encodeStd : string :=
  "ABCDEFGHIJKLMNOPQRSTUVWXYZabcdefghijklmnopqrstuvwxyz0123456789+/".

Definition padChar : byte := "="%byte.

Definition enc_char (v : Z) : byte :=
  match String.get (Z.to_nat (v mod 64)) encodeStd with
  | Some c => byte_of_ascii c
  | None => x00
  end.

(** [decodeMap]: the 6-bit value of an alphabet character. *)
Definition decodeMap (c : byte) : option Z :=
  let n := Bytes.to_Z c in
  if (65 <=? n) && (n <=? 90) then Some (n - 65)
  else if (97 <=? n) && (n <=? 122) then Some (n - 71)
  else if (48 <=? n) && (n <=? 57) then Some (n + 4)
  else if n =? 43 then Some 62
  else if n =? 47 then Some 63
  else None.

Fixpoint encode (src : list byte) : list byte :=
  match src with
  | [] => []
  | [a] =>
      let v := Z.shiftl (Bytes.to_Z a) 16 in
      [enc_char (Z.shiftr v 18); enc_char (Z.shiftr v 12); padChar; padChar]
  | [a; b] =>
      let v := Z.lor (Z.shiftl (Bytes.to_Z a) 16) (Z.shiftl (Bytes.to_Z b) 8) in
      [enc_char (Z.shiftr v 18); enc_char (Z.shiftr v 12); enc_char (Z.shiftr v 6); padChar]
  | a :: b :: c :: rest =>
      let v := Z.lor (Z.lor (Z.shiftl (Bytes.to_Z a) 16) (Z.shiftl (Bytes.to_Z b) 8))
                     (Bytes.to_Z c) in
      enc_char (Z.shiftr v 18) :: enc_char (Z.shiftr v 12)
        :: enc_char (Z.shiftr v 6) :: enc_char v :: encode rest
  end.

Definition EncodeToString (src : list byte) : string := Bytes.to_string (encode src).

Definition is_newline (c : byte) : bool :=
  (Bytes.to_Z c =? 10) || (Bytes.to_Z c =? 13).

Definition is_pad (c : byte) : bool := Bytes.to_Z c =? Bytes.to_Z padChar.

(** Skip over newlines; the number of characters skipped and what is left. *)
Fixpoint skip_newlines (src : list byte) : Z * list byte :=
  match src with
  | c :: rest =>
      if is_newline c then let '(k, r) := skip_newlines rest in (k + 1, r)
      else (0, src)
  | [] => (0, [])
  end.

Definition CorruptInputError (pos : Z) : string :=
  "illegal base64 data at input byte " +:+ fmt.itoa pos.

(** The bytes of a quantum of which [dlen] characters were read: all three
    for four characters, two for three, one for two (the decoder is not
    strict, unused trailing bits are dropped). *)
Definition quantum_bytes (q : list Z) : list byte :=
  let val := Z.lor (Z.lor (Z.shiftl (nth 0 q 0) 18) (Z.shiftl (nth 1 q 0) 12))
                   (Z.lor (Z.shiftl (nth 2 q 0) 6) (nth 3 q 0)) in
  take (length q - 1)
       [Bytes.of_Z (Z.shiftr val 16); Bytes.of_Z (Z.shiftr val 8); Bytes.of_Z val].

(** After the padding of the last quantum only newlines may follow. *)
Definition finish (rest : list byte) (si : Z) (q : list Z) (out : list byte)
  : Result (list byte) :=
  let '(k, r) := skip_newlines rest in
  match r with
  | [] => Ok (out ++ quantum_bytes q)
  | _ :: _ => Err (CorruptInputError (si + k))
  end.

(** [Decode]: [si] is the index of the next input character, [q] the
    characters of the current quantum read so far, [out] the bytes decoded
    so far. Newlines are skipped anywhere. *)
Fixpoint decode (src : list byte) (si : Z) (q : list Z) (out : list byte)
  : Result (list byte) :=
  match src with
  | [] =>
      match q with
      | [] => Ok out
      | _ :: _ => Err (CorruptInputError (si - Z.of_nat (length q)))
      end
  | c :: rest =>
      match decodeMap c with
      | Some v =>
          if (length q =? 3)%nat
          then decode rest (si + 1) [] (out ++ quantum_bytes (q ++ [v]))
          else decode rest (si + 1) (q ++ [v]) out
      | None =>
          if is_newline c then decode rest (si + 1) q out
          else if negb (is_pad c) then Err (CorruptInputError si)
          else
            match q with
            | [] | [_] => Err (CorruptInputError si)
            | [_; _] =>
                let '(k, r) := skip_newlines rest in
                match r with
                | [] => Err (CorruptInputError (si + 1 + k))
                | c2 :: rest2 =>
                    if is_pad c2 then finish rest2 (si + 1 + k + 1) q out
                    else Err (CorruptInputError (si + k))
                end
            | _ => finish rest (si + 1) q out
            end
      end
  end.

Definition DecodeString (s : string) : Result (list byte) :=
  decode (Bytes.of_string s) 0 [] [].

End base64.

(** ** Calendar dates: [time.Now().UTC().Format("2006-01-02")] *)

Module time.

(** An instant is its Unix time in seconds. *)
Definition Time := Z.

(** The proleptic Gregorian civil date (year, month, day) of a day number
    counted from 1970-01-01. *)
Definition civil_from_days (days : Z) : Z * Z * Z :=
  let z := days + 719468 in
  let era := z / 146097 in
  let doe := z - era * 146097 in
  let yoe := (doe - doe / 1460 + doe / 36524 - doe / 146096) / 365 in
  let doy := doe - (365 * yoe + yoe / 4 - yoe / 100) in
  let mp := (5 * doy + 2) / 153 in
  let d := doy - (153 * mp + 2) / 5 + 1 in
  let m := if mp <? 10 then mp + 3 else mp - 9 in
  let y := yoe + era * 400 + (if m <=? 2 then 1 else 0) in
  (y, m, d).

(** [t.UTC().Date()]. *)
Definition Date (t : Time) : Z * Z * Z := civil_from_days (t / 86400).

(** [t.UTC().Format("2006-01-02")]. *)
Definition Format_2006_01_02 (t : Time) : string :=
  let '(y, m, d) := Date t in
  fmt.appendInt y 4 +:+ "-" +:+ fmt.appendInt m 2 +:+ "-" +:+ fmt.appendInt d 2.

(** A [time.Duration], in nanoseconds. *)
Definition Duration := Z.
Definition Second : Duration := 1000000000.

End time.

(** ** Go's [int] *)

(** A 64-bit two's complement [int]: the value a result wraps to. *)
Definition int_wrap (z : Z) : Z := (z + 2 ^ 63) mod 2 ^ 64 - 2 ^ 63.
Definition int_mul (x y : Z) : Z := int_wrap (x * y).

(** ** Configuration (internal/config) *)

Module config.

Record AgentConfig := { Port : Z; Bind : string }.

Record NexusConfig := {
  ServerURL : string;
  AgentToken : string;
  SyncInterval : time.Duration;
  Timeout : time.Duration;
  RetryAttempts : Z;
  RetryDelay : time.Duration
}.

Record AppConfig := { Name : string; AppKey : string; MasterSecret : string }.

Record BufferConfig := { Enabled : bool; MaxSize : Z; DBPath : string }.

Record Config := {
  Agent : AgentConfig;
  Nexus : NexusConfig;
  Apps : list AppConfig;
  Buffer : BufferConfig;
  syncedApps : gmap string AppConfig
}.

(** [GetAppByKey]: the synced table first, then the first static entry with
    that key; [None] is the nil pointer. *)
Definition GetAppByKey (c : Config) (appKey : string) : option AppConfig :=
  match syncedApps c !! appKey with
  | Some app => Some app
  | None => List.find (fun a => String.eqb (AppKey a) appKey) (Apps c)
  end.

(** [UpdateSyncedApps]: a fresh table; a later entry overwrites an earlier
    one with the same key. *)
Definition UpdateSyncedApps (c : Config) (apps : list AppConfig) : Config :=
  {| Agent := Agent c; Nexus := Nexus c; Apps := Apps c; Buffer := Buffer c;
     syncedApps := fold_left (fun m a => <[AppKey a := a]> m) apps ∅ |}.

(** [GetAllApps]: the synced apps, in the order the table is walked, then
    the static apps whose key is not in the synced table. *)
Definition GetAllApps (c : Config) : list AppConfig :=
  map snd (map_to_list (syncedApps c))
  ++ filter (fun a => syncedApps c !! AppKey a = None) (Apps c).

(** [HasAutoSync] is true when an agent token is configured. *)
Definition HasAutoSync (c : Config) : bool :=
  negb (String.eqb (AgentToken (Nexus c)) EmptyString).

(** [AppCount]: the synced apps plus the static ones not synced. *)
Definition AppCount (c : Config) : Z :=
  fold_left (fun count a => match syncedApps c !! AppKey a with
                            | Some _ => count
                            | None => count + 1
                            end)
            (Apps c) (Z.of_nat (size (syncedApps c))).

Definition default_Z (v d : Z) : Z := if v =? 0 then d else v.
Definition default_string (v d : string) : string :=
  if String.eqb v EmptyString then d else v.

(** [Load] once the file is read and parsed into [config]: zero values
    are replaced by the defaults, then the configuration is validated and
    the synced table is initialized. *)
Definition Load_parsed (config : Config) : Result Config :=
  let agent := {| Port := default_Z (Port (Agent config)) 9000;
                  Bind := default_string (Bind (Agent config)) "127.0.0.1" |} in
  let nexus := {| ServerURL := ServerURL (Nexus config);
                  AgentToken := AgentToken (Nexus config);
                  SyncInterval := default_Z (SyncInterval (Nexus config)) (60 * time.Second);
                  Timeout := default_Z (Timeout (Nexus config)) (30 * time.Second);
                  RetryAttempts := default_Z (RetryAttempts (Nexus config)) 3;
                  RetryDelay := default_Z (RetryDelay (Nexus config)) (5 * time.Second) |} in
  let buffer := {| Enabled := Enabled (Buffer config);
                   MaxSize := default_Z (MaxSize (Buffer config)) 10000;
                   DBPath := default_string (DBPath (Buffer config)) "./queue.db" |} in
  if String.eqb (ServerURL nexus) EmptyString then
    Err "nexus.server_url is required"
  else if String.eqb (AgentToken nexus) EmptyString && (length (Apps config) =? 0)%nat then
    Err "either nexus.agent_token or apps must be configured"
  else
    Ok {| Agent := agent; Nexus := nexus; Apps := Apps config; Buffer := buffer;
          syncedApps := ∅ |}.

End config.

(** ** Payloads, the outside world and the trace of calls to it *)

(** A decoded JSON value ([interface{}]); a [float64] is its bit pattern. *)
#[local] Unset Elimination Schemes.
Inductive Value :=
| VNil
| VBool (b : bool)
| VFloat64 (bits : Z)
| VString (s : string)
| VSlice (l : list Value)
| VMap (m : list (string * Value)).
#[local] Set Elimination Schemes.

(** [map[string]interface{}]. *)
Definition Payload := list (string * Value).

Module http.

Record Request := {
  Method : string;
  URL : string;
  Header : list (string * string);
  ReqBody : list byte
}.

(** A response: its status code and the body as [io.ReadAll] returns it. *)
Record Response := { StatusCode : Z; Body : list byte }.

(** [Header.Set]. *)
Definition Header_Set (key value : string) (r : Request) : Request :=
  {| Method := Method r; URL := URL r;
     Header := filter (fun kv => kv.1 ≠ key) (Header r) ++ [(key, value)];
     ReqBody := ReqBody r |}.

End http.

(** The calls that reach outside the process, each with what it was given
    and what it answered. Log lines are not part of the model. *)
Inductive event :=
| EvNow (t : time.Time)
| EvRand (n : nat) (ans : Result (list byte))
| EvSeal (key nonce plaintext ciphertext : list byte)
| EvDo (req : http.Request) (ans : Result http.Response)
| EvSleep (d : time.Duration).

(** What the libraries and the world answer. The answers of the clock, the
    entropy source and the network may depend on everything that happened
    before. *)
Record Env := {
  (** [json.Marshal] and [json.Unmarshal] on payloads *)
  json_Marshal : Payload -> Result (list byte);
  json_Unmarshal : list byte -> Result Payload;
  (** AES-GCM [Seal(nil, nonce, plaintext, nil)] under a key *)
  gcm_Seal : list byte -> list byte -> list byte -> list byte;
  (** [fmt.Errorf(format)] without operands: the text of the error *)
  fmt_Errorf : string -> string;
  (** [http.NewRequest]: the error for a method and URL, if any *)
  request_error : string -> string -> option string;
  (** [time.Now()] *)
  clock : list event -> time.Time;
  (** [rand.Reader]: an error, or an unbounded supply of bytes *)
  entropy : list event -> Result (nat -> byte);
  (** [client.Do] *)
  transport : list event -> http.Request -> Result http.Response
}.

(** A computation reads the history of events and returns its value with
    the events it adds. *)
Definition M (A : Type) : Type := list event -> A * list event.

#[global] Instance M_ret : MRet M := fun A a _ => (a, []).

#[global] Instance M_bind : MBind M := fun A B k m h =>
  let '(a, d1) := m h in
  let '(b, d2) := k a (h ++ d1) in
  (b, d1 ++ d2).

Definition ret {A} (a : A) : M A := mret a.

Definition time_Now (E : Env) : M time.Time :=
  fun h => let t := clock E h in (t, [EvNow t]).

(** [io.ReadFull(rand.Reader, buf)] with [len(buf) = n]. *)
Definition rand_ReadFull (E : Env) (n : nat) : M (Result (list byte)) :=
  fun h =>
    let ans := match entropy E h with
               | Ok f => Ok (map f (seq 0 n))
               | Err e => Err e
               end in
    (ans, [EvRand n ans]).

Definition Seal (E : Env) (key nonce plaintext : list byte) : M (list byte) :=
  fun _ =>
    let ct := gcm_Seal E key nonce plaintext in
    (ct, [EvSeal key nonce plaintext ct]).

Definition client_Do (E : Env) (req : http.Request) : M (Result http.Response) :=
  fun h => let ans := transport E h req in (ans, [EvDo req ans]).

Definition time_Sleep (d : time.Duration) : M unit := fun _ => (tt, [EvSleep d]).

(** ** Encryption (internal/crypto) *)

Module crypto.

Definition KeyLength : nat := 32.
Definition NonceLength : nat := 12.

Record EncryptedPayload := {
  Encrypted : bool;
  KeyDate : string;
  SecretVersion : Z;
  Nonce : string;
  Data : string
}.

(** [deriveKeyForDate]: 32 bytes read from the HKDF reader over SHA-256
    with no salt and info [nexus-enigma-{appKey}-{date}]. *)
Definition deriveKeyForDate (masterSecret : list byte) (appKey date : string)
  : Result (list byte) :=
  let info := "nexus-enigma-" +:+ appKey +:+ "-" +:+ date in
  let hkdfReader := hkdf.New masterSecret None (Bytes.of_string info) in
  match hkdf.Read hkdfReader KeyLength with
  | Some (Ok key, _) => Ok key
  | Some (Err e, _) => Err ("failed to derive key: " +:+ e)
  | None => Err "failed to derive key: unexpected EOF"
  end.

(** [aes.NewCipher]: the key must have 16, 24 or 32 bytes. *)
Definition aes_NewCipher (key : list byte) : Result (list byte) :=
  let n := length key in
  if (n =? 16)%nat || (n =? 24)%nat || (n =? 32)%nat then Ok key
  else Err ("crypto/aes: invalid key size " +:+ fmt.itoa (Z.of_nat n)).

(** [EncryptPayload]; [cipher.NewGCM] on an AES block cannot fail. *)
Definition EncryptPayload (E : Env) (data : Payload) (masterSecretB64 appKey : string)
  : M (Result EncryptedPayload) :=
  match base64.DecodeString masterSecretB64 with
  | Err e => ret (Err ("failed to decode master secret: " +:+ e))
  | Ok masterSecret =>
      now ← time_Now E;
      let keyDate := time.Format_2006_01_02 now in
      match deriveKeyForDate masterSecret appKey keyDate with
      | Err e => ret (Err ("failed to derive key: " +:+ e))
      | Ok key =>
          match aes_NewCipher key with
          | Err e => ret (Err ("failed to create cipher: " +:+ e))
          | Ok block =>
              r ← rand_ReadFull E NonceLength;
              match r with
              | Err e => ret (Err ("failed to generate nonce: " +:+ e))
              | Ok nonce =>
                  match json_Marshal E data with
                  | Err e => ret (Err ("failed to marshal data: " +:+ e))
                  | Ok plaintext =>
                      ciphertext ← Seal E block nonce plaintext;
                      ret (Ok {| Encrypted := true;
                                 KeyDate := keyDate;
                                 SecretVersion := 1;
                                 Nonce := base64.EncodeToString nonce;
                                 Data := base64.EncodeToString ciphertext |})
                  end
              end
          end
      end
  end.

End crypto.

(** ** Delivery (internal/sender) *)

Module sender.

Record SendResult := { Success : bool; Message : string; Retry : bool }.

Definition quote : string := String (ascii_of_nat 34) EmptyString.

(** A JSON string literal as [encoding/json] writes it for text without
    bytes above 0x7f: quote, backslash, control characters and the HTML
    characters are escaped, everything else is copied. *)
Fixpoint json_escape (s : string) : string :=
  match s with
  | EmptyString => EmptyString
  | String c r =>
      let n := Z.of_nat (nat_of_ascii c) in
      (if (n =? 34) || (n =? 92) then String (ascii_of_nat 92) (String c EmptyString)
       else if n =? 10 then String (ascii_of_nat 92) "n"
       else if n =? 13 then String (ascii_of_nat 92) "r"
       else if n =? 9 then String (ascii_of_nat 92) "t"
       else if (n <? 32) || (n =? 60) || (n =? 62) || (n =? 38) then
         String (ascii_of_nat 92)
                ("u00" +:+ String (hex_digit (n / 16)) (String (hex_digit (n mod 16)) EmptyString))
       else String c EmptyString) +:+ json_escape r
  end.

Definition json_string (s : string) : string := quote +:+ json_escape s +:+ quote.

(** [json.Marshal(encryptedPayload)]: the fields in declaration order under
    their tags. It has no failing case for this struct. *)
Definition json_Marshal_payload (p : crypto.EncryptedPayload) : Result (list byte) :=
  Ok (Bytes.of_string
        ("{" +:+ json_string "encrypted" +:+ ":"
             +:+ (if crypto.Encrypted p then "true" else "false")
         +:+ "," +:+ json_string "keyDate" +:+ ":" +:+ json_string (crypto.KeyDate p)
         +:+ "," +:+ json_string "secretVersion" +:+ ":" +:+ fmt.itoa (crypto.SecretVersion p)
         +:+ "," +:+ json_string "nonce" +:+ ":" +:+ json_string (crypto.Nonce p)
         +:+ "," +:+ json_string "data" +:+ ":" +:+ json_string (crypto.Data p)
         +:+ "}")).

(** [http.NewRequest(method, url, body)]. *)
Definition http_NewRequest (E : Env) (method url : string) (body : list byte)
  : Result http.Request :=
  match request_error E method url with
  | Some e => Err e
  | None => Ok {| http.Method := method; http.URL := url;
                  http.Header := []; http.ReqBody := body |}
  end.

(** [doSend] performs the HTTP request and classifies what comes back. *)
Definition doSend (E : Env) (cfg : config.Config) (appKey masterSecret : string)
  (body : list byte) : M SendResult :=
  let url := config.ServerURL (config.Nexus cfg) +:+ "/ingress" in
  match http_NewRequest E "POST" url body with
  | Err e =>
      ret {| Success := false;
             Message := "failed to create request: " +:+ e;
             Retry := false |}
  | Ok req0 =>
      let req := http.Header_Set "X-API-Key" appKey
                   (http.Header_Set "Content-Type" "application/json" req0) in
      r ← client_Do E req;
      match r with
      | Err e =>
          ret {| Success := false;
                 Message := "request failed: " +:+ e;
                 Retry := true |}
      | Ok resp =>
          let respBody := http.Body resp in
          if (200 <=? http.StatusCode resp) && (http.StatusCode resp <? 300) then
            ret {| Success := true;
                   Message := "data sent successfully";
                   Retry := false |}
          else if 500 <=? http.StatusCode resp then
            ret {| Success := false;
                   Message := "server error " +:+ fmt.itoa (http.StatusCode resp)
                              +:+ ": " +:+ Bytes.to_string respBody;
                   Retry := true |}
          else
            ret {| Success := false;
                   Message := "client error " +:+ fmt.itoa (http.StatusCode resp)
                              +:+ ": " +:+ Bytes.to_string respBody;
                   Retry := false |}
      end
  end.

(** The [%v] of the last error; a nil error prints as [<nil>]. *)
Definition show_error (lastErr : option string) : string :=
  match lastErr with Some e => e | None => "<nil>" end.

(** The loop [for attempt := 1; attempt <= RetryAttempts; attempt++] with
    [n] iterations left to run, followed by the return after it. *)
Fixpoint retryLoop (E : Env) (cfg : config.Config) (appKey masterSecret : string)
  (bodyJSON : list byte) (n : nat) (attempt : Z) (lastErr : option string)
  : M SendResult :=
  match n with
  | O =>
      ret {| Success := false;
             Message := "all retries failed: " +:+ show_error lastErr;
             Retry := true |}
  | S k =>
      result ← doSend E cfg appKey masterSecret bodyJSON;
      if Success result then ret result
      else if negb (Retry result) then ret result
      else
        (if attempt <? config.RetryAttempts (config.Nexus cfg)
         then time_Sleep (config.RetryDelay (config.Nexus cfg))
         else ret tt) ;;
        retryLoop E cfg appKey masterSecret bodyJSON k (attempt + 1)
                  (Some (fmt_Errorf E (Message result)))
  end.

(** [Send] encrypts and sends data to the server. *)
Definition Send (E : Env) (cfg : config.Config) (appKey : string) (data : Payload)
  : M SendResult :=
  match config.GetAppByKey cfg appKey with
  | None =>
      ret {| Success := false;
             Message := "unknown app_key: " +:+ appKey;
             Retry := false |}
  | Some appConfig =>
      enc ← crypto.EncryptPayload E data (config.MasterSecret appConfig) appKey;
      match enc with
      | Err e =>
          ret {| Success := false;
                 Message := "encryption failed: " +:+ e;
                 Retry := false |}
      | Ok encryptedPayload =>
          match json_Marshal_payload encryptedPayload with
          | Err e =>
              ret {| Success := false;
                     Message := "failed to marshal body: " +:+ e;
                     Retry := false |}
          | Ok bodyJSON =>
              retryLoop E cfg appKey (config.MasterSecret appConfig) bodyJSON
                        (Z.to_nat (config.RetryAttempts (config.Nexus cfg))) 1 None
          end
      end
  end.

End sender.

(** ** The durable queue (internal/queue) *)

Module queue.

Record Message := {
  ID : Z;
  AppKey : string;
  Data : Payload;
  CreatedAt : time.Time;
  Attempts : Z
}.

(** A row of table [messages], without its key [id]. *)
Record Row := {
  app_key : string;
  data : string;
  created_at : time.Time;
  attempts : Z
}.

(** The database: the table keyed by [id], the AUTOINCREMENT counter kept
    in [sqlite_sequence], and whether the handle was closed. *)
Record DB := {
  messages : gmap Z Row;
  sqlite_sequence : Z;
  closed : bool
}.

Record Queue := { db : DB; maxSize : Z }.

Definition ErrDBClosed : string := "sql: database is closed".

(** [SELECT COUNT( * ) FROM messages]. *)
Definition sql_count (d : DB) : Result Z :=
  if closed d then Err ErrDBClosed else Ok (Z.of_nat (size (messages d))).

Definition older (a b : Z * Row) : Z * Row := if a.1 <=? b.1 then a else b.

(** [ORDER BY id ASC LIMIT 1]. *)
Definition first_by_id (m : gmap Z Row) : option (Z * Row) :=
  match map_to_list m with
  | [] => None
  | x :: l => Some (fold_left older l x)
  end.

Definition max_id (m : gmap Z Row) : Z :=
  fold_left Z.max (map fst (map_to_list m)) 0.

(** [INSERT INTO messages (app_key, data) VALUES (?, ?)]: the new id is one
    more than the largest id the table ever held; [attempts] defaults to 0
    and [created_at] to the current time. When the largest id was already
    used the insert fails. *)
Definition sql_insert (d : DB) (now : time.Time) (appKey dataJSON : string)
  : Result (Z * DB) :=
  if closed d then Err ErrDBClosed
  else
    let last := Z.max (sqlite_sequence d) (max_id (messages d)) in
    if 2 ^ 63 - 1 <=? last then Err "database or disk is full"
    else
      let id := last + 1 in
      let row := {| app_key := appKey; data := dataJSON;
                    created_at := now; attempts := 0 |} in
      Ok (id, {| messages := <[id := row]> (messages d);
                 sqlite_sequence := id;
                 closed := false |}).

(** [DELETE FROM messages WHERE id = ?]. *)
Definition sql_delete (d : DB) (id : Z) : Result DB :=
  if closed d then Err ErrDBClosed
  else Ok {| messages := delete id (messages d);
             sqlite_sequence := sqlite_sequence d;
             closed := false |}.

Definition bump (r : Row) : Row :=
  {| app_key := app_key r; data := data r;
     created_at := created_at r; attempts := attempts r + 1 |}.

(** [UPDATE messages SET attempts = attempts + 1 WHERE id = ?]. *)
Definition sql_increment (d : DB) (id : Z) : Result DB :=
  if closed d then Err ErrDBClosed
  else Ok {| messages := alter bump id (messages d);
             sqlite_sequence := sqlite_sequence d;
             closed := false |}.

(** The error of a full queue: [fmt.Errorf("queue is full (max: %d)", max)]. *)
Definition QueueFullError (max : Z) : string :=
  "queue is full (max: " +:+ fmt.itoa max +:+ ")".

Definition with_db (q : Queue) (d : DB) : Queue := {| db := d; maxSize := maxSize q |}.

(** [Enqueue] adds a message to the queue; [now] is the engine's
    CURRENT_TIMESTAMP at the insert. *)
Definition Enqueue (E : Env) (q : Queue) (now : time.Time) (appKey : string) (data : Payload)
  : Result Z * Queue :=
  match sql_count (db q) with
  | Err e => (Err ("failed to check queue size: " +:+ e), q)
  | Ok count =>
      if count >=? maxSize q then (Err (QueueFullError (maxSize q)), q)
      else
        match json_Marshal E data with
        | Err e => (Err ("failed to marshal data: " +:+ e), q)
        | Ok dataJSON =>
            match sql_insert (db q) now appKey (Bytes.to_string dataJSON) with
            | Err e => (Err ("failed to insert message: " +:+ e), q)
            | Ok (id, d') => (Ok id, with_db q d')
            end
        end
  end.

(** [Dequeue] retrieves the oldest message; [Ok None] is the [nil, nil]
    answer for an empty table. *)
Definition Dequeue (E : Env) (q : Queue) : Result (option Message) * Queue :=
  if closed (db q) then (Err ("failed to dequeue: " +:+ ErrDBClosed), q)
  else
    match first_by_id (messages (db q)) with
    | None => (Ok None, q)
    | Some (id, row) =>
        match json_Unmarshal E (Bytes.of_string (data row)) with
        | Err e => (Err ("failed to unmarshal data: " +:+ e), q)
        | Ok d =>
            (Ok (Some {| ID := id; AppKey := app_key row; Data := d;
                         CreatedAt := created_at row; Attempts := attempts row |}), q)
        end
    end.

(** [Remove] deletes a message; the first component is the error, if any. *)
Definition Remove (q : Queue) (id : Z) : option string * Queue :=
  match sql_delete (db q) id with
  | Err e => (Some e, q)
  | Ok d' => (None, with_db q d')
  end.

(** [IncrementAttempts] increases the attempt counter of a message. *)
Definition IncrementAttempts (q : Queue) (id : Z) : option string * Queue :=
  match sql_increment (db q) id with
  | Err e => (Some e, q)
  | Ok d' => (None, with_db q d')
  end.

(** [Size] returns the number of messages in the queue. *)
Definition Size (q : Queue) : Result Z := sql_count (db q).

(** [Close] closes the database connection. *)
Definition Close (q : Queue) : Queue :=
  with_db q {| messages := messages (db q);
               sqlite_sequence := sqlite_sequence (db q);
               closed := true |}.

End queue.

(** ** The drain loop (cmd/agent) *)

Module agent.

(** The hard cap of [processQueue]: [cfg.Nexus.RetryAttempts*3]. *)
Definition hardCap (cfg : config.Config) : Z :=
  int_mul (config.RetryAttempts (config.Nexus cfg)) 3.

(** The inner [for] loop of [processQueue], one drain cycle. Errors of
    [Remove] and [IncrementAttempts] are dropped as in the source. [None]
    stands for a loop that did not end within [fuel] iterations. *)
Fixpoint drain (E : Env) (cfg : config.Config) (fuel : nat) (q : queue.Queue)
  : M (option queue.Queue) :=
  match fuel with
  | O => ret None
  | S k =>
      match queue.Dequeue E q with
      | (Err _, q1) => ret (Some q1)
      | (Ok None, q1) => ret (Some q1)
      | (Ok (Some msg), q1) =>
          result ← sender.Send E cfg (queue.AppKey msg) (queue.Data msg);
          if sender.Success result then
            drain E cfg k (queue.Remove q1 (queue.ID msg)).2
          else if negb (sender.Retry result)
                  || (queue.Attempts msg >=? hardCap cfg) then
            drain E cfg k (queue.Remove q1 (queue.ID msg)).2
          else
            ret (Some (queue.IncrementAttempts q1 (queue.ID msg)).2)
      end
  end.

(** One tick of the ticker. Every iteration but the last removes a row, so
    one more iteration than there are rows is enough. *)
Definition drainCycle (E : Env) (cfg : config.Config) (q : queue.Queue)
  : M (option queue.Queue) :=
  drain E cfg (S (size (queue.messages (queue.db q)))) q.

(** [processQueue] over the first [ticks] ticks of its ticker. *)
Fixpoint processQueue (E : Env) (cfg : config.Config) (ticks : nat) (q : queue.Queue)
  : M (option queue.Queue) :=
  match ticks with
  | O => ret (Some q)
  | S k =>
      r ← drainCycle E cfg q;
      match r with
      | Some q' => processQueue E cfg k q'
      | None => ret None
      end
  end.

End agent.

(** ** The inbound surface (internal/handler) *)

Module handler.

(** The decoded request body; a missing [data] member is the nil map. *)
Record SendRequest := { AppKey : string; Data : option Payload }.

Record SendResponse := { Success : bool; Message : string; ID : Z }.

Record HealthResponse := { Status : string; QueueSize : Z; AppsConfigured : Z }.

(** What [jsonResponse] writes: the status code and the body. *)
Definition jsonError (message : string) (status : Z) : Z * SendResponse :=
  (status, {| Success := false; Message := message; ID := 0 |}).

Definition jsonSuccess (message : string) (id : Z) : Z * SendResponse :=
  (200, {| Success := true; Message := message; ID := id |}).

(** [HandleSend] for a request with the given method whose body decodes to
    [decoded]; [q] is the handler's queue, [None] when buffering is off.
    The result is the response written and the queue afterwards. *)
Definition HandleSend (E : Env) (cfg : config.Config) (q : option queue.Queue)
  (method : string) (decoded : Result SendRequest)
  : M (Z * SendResponse * option queue.Queue) :=
  if negb (String.eqb method "POST") then
    ret (jsonError "method not allowed" 405, q)
  else
    match decoded with
    | Err _ => ret (jsonError "invalid JSON body" 400, q)
    | Ok req =>
        if String.eqb (AppKey req) EmptyString then
          ret (jsonError "app_key is required" 400, q)
        else
          match Data req with
          | None | Some [] => ret (jsonError "data is required" 400, q)
          | Some data =>
              match config.GetAppByKey cfg (AppKey req) with
              | None =>
                  ret (jsonError "unknown app_key - not configured in agent" 400, q)
              | Some _ =>
                  result ← sender.Send E cfg (AppKey req) data;
                  if sender.Success result then
                    ret (jsonSuccess "data sent successfully" 0, q)
                  else
                    match q with
                    | Some queue =>
                        if config.Enabled (config.Buffer cfg) && sender.Retry result then
                          fun h =>
                            match queue.Enqueue E queue (clock E h) (AppKey req) data with
                            | (Err _, queue') =>
                                (jsonError "failed to send and queue message" 500,
                                 Some queue', [])
                            | (Ok id, queue') =>
                                ((202, {| Success := true;
                                          Message :=
                                            "data queued for delivery (server unavailable)";
                                          ID := id |}),
                                 Some queue', [])
                            end
                        else ret (jsonError (sender.Message result) 502, q)
                    | None => ret (jsonError (sender.Message result) 502, q)
                    end
              end
          end
    end.

(** [HandleHealth]: the queue size is 0 without a queue or when [Size]
    fails; only the static apps are counted. *)
Definition HandleHealth (cfg : config.Config) (q : option queue.Queue) (method : string)
  : Z * (SendResponse + HealthResponse) :=
  if negb (String.eqb method "GET") then
    (405, inl {| Success := false; Message := "method not allowed"; ID := 0 |})
  else
    let queueSize :=
      match q with
      | Some queue => match queue.Size queue with Ok size => size | Err _ => 0 end
      | None => 0
      end in
    (200, inr {| Status := "healthy"; QueueSize := queueSize;
                 AppsConfigured := Z.of_nat (length (config.Apps cfg)) |}).

End handler.

(** ** Credential sync (internal/sync) *)

Module sync.

Record AppData := {
  ID : Z;
  Name : string;
  AppKey : string;
  MasterSecret : string;
  EncryptionEnabled : bool
}.

Record SyncResponse := {
  Success : bool;
  Message : string;
  Apps : list AppData;
  SyncedAt : string
}.

(** The request of [Sync]: a POST without body. *)
Definition request (cfg : config.Config) : http.Request :=
  http.Header_Set "Content-Type" "application/json"
    (http.Header_Set "X-Agent-Token" (config.AgentToken (config.Nexus cfg))
       {| http.Method := "POST";
          http.URL := config.ServerURL (config.Nexus cfg) +:+ "/agent/sync";
          http.Header := []; http.ReqBody := [] |}).

Definition to_AppConfig (app : AppData) : config.AppConfig :=
  {| config.Name := Name app; config.AppKey := AppKey app;
     config.MasterSecret := MasterSecret app |}.

(** [Sync] performs a single sync with the server. [read_error] is the
    error of [io.ReadAll] on the body of a response, if any, and [parse]
    is [json.Unmarshal] into a [SyncResponse]. The result is the error, if
    any, and the configuration afterwards. *)
Definition Sync (E : Env) (read_error : http.Response -> option string)
  (parse : list byte -> Result SyncResponse) (cfg : config.Config)
  : M (option string * config.Config) :=
  match request_error E "POST" (config.ServerURL (config.Nexus cfg) +:+ "/agent/sync") with
  | Some e => ret (Some ("failed to create request: " +:+ e), cfg)
  | None =>
      r ← client_Do E (request cfg);
      match r with
      | Err e => ret (Some ("request failed: " +:+ e), cfg)
      | Ok resp =>
          match read_error resp with
          | Some e => ret (Some ("failed to read response: " +:+ e), cfg)
          | None =>
              if negb (http.StatusCode resp =? 200) then
                ret (Some ("server returned " +:+ fmt.itoa (http.StatusCode resp)
                           +:+ ": " +:+ Bytes.to_string (http.Body resp)), cfg)
              else
                match parse (http.Body resp) with
                | Err e => ret (Some ("failed to parse response: " +:+ e), cfg)
                | Ok syncResp =>
                    if negb (Success syncResp) then
                      ret (Some ("sync failed: " +:+ Message syncResp), cfg)
                    else
                      ret (None,
                           config.UpdateSyncedApps cfg (map to_AppConfig (Apps syncResp)))
                end
          end
      end
  end.

End sync.

(** ** Vocabulary of the properties *)

(** The answers of the HTTP calls in a trace, in the order they were made. *)
Fixpoint http_outcomes (evs : list event) : list (Result http.Response) :=
  match evs with
  | [] => []
  | EvDo _ ans :: r => ans :: http_outcomes r
  | _ :: r => http_outcomes r
  end.

(** The request bodies of the HTTP calls in a trace. *)
Fixpoint http_bodies (evs : list event) : list (list byte) :=
  match evs with
  | [] => []
  | EvDo req _ :: r => http.ReqBody req :: http_bodies r
  | _ :: r => http_bodies r
  end.

(** The sealing operations in a trace: key, nonce, plaintext, ciphertext. *)
Fixpoint seals (evs : list event) : list (list byte * list byte * list byte * list byte) :=
  match evs with
  | [] => []
  | EvSeal k n p c :: r => (k, n, p, c) :: seals r
  | _ :: r => seals r
  end.

(** A 2xx response. *)
Definition delivered (ans : Result http.Response) : Prop :=
  match ans with
  | Ok resp => 200 <= http.StatusCode resp < 300
  | Err _ => False
  end.

(** No response at all, or a response with status 500 or more. *)
Definition transient (ans : Result http.Response) : Prop :=
  match ans with
  | Ok resp => 500 <= http.StatusCode resp
  | Err _ => True
  end.

(** Any other response. *)
Definition rejected (ans : Result http.Response) : Prop :=
  match ans with
  | Ok resp => ~ (200 <= http.StatusCode resp < 300) /\ http.StatusCode resp < 500
  | Err _ => False
  end.

(** An event of the retry loop: an HTTP call that carries [body], or a
    sleep. *)
Definition attempt_event (body : list byte) (e : event) : Prop :=
  match e with
  | EvDo req _ => http.ReqBody req = body
  | EvSleep _ => True
  | _ => False
  end.

(** The pauses in a trace, and the requests of its HTTP calls. *)
Fixpoint sleeps (evs : list event) : list time.Duration :=
  match evs with
  | [] => []
  | EvSleep d :: r => d :: sleeps r
  | _ :: r => sleeps r
  end.


(** The mutating operations of the queue, and a run of them. *)
Inductive queue_op :=
| OpEnqueue (now : time.Time) (appKey : string) (data : Payload)
| OpRemove (id : Z)
| OpIncrementAttempts (id : Z).

Definition apply_op (E : Env) (q : queue.Queue) (op : queue_op) : queue.Queue :=
  match op with
  | OpEnqueue now appKey data => (queue.Enqueue E q now appKey data).2
  | OpRemove id => (queue.Remove q id).2
  | OpIncrementAttempts id => (queue.IncrementAttempts q id).2
  end.

Definition apply_ops (E : Env) (q : queue.Queue) (ops : list queue_op) : queue.Queue :=
  fold_left (apply_op E) ops q.

(** ** An environment and a configuration for the examples *)

Module example.

(** The payload [{"x":1}]; 1.0 is 0x3FF0000000000000 as a [float64]. *)
Definition payload : Payload := [("x", VFloat64 0x3FF0000000000000)].

Definition payload_json : string :=
  "{" +:+ sender.quote +:+ "x" +:+ sender.quote +:+ ":1}".

Definition is_do (e : event) : bool :=
  match e with EvDo _ _ => true | _ => false end.

Definition refused : Result http.Response :=
  Err "dial tcp 127.0.0.1:443: connect: connection refused".

Definition status (code : Z) : Result http.Response :=
  Ok {| http.StatusCode := code; http.Body := [] |}.

(** A world that knows one payload, in which it is midnight of 2024-01-01,
    the entropy source yields zeros, sealing appends a zero tag to the
    plaintext, and the server answers the k-th request with the k-th entry
    of [answers] and refuses the connection afterwards. *)
Definition env (answers : list (Result http.Response)) : Env := {|
  json_Marshal := fun _ => Ok (Bytes.of_string payload_json);
  json_Unmarshal := fun _ => Ok payload;
  gcm_Seal := fun _ _ plaintext => plaintext ++ Bytes.make 16;
  fmt_Errorf := fun s => s;
  request_error := fun _ _ => None;
  clock := fun _ => 1704067200;
  entropy := fun _ => Ok (fun _ => x00);
  transport := fun h _ => nth (length (filter (fun e => is_do e = true) h)) answers refused
|}.

Definition app (secret : string) : config.AppConfig :=
  {| config.Name := "app"; config.AppKey := "k1"; config.MasterSecret := secret |}.

(** 32 zero bytes in base64. *)
Definition zero_secret : string := "AAAAAAAAAAAAAAAAAAAAAAAAAAAAAAAAAAAAAAAAAAA=".

Definition cfg (retryAttempts : Z) (secret : string) : config.Config := {|
  config.Agent := {| config.Port := 9000; config.Bind := "127.0.0.1" |};
  config.Nexus := {| config.ServerURL := "https://nexus.example";
                     config.AgentToken := EmptyString;
                     config.SyncInterval := 60 * time.Second;
                     config.Timeout := 30 * time.Second;
                     config.RetryAttempts := retryAttempts;
                     config.RetryDelay := 5 * time.Second |};
  config.Apps := [app secret];
  config.Buffer := {| config.Enabled := true; config.MaxSize := 10000;
                      config.DBPath := "./queue.db" |};
  config.syncedApps := ∅
|}.

Definition row (attempts : Z) : queue.Row :=
  {| queue.app_key := "k1"; queue.data := payload_json;
     queue.created_at := 1704067200; queue.attempts := attempts |}.

(** An open queue holding the given rows. *)
Definition queue_of (rows : list (Z * queue.Row)) (maxSize : Z) : queue.Queue :=
  {| queue.db := {| queue.messages := list_to_map rows;
                    queue.sqlite_sequence := fold_left Z.max (map fst rows) 0;
                    queue.closed := false |};
     queue.maxSize := maxSize |}.

(** The same world with a server that answers every request with [ans]. *)
Definition env_always (ans : Result http.Response) : Env := {|
  json_Marshal := json_Marshal (env []);
  json_Unmarshal := json_Unmarshal (env []);
  gcm_Seal := gcm_Seal (env []);
  fmt_Errorf := fmt_Errorf (env []);
  request_error := request_error (env []);
  clock := clock (env []);
  entropy := entropy (env []);
  transport := fun _ _ => ans
|}.

End example.

(** * Properties *)

(** ** Test vectors of the primitives *)

Example sha256_abc :
  hex (SHA256.Sum (Bytes.of_string "abc"))
  = "ba7816bf8f01cfea414140de5dae2223b00361a396177a9cb410ff61f20015ad".
Proof. vm_compute. reflexivity. Qed.

(** RFC 4231, test case 2. *)
Example hmac_sha256_rfc4231_2 :
  hex (HMAC.Sum (Bytes.of_string "Jefe") (Bytes.of_string "what do ya want for nothing?"))
  = "5bdcc146bf60754e6a042426089575c75a003f089d2739839dec58b964ec3843".
Proof. vm_compute. reflexivity. Qed.

(** RFC 5869, test case 3 (no salt, no info), on the reference definition
    and on the reader. *)
Example hkdf_rfc5869_3 :
  hex (RFC5869.HKDF (repeat x0b 22) None [] 42)
  = "8da4e775a563c18f715f802a063c5a31b8a11f5c5ee1879ec3454e5f3c738d2d9d201395faa4b61a96c8".
Proof. vm_compute. reflexivity. Qed.

Example hkdf_reader_rfc5869_3 :
  fst <$> hkdf.Read (hkdf.New (repeat x0b 22) None []) 42
  = Some (Ok (RFC5869.HKDF (repeat x0b 22) None [] 42)).
Proof. vm_compute. reflexivity. Qed.

Example format_new_year : time.Format_2006_01_02 1704067200 = "2024-01-01".
Proof. vm_compute. reflexivity. Qed.

Example format_leap_day : time.Format_2006_01_02 1709251199 = "2024-02-29".
Proof. vm_compute. reflexivity. Qed.

Example base64_zero_secret :
  base64.DecodeString example.zero_secret = Ok (Bytes.make 32).
Proof. vm_compute. reflexivity. Qed.

(** ** Key derivation *)
Lemma be_bytes_length n v : length (Bytes.be_bytes n v) = n.
Proof. induction n as [|k IH]; simpl; [reflexivity | now rewrite IH]. Qed.

Lemma sha256_Sum_length msg : length (SHA256.Sum msg) = 32%nat.
Proof.
  unfold SHA256.Sum, SHA256.digest_bytes.
  rewrite !length_app, !be_bytes_length. reflexivity.
Qed.

Lemma hmac_Sum_length key msg : length (HMAC.Sum key msg) = 32%nat.
Proof. unfold HMAC.Sum. apply sha256_Sum_length. Qed.

(** One iteration of the loop of [Read], and its exit. *)
Lemma hkdf_fill_step k f need out n :
  hkdf.fill (S k) f (S need) out n
  = let prev' := HMAC.Sum (hkdf.expander f)
                   (hkdf.prev f ++ hkdf.info f ++ [Bytes.of_Z (hkdf.counter f)]) in
    let n' := Nat.min (S need) (length prev') in
    hkdf.fill k
      (hkdf.Reader (hkdf.expander f) (hkdf.size f) (hkdf.info f)
                   ((hkdf.counter f + 1) mod 256) prev' prev')
      (S need - n') (out ++ take n' prev') n'.
Proof. reflexivity. Qed.

Lemma hkdf_fill_done fuel f out n : hkdf.fill fuel f 0 out n = Some (f, out, n).
Proof. destruct fuel; reflexivity. Qed.

(** The first 32 bytes read from a fresh reader are the first HMAC block. *)
Lemma hkdf_Read_first_block prk info :
  fst <$> hkdf.Read (hkdf.Expand prk info) 32
  = Some (Ok (HMAC.Sum prk (info ++ [Bytes.of_Z 1]))).
Proof.
  unfold hkdf.Read, hkdf.Expand.
  cbn [hkdf.buf hkdf.counter hkdf.size length Nat.min take Nat.sub].
  replace (Z.of_nat 0 + (255 - 1 + 1) mod 256 * Z.of_nat SHA256.Size <? Z.of_nat 32)
    with false by reflexivity.
  change 32%nat with (S 31) at 1 2.
  rewrite hkdf_fill_step. cbv zeta.
  cbn [hkdf.prev hkdf.info hkdf.counter hkdf.expander hkdf.size].
  rewrite hmac_Sum_length.
  change (Nat.min 32 32) with 32%nat.
  change (32 - 32)%nat with 0%nat.
  rewrite hkdf_fill_done.
  cbn [fmap option_fmap option_map fst].
  rewrite take_ge by (rewrite hmac_Sum_length; lia).
  reflexivity.
Qed.

Lemma rfc5869_Expand_one_block prk info :
  RFC5869.HKDF_Expand prk info 32 = HMAC.Sum prk (info ++ [Bytes.of_Z 1]).
Proof.
  unfold RFC5869.HKDF_Expand.
  change ((32 + RFC5869.HashLen - 1) / RFC5869.HashLen)%nat with 1%nat.
  cbn [RFC5869.T_blocks].
  rewrite app_nil_r. apply take_ge. rewrite hmac_Sum_length. lia.
Qed.
(** C1. For every long-term secret, tenant key and date string, key
    derivation succeeds and yields HKDF over SHA-256 as RFC 5869 defines
    it, with the secret as input keying material, no salt and the info
    [nexus-enigma-{tenantKey}-{date}], on exactly 32 bytes; for the date of
    an instant the date string is its UTC calendar date as YYYY-MM-DD
    ([time.Format_2006_01_02]). Being a function of these three inputs,
    equal inputs give the same key. *)
Theorem deriveKeyForDate_is_HKDF_SHA256 (masterSecret : list byte) (appKey date : string) :
  crypto.deriveKeyForDate masterSecret appKey date
  = Ok (RFC5869.HKDF masterSecret None
          (Bytes.of_string ("nexus-enigma-" +:+ appKey +:+ "-" +:+ date)) 32)
  /\ length (RFC5869.HKDF masterSecret None
          (Bytes.of_string ("nexus-enigma-" +:+ appKey +:+ "-" +:+ date)) 32) = 32%nat
  /\ (forall (t : time.Time),
        crypto.deriveKeyForDate masterSecret appKey (time.Format_2006_01_02 t)
        = Ok (RFC5869.HKDF masterSecret None
                (Bytes.of_string
                   ("nexus-enigma-" +:+ appKey +:+ "-" +:+
                    (let '(y, m, d) := time.Date t in
                     fmt.appendInt y 4 +:+ "-" +:+ fmt.appendInt m 2 +:+ "-"
                                       +:+ fmt.appendInt d 2))) 32))
  /\ (forall masterSecret' appKey' date',
        masterSecret' = masterSecret -> appKey' = appKey -> date' = date ->
        crypto.deriveKeyForDate masterSecret' appKey' date'
        = crypto.deriveKeyForDate masterSecret appKey date).
Proof.
  assert (Hgen : forall d,
    crypto.deriveKeyForDate masterSecret appKey d
    = Ok (RFC5869.HKDF masterSecret None
            (Bytes.of_string ("nexus-enigma-" +:+ appKey +:+ "-" +:+ d)) 32)).
  { intros d. unfold crypto.deriveKeyForDate, crypto.KeyLength, hkdf.New.
    pose proof (hkdf_Read_first_block (hkdf.Extract masterSecret None)
                  (Bytes.of_string ("nexus-enigma-" +:+ appKey +:+ "-" +:+ d))) as Hrd.
    destruct (hkdf.Read _ 32) as [[[key|e] f]|];
      cbn [fmap option_fmap option_map fst] in Hrd; try discriminate.
    injection Hrd as ->.
    unfold RFC5869.HKDF. rewrite rfc5869_Expand_one_block. reflexivity. }
  split; [|split; [|split]].
  - apply Hgen.
  - unfold RFC5869.HKDF. rewrite rfc5869_Expand_one_block. apply hmac_Sum_length.
  - intros t. rewrite Hgen. unfold time.Format_2006_01_02.
    destruct (time.Date t) as [[y m] d]. reflexivity.
  - intros ? ? ? -> -> ->. reflexivity.
Qed.

(** The scenario of the design document: tenant key k1, a secret of 32
    zero bytes, 2024-01-01. *)
Example deriveKeyForDate_k1_2024_01_01 :
  crypto.deriveKeyForDate (Bytes.make 32) "k1" "2024-01-01"
  = Ok (map Bytes.of_Z
          [0x17; 0xc0; 0x2f; 0x2a; 0x82; 0x3a; 0x9f; 0x52; 0x42; 0xa4; 0x46; 0x03;
           0x5e; 0x15; 0xd5; 0x3a; 0xb3; 0xdf; 0x1e; 0x0e; 0xcd; 0x33; 0x74; 0x83;
           0x11; 0xca; 0xf3; 0xcc; 0xd5; 0xe3; 0x7b; 0x14]).
Proof. vm_compute. reflexivity. Qed.

(** Changing the date or the tenant key changes the key. *)
Example deriveKeyForDate_depends_on_date_and_tenant :
  crypto.deriveKeyForDate (Bytes.make 32) "k1" "2024-01-02"
    <> crypto.deriveKeyForDate (Bytes.make 32) "k1" "2024-01-01"
  /\ crypto.deriveKeyForDate (Bytes.make 32) "k2" "2024-01-01"
    <> crypto.deriveKeyForDate (Bytes.make 32) "k1" "2024-01-01".
Proof. split; vm_compute; discriminate. Qed.

(** ** The trace monad *)

(** ** The trace monad *)

Lemma run_bind {A B} (m : M A) (k : A -> M B) (h : list event) :
  (m ≫= k) h = ((k (m h).1 (h ++ (m h).2)).1, (m h).2 ++ (k (m h).1 (h ++ (m h).2)).2).
Proof.
  unfold mbind, M_bind. destruct (m h) as [a d1]. simpl.
  destruct (k a (h ++ d1)) as [b d2]. reflexivity.
Qed.

Lemma run_ret {A} (a : A) (h : list event) : ret a h = (a, []).
Proof. reflexivity. Qed.

Lemma http_outcomes_app evs1 evs2 :
  http_outcomes (evs1 ++ evs2) = http_outcomes evs1 ++ http_outcomes evs2.
Proof.
  induction evs1 as [|e r IH]; [reflexivity|].
  destruct e; simpl; rewrite IH; reflexivity.
Qed.


Lemma seals_app evs1 evs2 : seals (evs1 ++ evs2) = seals evs1 ++ seals evs2.
Proof.
  induction evs1 as [|e r IH]; [reflexivity|].
  destruct e; simpl; rewrite IH; reflexivity.
Qed.

(** ** One delivery attempt *)

(** The three kinds of answer exclude one another. *)
Lemma transient_not_delivered ans : transient ans -> delivered ans -> False.
Proof. destruct ans; simpl; lia. Qed.

Lemma transient_not_rejected ans : transient ans -> rejected ans -> False.
Proof. destruct ans; simpl; lia. Qed.

(** What one call of [doSend] does: nothing when the request cannot be
    built, and otherwise one HTTP call carrying [body], classified. *)
Lemma doSend_cases E cfg appKey masterSecret body h :
  ((sender.doSend E cfg appKey masterSecret body h).2 = []
   /\ sender.Success (sender.doSend E cfg appKey masterSecret body h).1 = false
   /\ sender.Retry (sender.doSend E cfg appKey masterSecret body h).1 = false)
  \/ exists req ans,
      (sender.doSend E cfg appKey masterSecret body h).2 = [EvDo req ans]
      /\ http.ReqBody req = body
      /\ let res := (sender.doSend E cfg appKey masterSecret body h).1 in
         (delivered ans /\ sender.Success res = true)
         \/ (transient ans /\ sender.Success res = false /\ sender.Retry res = true)
         \/ (rejected ans /\ sender.Success res = false /\ sender.Retry res = false).
Proof.
  unfold sender.doSend, sender.http_NewRequest.
  destruct (request_error E _ _) as [e|]; [left; auto|].
  right. rewrite run_bind. unfold client_Do. cbn [fst snd].
  match goal with |- context [transport E h ?r] => set (req := r) end.
  exists req, (transport E h req).
  destruct (transport E h req) as [resp|e]; cbn [fst snd app].
  - destruct (200 <=? http.StatusCode resp) eqn:H200;
      destruct (http.StatusCode resp <? 300) eqn:H300;
      destruct (500 <=? http.StatusCode resp) eqn:H500;
      cbn [andb fst snd sender.Success sender.Retry ret mret M_ret delivered
           transient rejected];
      (split; [reflexivity | split; [reflexivity|] ]); lia.
  - split; [reflexivity | split; [reflexivity|] ]. right; left. simpl. auto.
Qed.

(** C2. In a single delivery attempt, a response with status in [200,300)
    yields success; a transport failure without response yields a failure
    with retryable=true; a response with status 500 or more yields a failure
    with retryable=true; any other response yields a failure with
    retryable=false. *)
Theorem doSend_classification E cfg appKey masterSecret body h req ans :
  In (EvDo req ans) (sender.doSend E cfg appKey masterSecret body h).2 ->
  let res := (sender.doSend E cfg appKey masterSecret body h).1 in
  match ans with
  | Err _ => sender.Success res = false /\ sender.Retry res = true
  | Ok resp =>
      let code := http.StatusCode resp in
      (200 <= code < 300 -> sender.Success res = true)
      /\ (500 <= code -> sender.Success res = false /\ sender.Retry res = true)
      /\ (~ (200 <= code < 300) -> code < 500 ->
          sender.Success res = false /\ sender.Retry res = false)
  end.
Proof.
  intros Hin res.
  destruct (doSend_cases E cfg appKey masterSecret body h)
    as [[Hnil _] | (req' & ans' & Hevs & _ & Hcls)].
  - rewrite Hnil in Hin. destruct Hin.
  - rewrite Hevs in Hin. destruct Hin as [Heq | []]. injection Heq as -> ->.
    fold res in Hcls. destruct ans as [resp|e]; simpl in Hcls.
    + simpl. repeat split; intros; destruct Hcls as [[? ?]|[(? & ? & ?)|(? & ? & ?)]];
        first [assumption | lia].
    + destruct Hcls as [[[] _]|[(_ & ? & ?)|([] & _)]]. auto.
Qed.

Lemma doSend_classification_witness :
  let E := example.env [example.status 503] in
  let cfg := example.cfg 3 example.zero_secret in
  let res := (sender.doSend E cfg "k1" example.zero_secret [] []).1 in
  (200 <= 503 < 300 -> sender.Success res = true)
  /\ (500 <= 503 -> sender.Success res = false /\ sender.Retry res = true)
  /\ (~ (200 <= 503 < 300) -> 503 < 500 ->
      sender.Success res = false /\ sender.Retry res = false).
Proof.
  intros E cfg res.
  refine (doSend_classification E cfg "k1" example.zero_secret [] []
            _ (example.status 503) _).
  vm_compute. left. reflexivity.
Defined.

(** The three simulated attempts of the design document: a 500, a 400 and
    a refused connection. *)
Example doSend_retry_classification :
  let attempt ans :=
    (sender.doSend (example.env [ans]) (example.cfg 3 example.zero_secret)
                   "k1" example.zero_secret [] []).1 in
  sender.Retry (attempt (example.status 500)) = true
  /\ sender.Retry (attempt (example.status 400)) = false
  /\ sender.Retry (attempt example.refused) = true
  /\ sender.Success (attempt (example.status 204)) = true.
Proof. vm_compute. auto. Qed.

(** ** Encryption *)

(** A successful [EncryptPayload] read the clock once, drew one nonce and
    sealed once, under the key derived for the date read, and its envelope
    carries that date, nonce and ciphertext. *)
Lemma EncryptPayload_Ok E data masterSecretB64 appKey h enc evs :
  crypto.EncryptPayload E data masterSecretB64 appKey h = (Ok enc, evs) ->
  exists masterSecret key nonce plaintext,
    base64.DecodeString masterSecretB64 = Ok masterSecret
    /\ crypto.deriveKeyForDate masterSecret appKey (time.Format_2006_01_02 (clock E h))
       = Ok key
    /\ json_Marshal E data = Ok plaintext
    /\ evs = [EvNow (clock E h); EvRand 12 (Ok nonce);
              EvSeal key nonce plaintext (gcm_Seal E key nonce plaintext)]
    /\ enc = {| crypto.Encrypted := true;
                crypto.KeyDate := time.Format_2006_01_02 (clock E h);
                crypto.SecretVersion := 1;
                crypto.Nonce := base64.EncodeToString nonce;
                crypto.Data :=
                  base64.EncodeToString (gcm_Seal E key nonce plaintext) |}.
Proof.
  unfold crypto.EncryptPayload.
  destruct (base64.DecodeString masterSecretB64) as [masterSecret|e]; [|discriminate].
  rewrite run_bind. unfold time_Now. cbn [fst snd].
  destruct (crypto.deriveKeyForDate _ _ _) as [key|e] eqn:Hkey; [|discriminate].
  unfold crypto.aes_NewCipher.
  destruct (_ || _); [|discriminate].
  rewrite run_bind. unfold rand_ReadFull. cbn [fst snd].
  destruct (entropy E _) as [f|e]; [|discriminate].
  destruct (json_Marshal E data) as [plaintext|e] eqn:Hm; [|discriminate].
  rewrite run_bind. unfold Seal. cbn [fst snd].
  intros Heq. injection Heq as <- <-.
  exists masterSecret, key, (map f (seq 0 crypto.NonceLength)), plaintext.
  repeat split; auto.
Qed.

(** A failed [EncryptPayload] made no HTTP call and sealed nothing. *)
Lemma EncryptPayload_Err E data masterSecretB64 appKey h e evs :
  crypto.EncryptPayload E data masterSecretB64 appKey h = (Err e, evs) ->
  http_outcomes evs = [] /\ seals evs = [].
Proof.
  unfold crypto.EncryptPayload.
  destruct (base64.DecodeString masterSecretB64) as [masterSecret|e0].
  2:{ intros Heq. injection Heq as _ <-. auto. }
  rewrite run_bind. unfold time_Now. cbn [fst snd].
  destruct (crypto.deriveKeyForDate _ _ _) as [key|e0].
  2:{ intros Heq. injection Heq as _ <-. auto. }
  unfold crypto.aes_NewCipher.
  destruct (_ || _).
  2:{ intros Heq. injection Heq as _ <-. auto. }
  rewrite run_bind. unfold rand_ReadFull. cbn [fst snd].
  destruct (entropy E _) as [f|e0].
  2:{ intros Heq. injection Heq as _ <-. auto. }
  destruct (json_Marshal E data) as [plaintext|e0].
  2:{ intros Heq. injection Heq as _ <-. auto. }
  rewrite run_bind. unfold Seal. cbn [fst snd]. discriminate.
Qed.

(** C9. When the stored long-term secret is not valid base64 (the decoder
    of the standard encoding rejects it), [EncryptPayload] fails with the
    decode error and has done nothing else: the clock was not read, so no
    key was derived, no nonce was drawn and nothing was sealed. *)
Theorem EncryptPayload_rejects_invalid_base64 E data masterSecretB64 appKey h e :
  base64.DecodeString masterSecretB64 = Err e ->
  crypto.EncryptPayload E data masterSecretB64 appKey h
  = (Err ("failed to decode master secret: " +:+ e), []).
Proof.
  intros Hdec. unfold crypto.EncryptPayload. rewrite Hdec. reflexivity.
Qed.

Lemma EncryptPayload_rejects_invalid_base64_witness :
  base64.DecodeString "not base64!!" = Err "illegal base64 data at input byte 3"
  /\ crypto.EncryptPayload (example.env []) example.payload "not base64!!" "k1" []
     = (Err "failed to decode master secret: illegal base64 data at input byte 3", []).
Proof.
  split; [vm_compute; reflexivity|].
  apply (EncryptPayload_rejects_invalid_base64 (example.env []) example.payload
           "not base64!!" "k1" [] "illegal base64 data at input byte 3").
  vm_compute. reflexivity.
Defined.

(** A secret given as its 32 raw bytes instead of base64 text is refused. *)
Example EncryptPayload_raw_secret :
  (crypto.EncryptPayload (example.env []) example.payload
     (Bytes.to_string (Bytes.make 32)) "k1" []).1
  = Err "failed to decode master secret: illegal base64 data at input byte 0".
Proof. vm_compute. reflexivity. Qed.

(** ** The retry loop of [Send] *)



Section RetryLoop.

Variables (E : Env) (cfg : config.Config) (appKey masterSecret : string).
Variable body : list byte.

(** The pause between two attempts; there is none after the last one. *)
Lemma pause_events (attempt : Z) (h : list event) :
  let w := (if attempt <? config.RetryAttempts (config.Nexus cfg)
            then time_Sleep (config.RetryDelay (config.Nexus cfg))
            else ret tt) h in
  Forall (attempt_event body) w.2 /\ http_outcomes w.2 = [].
Proof.
  destruct (attempt <? _); simpl; split; auto; repeat constructor.
Qed.

(** One iteration of the loop. *)
Lemma retryLoop_step k attempt lastErr h :
  let r := sender.doSend E cfg appKey masterSecret body h in
  sender.retryLoop E cfg appKey masterSecret body (S k) attempt lastErr h
  = if sender.Success r.1 then (r.1, r.2)
    else if negb (sender.Retry r.1) then (r.1, r.2)
    else
      let w := (if attempt <? config.RetryAttempts (config.Nexus cfg)
                then time_Sleep (config.RetryDelay (config.Nexus cfg))
                else ret tt) (h ++ r.2) in
      let rest := sender.retryLoop E cfg appKey masterSecret body k (attempt + 1)
                    (Some (fmt_Errorf E (sender.Message r.1))) ((h ++ r.2) ++ w.2) in
      (rest.1, r.2 ++ w.2 ++ rest.2).
Proof.
  cbv zeta. cbn [sender.retryLoop]. rewrite run_bind.
  destruct (sender.doSend E cfg appKey masterSecret body h) as [res evs].
  cbn [fst snd].
  destruct (sender.Success res); [cbn; now rewrite app_nil_r|].
  destruct (sender.Retry res); cbn [negb]; [|cbn; now rewrite app_nil_r].
  rewrite run_bind. cbn [fst snd]. reflexivity.
Qed.

(** The loop with [n] iterations left: it makes at most [n] HTTP calls,
    each followed by another only if it failed transiently; it reports
    exhaustion when all [n] failed transiently, and the last answer
    otherwise. All its calls carry [body]. *)
Lemma retryLoop_spec n : forall attempt lastErr h,
  let res := (sender.retryLoop E cfg appKey masterSecret body n attempt lastErr h).1 in
  let evs := (sender.retryLoop E cfg appKey masterSecret body n attempt lastErr h).2 in
  let outs := http_outcomes evs in
  (length outs <= n)%nat
  /\ (forall i ans, outs !! i = Some ans -> (S i < length outs)%nat -> transient ans)
  /\ (length outs = n -> Forall transient outs ->
      sender.Success res = false /\ sender.Retry res = true)
  /\ (forall ans, last outs = Some ans ->
        (delivered ans -> sender.Success res = true)
        /\ (rejected ans -> sender.Success res = false /\ sender.Retry res = false))
  /\ Forall (attempt_event body) evs.
Proof.
  induction n as [|k IH]; intros attempt lastErr h; cbv zeta.
  - cbn [sender.retryLoop ret mret M_ret fst snd http_outcomes length
         sender.Success sender.Retry].
    split; [lia|]. split; [intros i ans Hi; rewrite lookup_nil in Hi; discriminate|].
    split; [auto|]. split; [intros ans Hl; discriminate|constructor].
  - rewrite retryLoop_step. cbv zeta.
    destruct (doSend_cases E cfg appKey masterSecret body h)
      as [(Hnil & Hs & Hr) | (req & ans0 & Hevs & Hbody & Hcls)].
    + (* the request could not be built *)
      rewrite Hs, Hr, Hnil. cbn [negb fst snd http_outcomes length].
      split; [lia|]. split; [intros i ans Hi; rewrite lookup_nil in Hi; discriminate|].
      split; [intros Hlen; discriminate|].
      split; [intros ans Hl; discriminate|constructor].
    + cbv zeta in Hcls. rewrite Hevs.
      destruct Hcls as [(Hd & Hs) | [(Ht & Hs & Hr) | (Hj & Hs & Hr)]].
      * (* delivered *)
        rewrite Hs. cbn [fst snd http_outcomes length].
        split; [lia|].
        split; [intros i ans Hi Hlt; simpl in Hlt; lia|].
        split; [intros _ Hall; inversion Hall as [|? ? Hx _]; subst;
                exfalso; exact (transient_not_delivered _ Hx Hd)|].
        split; [|repeat constructor; exact Hbody].
        intros ans Hl. injection Hl as <-.
        split; [intros _; exact Hs|].
        intros Hrej. destruct ans0; simpl in Hd, Hrej; [lia|contradiction].
      * (* transient: pause and go on *)
        rewrite Hs, Hr. cbn [negb fst snd].
        set (h1 := h ++ [EvDo req ans0]).
        destruct (pause_events attempt h1) as [Hw Hwo]. cbv zeta in Hw, Hwo.
        set (w := (if attempt <? config.RetryAttempts (config.Nexus cfg)
                   then time_Sleep (config.RetryDelay (config.Nexus cfg))
                   else ret tt) h1) in *.
        set (lastErr' := Some _).
        specialize (IH (attempt + 1) lastErr' (h1 ++ w.2)). cbv zeta in IH.
        set (rest := sender.retryLoop E cfg appKey masterSecret body k
                       (attempt + 1) lastErr' (h1 ++ w.2)) in *.
        destruct IH as (IHlen & IHmid & IHall & IHlast & IHev).
        cbn [app http_outcomes]. rewrite http_outcomes_app, Hwo. cbn [app length].
        split; [lia|].
        split.
        { intros [|i] ans Hi Hlt; cbn in Hi.
          - injection Hi as <-. exact Ht.
          - apply (IHmid i ans Hi). lia. }
        split.
        { intros Hlen Hall. inversion Hall as [|? ? _ Hrest]; subst.
          apply IHall; [lia|exact Hrest]. }
        split.
        { intros ans Hl.
          destruct (http_outcomes rest.2) as [|o os] eqn:Ho.
          - injection Hl as <-. split; intros Hx; exfalso.
            + exact (transient_not_delivered _ Ht Hx).
            + exact (transient_not_rejected _ Ht Hx).
          - apply IHlast. rewrite <- Hl. symmetry. apply last_cons_cons. }
        constructor; [exact Hbody|]. apply Forall_app. split; assumption.
      * (* rejected *)
        rewrite Hs, Hr. cbn [negb fst snd http_outcomes length].
        split; [lia|].
        split; [intros i ans Hi Hlt; simpl in Hlt; lia|].
        split; [intros _ Hall; inversion Hall as [|? ? Hx _]; subst;
                exfalso; exact (transient_not_rejected _ Hx Hj)|].
        split; [|repeat constructor; exact Hbody].
        intros ans Hl. injection Hl as <-.
        split; [|intros _; auto].
        intros Hdel. destruct ans0; simpl in Hdel, Hj; [lia|contradiction].
Qed.

(** With a request that can be built, every iteration makes its HTTP call,
    so the loop ends on transient answers only after all [n] iterations. *)
Lemma retryLoop_exhausts n : forall attempt lastErr h,
  request_error E "POST" (config.ServerURL (config.Nexus cfg) +:+ "/ingress") = None ->
  let r := sender.retryLoop E cfg appKey masterSecret body n attempt lastErr h in
  Forall transient (http_outcomes r.2) ->
  length (http_outcomes r.2) = n /\ sender.Success r.1 = false /\ sender.Retry r.1 = true.
Proof.
  induction n as [|k IH]; intros attempt lastErr h Hreq; cbv zeta.
  - intros _. cbn. auto.
  - rewrite retryLoop_step. cbv zeta.
    destruct (doSend_cases E cfg appKey masterSecret body h)
      as [(Hnil & _) | (req & ans0 & Hevs & _ & Hcls)].
    { unfold sender.doSend, sender.http_NewRequest in Hnil.
      rewrite Hreq, run_bind in Hnil. discriminate Hnil. }
    cbv zeta in Hcls. rewrite Hevs.
    destruct Hcls as [(Hd & Hs) | [(Ht & Hs & Hr) | (Hj & Hs & Hr)]].
    + rewrite Hs. cbn [fst snd http_outcomes].
      intros Hall. inversion Hall as [|? ? Hx _]; subst.
      exfalso. exact (transient_not_delivered _ Hx Hd).
    + rewrite Hs, Hr. cbn [negb fst snd].
      set (h1 := h ++ [EvDo req ans0]).
      destruct (pause_events attempt h1) as [_ Hwo]. cbv zeta in Hwo.
      set (w := (if attempt <? config.RetryAttempts (config.Nexus cfg)
                 then time_Sleep (config.RetryDelay (config.Nexus cfg))
                 else ret tt) h1) in *.
      set (lastErr' := Some _).
      specialize (IH (attempt + 1) lastErr' (h1 ++ w.2) Hreq). cbv zeta in IH.
      cbn [List.app http_outcomes]. rewrite http_outcomes_app, Hwo. cbn [List.app length].
      intros Hall. inversion Hall as [|? ? _ Hrest]; subst.
      destruct (IH Hrest) as (Hlen & Hs' & Hr'). auto.
    + rewrite Hs, Hr. cbn [negb fst snd http_outcomes].
      intros Hall. inversion Hall as [|? ? Hx _]; subst.
      exfalso. exact (transient_not_rejected _ Hx Hj).
Qed.

(** When the request cannot be built, the first iteration ends the loop
    without any HTTP call. *)
Lemma retryLoop_no_request k attempt lastErr h e :
  request_error E "POST" (config.ServerURL (config.Nexus cfg) +:+ "/ingress") = Some e ->
  sender.retryLoop E cfg appKey masterSecret body (S k) attempt lastErr h
  = ({| sender.Success := false;
        sender.Message := "failed to create request: " +:+ e;
        sender.Retry := false |}, []).
Proof.
  intros Hreq. rewrite retryLoop_step. cbv zeta.
  unfold sender.doSend, sender.http_NewRequest. rewrite Hreq. reflexivity.
Qed.

End RetryLoop.

(** ** [Send] *)

Lemma json_Marshal_payload_ok enc : exists body, sender.json_Marshal_payload enc = Ok body.
Proof. unfold sender.json_Marshal_payload. eexists. reflexivity. Qed.

(** [Send] for an unknown tenant key. *)
Lemma Send_unknown_key E cfg appKey data h :
  config.GetAppByKey cfg appKey = None ->
  sender.Send E cfg appKey data h
  = ({| sender.Success := false;
        sender.Message := "unknown app_key: " +:+ appKey;
        sender.Retry := false |}, []).
Proof. intros Hkey. unfold sender.Send. rewrite Hkey. reflexivity. Qed.

(** [Send] when encryption fails. *)
Lemma Send_encryption_failed E cfg appKey data h appConfig e pre :
  config.GetAppByKey cfg appKey = Some appConfig ->
  crypto.EncryptPayload E data (config.MasterSecret appConfig) appKey h = (Err e, pre) ->
  sender.Send E cfg appKey data h
  = ({| sender.Success := false;
        sender.Message := "encryption failed: " +:+ e;
        sender.Retry := false |}, pre).
Proof.
  intros Hkey Henc. unfold sender.Send. rewrite Hkey, run_bind, Henc.
  cbn [fst snd ret mret M_ret]. now rewrite app_nil_r.
Qed.

(** [Send] when encryption succeeds: the envelope is serialized and the
    retry loop runs on that one body. *)
Lemma Send_encrypted E cfg appKey data h appConfig enc pre :
  config.GetAppByKey cfg appKey = Some appConfig ->
  crypto.EncryptPayload E data (config.MasterSecret appConfig) appKey h = (Ok enc, pre) ->
  exists body,
    sender.json_Marshal_payload enc = Ok body
    /\ sender.Send E cfg appKey data h
       = ((sender.retryLoop E cfg appKey (config.MasterSecret appConfig) body
             (Z.to_nat (config.RetryAttempts (config.Nexus cfg))) 1 None (h ++ pre)).1,
          pre ++ (sender.retryLoop E cfg appKey (config.MasterSecret appConfig) body
             (Z.to_nat (config.RetryAttempts (config.Nexus cfg))) 1 None (h ++ pre)).2).
Proof.
  intros Hkey Henc. destruct (json_Marshal_payload_ok enc) as [body Hbody].
  exists body. split; [exact Hbody|].
  unfold sender.Send. rewrite Hkey, run_bind, Henc. cbn [fst snd].
  rewrite Hbody. reflexivity.
Qed.

(** C3. With a known tenant key and a successful encryption, [Send] makes
    at most as many HTTP attempts as the configured ceiling; an attempt is
    followed by another only if it failed retryably, so the loop stops at
    the first success and at the first non-retryable outcome, whose result
    it returns; when all attempts of the ceiling failed retryably it
    returns success=false, retryable=true. The loop does not stop earlier
    than that: when the request can be built, a positive ceiling gives at
    least one attempt, every retryable failure below the ceiling is followed
    by another attempt, and a run in which no attempt succeeded or was
    rejected has made exactly the ceiling's number of attempts and returns
    success=false, retryable=true. When the request cannot be built no
    attempt is made, and with a positive ceiling the result is
    success=false, retryable=false. *)
Theorem Send_bounded_retries E cfg appKey data h appConfig enc :
  config.GetAppByKey cfg appKey = Some appConfig ->
  (crypto.EncryptPayload E data (config.MasterSecret appConfig) appKey h).1 = Ok enc ->
  let res := (sender.Send E cfg appKey data h).1 in
  let outs := http_outcomes (sender.Send E cfg appKey data h).2 in
  let ceiling := Z.to_nat (config.RetryAttempts (config.Nexus cfg)) in
  let url := config.ServerURL (config.Nexus cfg) +:+ "/ingress" in
  (length outs <= ceiling)%nat
  /\ (forall i ans, outs !! i = Some ans -> (S i < length outs)%nat -> transient ans)
  /\ (forall ans, last outs = Some ans ->
        (delivered ans -> sender.Success res = true)
        /\ (rejected ans -> sender.Success res = false /\ sender.Retry res = false))
  /\ (length outs = ceiling -> Forall transient outs ->
      sender.Success res = false /\ sender.Retry res = true)
  /\ (request_error E "POST" url = None ->
      ((0 < ceiling)%nat -> outs <> [])
      /\ (forall i ans, outs !! i = Some ans -> transient ans -> (S i < ceiling)%nat ->
            is_Some (outs !! S i))
      /\ (Forall transient outs ->
          length outs = ceiling /\ sender.Success res = false /\ sender.Retry res = true))
  /\ (forall e, request_error E "POST" url = Some e ->
        outs = []
        /\ ((0 < ceiling)%nat -> sender.Success res = false /\ sender.Retry res = false)).
Proof.
  intros Hkey Henc.
  destruct (crypto.EncryptPayload E data (config.MasterSecret appConfig) appKey h)
    as [r pre] eqn:Hrun.
  cbn [fst] in Henc. subst r.
  destruct (Send_encrypted E cfg appKey data h appConfig enc pre Hkey Hrun)
    as (body & _ & Hsend).
  destruct (EncryptPayload_Ok _ _ _ _ _ _ _ Hrun)
    as (ms & key & nonce & pt & _ & _ & _ & Hpre & _).
  cbv zeta. rewrite Hsend. cbn [fst snd].
  rewrite http_outcomes_app.
  replace (http_outcomes pre) with (@nil (Result http.Response))
    by (rewrite Hpre; reflexivity).
  cbn [List.app].
  destruct (retryLoop_spec E cfg appKey (config.MasterSecret appConfig) body
              (Z.to_nat (config.RetryAttempts (config.Nexus cfg))) 1 None (h ++ pre))
    as (Hlen & Hmid & Hall & Hlast & _).
  cbv zeta in Hlen, Hmid, Hall, Hlast.
  split; [exact Hlen|]. split; [exact Hmid|]. split; [exact Hlast|].
  split; [exact Hall|].
  set (n := Z.to_nat (config.RetryAttempts (config.Nexus cfg))) in *.
  set (run := sender.retryLoop E cfg appKey (config.MasterSecret appConfig) body n 1 None
                (h ++ pre)) in *.
  split.
  - intros Hreq.
    pose proof (retryLoop_exhausts E cfg appKey (config.MasterSecret appConfig) body
                  n 1 None (h ++ pre) Hreq) as Hex.
    cbv zeta in Hex. fold run in Hex.
    split; [|split; [|exact Hex]].
    + intros Hpos Hnil. rewrite Hnil in Hex.
      destruct (Hex (List.Forall_nil _)) as [Hn _]. cbn in Hn. lia.
    + intros i ans Hi Ht Hlt.
      apply lookup_lt_is_Some.
      destruct (Nat.lt_ge_cases (S i) (length (http_outcomes run.2))) as [|Hge];
        [assumption|exfalso].
      assert (Hi' : (i < length (http_outcomes run.2))%nat)
        by (apply lookup_lt_is_Some; eauto).
      assert (Htr : Forall transient (http_outcomes run.2)).
      { apply Forall_lookup. intros j a Hj.
        destruct (Nat.eq_dec j i) as [->|Hne]; [congruence|].
        apply (Hmid j a Hj).
        assert ((j < length (http_outcomes run.2))%nat)
          by (apply lookup_lt_is_Some; eauto).
        lia. }
      destruct (Hex Htr) as [Hn _]. lia.
  - intros e Hreq. destruct n as [|k].
    + cbn. split; [reflexivity|lia].
    + subst run.
      rewrite (retryLoop_no_request E cfg appKey (config.MasterSecret appConfig) body
                 k 1 None (h ++ pre) e Hreq).
      cbn. auto.
Qed.

(** A 500, a refused connection and a 503 against a ceiling of 3: three
    attempts, then success=false, retryable=true. *)
Lemma Send_bounded_retries_witness :
  let E := example.env [example.status 500; example.refused; example.status 503] in
  let cfg := example.cfg 3 example.zero_secret in
  let res := (sender.Send E cfg "k1" example.payload []).1 in
  let outs := http_outcomes (sender.Send E cfg "k1" example.payload []).2 in
  length outs = 3%nat /\ sender.Success res = false /\ sender.Retry res = true.
Proof.
  intros E cfg.
  eapply (Send_bounded_retries E cfg "k1" example.payload []
            (example.app example.zero_secret)).
  - reflexivity.
  - vm_compute. reflexivity.
  - reflexivity.
  - vm_compute. repeat constructor; intros Hgt; discriminate Hgt.
Defined.

Example Send_exhausts_ceiling :
  let r := sender.Send
             (example.env [example.status 500; example.refused; example.status 503])
             (example.cfg 3 example.zero_secret) "k1" example.payload [] in
  sender.Success r.1 = false /\ sender.Retry r.1 = true
  /\ length (http_outcomes r.2) = 3%nat.
Proof. vm_compute. auto. Qed.

Example Send_stops_at_client_error :
  let r := sender.Send
             (example.env [example.status 500; example.status 400; example.status 200])
             (example.cfg 3 example.zero_secret) "k1" example.payload [] in
  sender.Success r.1 = false /\ sender.Retry r.1 = false
  /\ length (http_outcomes r.2) = 2%nat.
Proof. vm_compute. auto. Qed.

(** C4. When the tenant key resolves to no credential, or when encryption
    fails for whatever reason, [Send] returns success=false,
    retryable=false and has made no HTTP attempt. *)
Theorem Send_fails_without_attempt E cfg appKey data h :
  (config.GetAppByKey cfg appKey = None
   \/ exists appConfig e,
        config.GetAppByKey cfg appKey = Some appConfig
        /\ (crypto.EncryptPayload E data (config.MasterSecret appConfig) appKey h).1 = Err e) ->
  sender.Success (sender.Send E cfg appKey data h).1 = false
  /\ sender.Retry (sender.Send E cfg appKey data h).1 = false
  /\ http_outcomes (sender.Send E cfg appKey data h).2 = [].
Proof.
  intros [Hkey | (appConfig & e & Hkey & Henc)].
  - rewrite (Send_unknown_key E cfg appKey data h Hkey). auto.
  - destruct (crypto.EncryptPayload E data (config.MasterSecret appConfig) appKey h)
      as [r pre] eqn:Hrun.
    cbn [fst] in Henc. subst r.
    rewrite (Send_encryption_failed E cfg appKey data h appConfig e pre Hkey Hrun).
    cbn [fst snd sender.Success sender.Retry].
    destruct (EncryptPayload_Err _ _ _ _ _ _ _ Hrun) as [Ho _]. auto.
Qed.

Lemma Send_fails_without_attempt_witness :
  let E := example.env [example.status 200] in
  let cfg := example.cfg 3 example.zero_secret in
  sender.Success (sender.Send E cfg "unknown" example.payload []).1 = false
  /\ sender.Retry (sender.Send E cfg "unknown" example.payload []).1 = false
  /\ http_outcomes (sender.Send E cfg "unknown" example.payload []).2 = [].
Proof.
  intros E cfg.
  apply (Send_fails_without_attempt E cfg "unknown" example.payload []).
  left. reflexivity.
Defined.

(** A credential whose secret is not base64 text: nothing is sent. *)
Example Send_bad_secret :
  sender.Send (example.env [example.status 200]) (example.cfg 3 "not base64!!")
              "k1" example.payload []
  = ({| sender.Success := false;
        sender.Message := "encryption failed: failed to decode master secret: "
                          +:+ "illegal base64 data at input byte 3";
        sender.Retry := false |}, []).
Proof. vm_compute. reflexivity. Qed.


(** Three attempts of one [Send] carry one and the same body. *)
Example Send_same_body_on_retry :
  let r := sender.Send
             (example.env [example.status 500; example.refused; example.status 200])
             (example.cfg 3 example.zero_secret) "k1" example.payload [] in
  match http_bodies r.2 with
  | [b1; b2; b3] => b1 = b2 /\ b2 = b3
  | _ => False
  end
  /\ length (seals r.2) = 1%nat.
Proof. vm_compute. auto. Qed.

(** ** The queue *)

(** The fold that picks the row with the smallest id. *)
Lemma fold_older_In (l : list (Z * queue.Row)) : forall x,
  In (fold_left queue.older l x) (x :: l).
Proof.
  induction l as [|y l IH]; intros x; cbn [fold_left]; [left; reflexivity|].
  destruct (IH (queue.older x y)) as [Heq | Hin].
  - rewrite <- Heq. unfold queue.older. destruct (_ <=? _); [left | right; left]; reflexivity.
  - right. right. exact Hin.
Qed.

Lemma fold_older_le (l : list (Z * queue.Row)) : forall x z,
  In z (x :: l) -> (fold_left queue.older l x).1 <= z.1.
Proof.
  induction l as [|y l IH]; intros x z Hin; cbn [fold_left].
  - destruct Hin as [<- | []]. lia.
  - assert (Hxy : (queue.older x y).1 <= x.1 /\ (queue.older x y).1 <= y.1).
    { unfold queue.older. destruct (x.1 <=? y.1) eqn:Hc; lia. }
    destruct Hin as [<- | [<- | Hin]].
    + pose proof (IH (queue.older x y) (queue.older x y) (or_introl eq_refl)). lia.
    + pose proof (IH (queue.older x y) (queue.older x y) (or_introl eq_refl)). lia.
    + apply IH. right. exact Hin.
Qed.

Lemma first_by_id_None (m : gmap Z queue.Row) : queue.first_by_id m = None <-> m = ∅.
Proof.
  unfold queue.first_by_id. rewrite <- map_to_list_empty_iff.
  destruct (map_to_list m); split; intros; congruence.
Qed.

(** [ORDER BY id ASC LIMIT 1] yields a stored row, and none has a smaller id. *)
Lemma first_by_id_Some (m : gmap Z queue.Row) id row :
  queue.first_by_id m = Some (id, row) ->
  m !! id = Some row /\ forall id' row', m !! id' = Some row' -> id <= id'.
Proof.
  unfold queue.first_by_id.
  destruct (map_to_list m) as [|x l] eqn:Hl; [discriminate|].
  intros Heq. injection Heq as Heq. split.
  - apply elem_of_map_to_list. rewrite Hl, <- Heq.
    apply list_elem_of_In, fold_older_In.
  - intros id' row' Hlk.
    apply elem_of_map_to_list in Hlk. rewrite Hl in Hlk.
    apply list_elem_of_In in Hlk.
    pose proof (fold_older_le l x (id', row') Hlk) as Hle.
    rewrite Heq in Hle. exact Hle.
Qed.

Lemma fold_max_le (l : list Z) : forall a z, z = a \/ In z l -> z <= fold_left Z.max l a.
Proof.
  induction l as [|y l IH]; intros a z Hin; cbn [fold_left].
  - destruct Hin as [-> | []]. lia.
  - destruct Hin as [-> | [<- | Hin]].
    + pose proof (IH (Z.max a y) (Z.max a y) (or_introl eq_refl)). lia.
    + pose proof (IH (Z.max a y) (Z.max a y) (or_introl eq_refl)). lia.
    + apply IH. right. exact Hin.
Qed.

(** No stored id exceeds [max_id]. *)
Lemma max_id_ge (m : gmap Z queue.Row) id row : m !! id = Some row -> id <= queue.max_id m.
Proof.
  intros Hlk. unfold queue.max_id. apply fold_max_le. right.
  apply in_map_iff. exists (id, row). split; [reflexivity|].
  apply list_elem_of_In, elem_of_map_to_list. exact Hlk.
Qed.

(** An insert picks an id above every stored id and leaves the other rows. *)
Lemma sql_insert_Ok d now appKey dataJSON id d' :
  queue.sql_insert d now appKey dataJSON = Ok (id, d') ->
  queue.closed d = false
  /\ queue.closed d' = false
  /\ queue.messages d !! id = None
  /\ (forall id' row', queue.messages d !! id' = Some row' -> id' < id)
  /\ queue.sqlite_sequence d < id
  /\ queue.messages d'
     = <[id := {| queue.app_key := appKey; queue.data := dataJSON;
                  queue.created_at := now; queue.attempts := 0 |}]> (queue.messages d)
  /\ queue.sqlite_sequence d' = id.
Proof.
  unfold queue.sql_insert.
  destruct (queue.closed d) eqn:Hc; [discriminate|].
  destruct (_ <=? _); [discriminate|].
  intros Heq. injection Heq as <- <-. cbn.
  assert (Hlt : forall id' row', queue.messages d !! id' = Some row' ->
                 id' < Z.max (queue.sqlite_sequence d) (queue.max_id (queue.messages d)) + 1).
  { intros id' row' Hlk. pose proof (max_id_ge _ _ _ Hlk). lia. }
  repeat split; auto; try lia.
  destruct (queue.messages d !! _) as [row|] eqn:Hlk; [|reflexivity].
  apply Hlt in Hlk. lia.
Qed.

Lemma Dequeue_unchanged E q : (queue.Dequeue E q).2 = q.
Proof.
  unfold queue.Dequeue. destruct (queue.closed _); [reflexivity|].
  destruct (queue.first_by_id _) as [[id row]|]; [|reflexivity].
  destruct (json_Unmarshal E _); reflexivity.
Qed.

(** What a [Dequeue] that returns a message tells about the store. *)
Lemma Dequeue_Some E q msg :
  (queue.Dequeue E q).1 = Ok (Some msg) ->
  queue.closed (queue.db q) = false
  /\ exists row,
       queue.messages (queue.db q) !! queue.ID msg = Some row
       /\ queue.AppKey msg = queue.app_key row
       /\ json_Unmarshal E (Bytes.of_string (queue.data row)) = Ok (queue.Data msg)
       /\ queue.CreatedAt msg = queue.created_at row
       /\ queue.Attempts msg = queue.attempts row
       /\ forall id' row', queue.messages (queue.db q) !! id' = Some row' ->
                           queue.ID msg <= id'.
Proof.
  unfold queue.Dequeue. destruct (queue.closed _) eqn:Hc; [discriminate|].
  destruct (queue.first_by_id _) as [[id row]|] eqn:Hf; [|discriminate].
  destruct (json_Unmarshal E _) as [d|e] eqn:Hu; [|discriminate].
  cbn [fst]. intros Heq. injection Heq as <-. cbn.
  apply first_by_id_Some in Hf as [Hlk Hmin].
  split; [reflexivity|]. exists row. repeat split; auto.
Qed.

(** A queue of two messages reopened with a capacity of one: [Enqueue]
    reports a full queue although the size is not the capacity. *)
Lemma Enqueue_full_above_capacity :
  let q := example.queue_of [(1, example.row 0); (2, example.row 0)] 1 in
  ~ ((queue.Enqueue (example.env []) q 1704067200 "k1" example.payload).1
       = Err (queue.QueueFullError (queue.maxSize q))
     <-> queue.Size q = Ok (queue.maxSize q)).
Proof.
  intros q [Hfull _].
  assert (Herr : (queue.Enqueue (example.env []) q 1704067200 "k1" example.payload).1
                 = Err (queue.QueueFullError (queue.maxSize q)))
    by (vm_compute; reflexivity).
  specialize (Hfull Herr). vm_compute in Hfull. discriminate.
Qed.

(** C5, amended. With the size read by the check, [Enqueue] fails with
    the queue-full error exactly when the size is at least the configured
    capacity; a successful [Enqueue] adds one message and leaves the size at
    most the capacity. *)
Theorem Enqueue_full_iff_size_reaches_capacity E q now appKey data count :
  queue.Size q = Ok count ->
  ((queue.Enqueue E q now appKey data).1 = Err (queue.QueueFullError (queue.maxSize q))
   <-> queue.maxSize q <= count)
  /\ (forall id, (queue.Enqueue E q now appKey data).1 = Ok id ->
        queue.Size (queue.Enqueue E q now appKey data).2 = Ok (count + 1)
        /\ count + 1 <= queue.maxSize q).
Proof.
  unfold queue.Size. intros Hcount. unfold queue.Enqueue. rewrite Hcount.
  destruct (count >=? queue.maxSize q) eqn:Hge.
  - cbn [fst snd]. split; [split; [lia|reflexivity]|]. intros id Hid. discriminate.
  - assert (Hlt : count < queue.maxSize q) by lia.
    destruct (json_Marshal E data) as [dataJSON|e].
    2:{ cbn [fst snd]. split; [split; [|lia]|intros id Hid; discriminate].
        unfold queue.QueueFullError. cbn [String.append]. discriminate. }
    destruct (queue.sql_insert _ _ _ _) as [[id d']|e] eqn:Hins.
    2:{ cbn [fst snd]. split; [split; [|lia]|intros id Hid; discriminate].
        unfold queue.QueueFullError. cbn [String.append]. discriminate. }
    cbn [fst snd]. split; [split; [discriminate|lia]|].
    intros id0 _. split; [|lia].
    apply sql_insert_Ok in Hins as (Hc & Hc' & Hfresh & _ & _ & Hm & _).
    unfold queue.sql_count in *. cbn [queue.with_db queue.db].
    rewrite Hc in Hcount. rewrite Hc', Hm.
    rewrite map_size_insert_None by exact Hfresh.
    injection Hcount as <-. f_equal. lia.
Qed.

Lemma Enqueue_full_iff_size_reaches_capacity_witness :
  let E := example.env [] in
  let q := example.queue_of [(1, example.row 0); (2, example.row 0)] 3 in
  ((queue.Enqueue E q 1704067200 "k1" example.payload).1
     = Err (queue.QueueFullError (queue.maxSize q))
   <-> queue.maxSize q <= 2)
  /\ (forall id, (queue.Enqueue E q 1704067200 "k1" example.payload).1 = Ok id ->
        queue.Size (queue.Enqueue E q 1704067200 "k1" example.payload).2 = Ok (2 + 1)
        /\ 2 + 1 <= queue.maxSize q).
Proof.
  intros E q.
  apply (Enqueue_full_iff_size_reaches_capacity E q 1704067200 "k1" example.payload 2).
  vm_compute. reflexivity.
Defined.

(** At the capacity the queue is full, one below it is not. *)
Example Enqueue_at_the_boundary :
  let E := example.env [] in
  let rows := [(1, example.row 0); (2, example.row 0)] in
  (queue.Enqueue E (example.queue_of rows 2) 0 "k1" example.payload).1
    = Err "queue is full (max: 2)"
  /\ (queue.Enqueue E (example.queue_of rows 3) 0 "k1" example.payload).1 = Ok 3.
Proof. vm_compute. auto. Qed.

(** C6. On an open queue whose stored payloads decode, [Dequeue] leaves
    the queue as it is; it returns the empty result when the queue holds
    nothing, and otherwise the stored message with the smallest id. After
    that message is removed the next [Dequeue] returns a message with a
    larger id, and a later [Enqueue] is given an id above all stored ones:
    messages come out in ascending id order, the order of insertion. *)
Theorem Dequeue_returns_oldest E q :
  queue.closed (queue.db q) = false ->
  (forall id row, queue.messages (queue.db q) !! id = Some row ->
     is_ok (json_Unmarshal E (Bytes.of_string (queue.data row))) = true) ->
  (queue.Dequeue E q).2 = q
  /\ (queue.messages (queue.db q) = ∅ -> (queue.Dequeue E q).1 = Ok None)
  /\ (queue.messages (queue.db q) <> ∅ ->
      exists msg row,
        (queue.Dequeue E q).1 = Ok (Some msg)
        /\ queue.messages (queue.db q) !! queue.ID msg = Some row
        /\ queue.AppKey msg = queue.app_key row
        /\ json_Unmarshal E (Bytes.of_string (queue.data row)) = Ok (queue.Data msg)
        /\ queue.CreatedAt msg = queue.created_at row
        /\ queue.Attempts msg = queue.attempts row
        /\ (forall id' row', queue.messages (queue.db q) !! id' = Some row' ->
              queue.ID msg <= id')
        /\ (forall msg',
              (queue.Dequeue E (queue.Remove q (queue.ID msg)).2).1 = Ok (Some msg') ->
              queue.ID msg < queue.ID msg'))
  /\ (forall now appKey data id,
        (queue.Enqueue E q now appKey data).1 = Ok id ->
        forall id' row', queue.messages (queue.db q) !! id' = Some row' -> id' < id).
Proof.
  intros Hopen Hdec. split; [apply Dequeue_unchanged|]. split; [|split].
  - intros Hempty. unfold queue.Dequeue. rewrite Hopen.
    apply first_by_id_None in Hempty. rewrite Hempty. reflexivity.
  - intros Hne.
    destruct (queue.first_by_id (queue.messages (queue.db q))) as [[id row]|] eqn:Hf.
    2:{ apply first_by_id_None in Hf. contradiction. }
    pose proof (first_by_id_Some _ _ _ Hf) as [Hlk Hmin].
    pose proof (Hdec id row Hlk) as Hok.
    destruct (json_Unmarshal E (Bytes.of_string (queue.data row))) as [d|e] eqn:Hu;
      [|discriminate].
    exists {| queue.ID := id; queue.AppKey := queue.app_key row; queue.Data := d;
              queue.CreatedAt := queue.created_at row;
              queue.Attempts := queue.attempts row |}, row.
    cbn [queue.ID queue.AppKey queue.Data queue.CreatedAt queue.Attempts].
    split; [unfold queue.Dequeue; rewrite Hopen, Hf, Hu; reflexivity|].
    repeat (split; [assumption || reflexivity|]).
    intros msg' Hnext. apply Dequeue_Some in Hnext as (_ & row' & Hlk' & _).
    unfold queue.Remove, queue.sql_delete in Hlk'. rewrite Hopen in Hlk'.
    cbn [snd queue.with_db queue.db queue.messages] in Hlk'.
    destruct (decide (queue.ID msg' = id)) as [Heq|Hneq].
    + rewrite Heq, lookup_delete_eq in Hlk'. discriminate.
    + rewrite lookup_delete_ne in Hlk' by congruence.
      pose proof (Hmin _ _ Hlk'). lia.
  - intros now appKey data id. unfold queue.Enqueue.
    destruct (queue.sql_count _) as [count|e]; [|discriminate].
    destruct (count >=? _); [discriminate|].
    destruct (json_Marshal E data) as [dataJSON|e]; [|discriminate].
    destruct (queue.sql_insert _ _ _ _) as [[id0 d']|e] eqn:Hins; [|discriminate].
    cbn [fst]. intros Heq. injection Heq as <-.
    apply sql_insert_Ok in Hins as (_ & _ & _ & Hlt & _). exact Hlt.
Qed.

Lemma Dequeue_returns_oldest_witness :
  let E := example.env [] in
  let q := example.queue_of [(5, example.row 0); (3, example.row 2)] 10 in
  (queue.Dequeue E q).2 = q
  /\ (queue.Dequeue E q).1
     = Ok (Some {| queue.ID := 3; queue.AppKey := "k1"; queue.Data := example.payload;
                   queue.CreatedAt := 1704067200; queue.Attempts := 2 |}).
Proof.
  intros E q.
  destruct (Dequeue_returns_oldest E q) as (Hsame & _ & _ & _).
  - reflexivity.
  - intros id row _. reflexivity.
  - split; [exact Hsame|]. vm_compute. reflexivity.
Defined.

(** ** The drain loop *)

(** The hard cap is [RetryAttempts * 3] whenever that product fits an [int]. *)
Lemma hardCap_exact cfg :
  - 2 ^ 63 <= config.RetryAttempts (config.Nexus cfg) * 3 < 2 ^ 63 ->
  agent.hardCap cfg = config.RetryAttempts (config.Nexus cfg) * 3.
Proof.
  intros Hrange. unfold agent.hardCap, int_mul, int_wrap.
  rewrite Z.mod_small by lia. lia.
Qed.

Lemma Remove_open q id :
  queue.closed (queue.db q) = false ->
  (queue.Remove q id).2
  = queue.with_db q {| queue.messages := delete id (queue.messages (queue.db q));
                       queue.sqlite_sequence := queue.sqlite_sequence (queue.db q);
                       queue.closed := false |}.
Proof. intros Hc. unfold queue.Remove, queue.sql_delete. rewrite Hc. reflexivity. Qed.

Lemma IncrementAttempts_open q id :
  queue.closed (queue.db q) = false ->
  (queue.IncrementAttempts q id).2
  = queue.with_db q {| queue.messages := alter queue.bump id (queue.messages (queue.db q));
                       queue.sqlite_sequence := queue.sqlite_sequence (queue.db q);
                       queue.closed := false |}.
Proof. intros Hc. unfold queue.IncrementAttempts, queue.sql_increment. rewrite Hc. reflexivity. Qed.

(** One iteration of the loop on a queue whose oldest message is [msg]. *)
Lemma drain_step E cfg k q h msg :
  (queue.Dequeue E q).1 = Ok (Some msg) ->
  let r := sender.Send E cfg (queue.AppKey msg) (queue.Data msg) h in
  agent.drain E cfg (S k) q h
  = if sender.Success r.1
       || (negb (sender.Retry r.1) || (queue.Attempts msg >=? agent.hardCap cfg))
    then ((agent.drain E cfg k (queue.Remove q (queue.ID msg)).2 (h ++ r.2)).1,
          r.2 ++ (agent.drain E cfg k (queue.Remove q (queue.ID msg)).2 (h ++ r.2)).2)
    else (Some (queue.IncrementAttempts q (queue.ID msg)).2, r.2).
Proof.
  intros Hdq. cbv zeta. cbn [agent.drain].
  pose proof (Dequeue_unchanged E q) as Hq.
  destruct (queue.Dequeue E q) as [res q1]. cbn [fst snd] in Hdq, Hq. subst res q1.
  rewrite run_bind.
  destruct (sender.Send E cfg (queue.AppKey msg) (queue.Data msg) h) as [r evs].
  cbn [fst snd].
  destruct (sender.Success r); cbn [orb]; [reflexivity|].
  destruct (negb (sender.Retry r) || _); [reflexivity|].
  cbn [ret mret M_ret fst snd]. now rewrite app_nil_r.
Qed.

(** A cycle never adds a message. *)
Lemma drain_keeps_absent E cfg id fuel : forall q h q',
  (agent.drain E cfg fuel q h).1 = Some q' ->
  queue.messages (queue.db q) !! id = None ->
  queue.messages (queue.db q') !! id = None.
Proof.
  induction fuel as [|k IH]; intros q h q' Hrun Habs; [discriminate|].
  destruct (queue.Dequeue E q) as [res q1] eqn:Hdq.
  pose proof (Dequeue_unchanged E q) as Hq. rewrite Hdq in Hq. cbn [snd] in Hq. subst q1.
  destruct res as [[msg|]|e].
  - assert (Hd : (queue.Dequeue E q).1 = Ok (Some msg)) by now rewrite Hdq.
    rewrite (drain_step E cfg k q h msg Hd) in Hrun. cbv zeta in Hrun.
    apply Dequeue_Some in Hd as (Hopen & _).
    destruct (_ || _).
    + cbn [fst] in Hrun. apply IH in Hrun; [exact Hrun|].
      rewrite (Remove_open q _ Hopen). cbn [queue.with_db queue.db queue.messages].
      destruct (decide (queue.ID msg = id)) as [->|Hne].
      * apply lookup_delete_eq.
      * rewrite lookup_delete_ne by exact Hne. exact Habs.
    + cbn [fst] in Hrun. injection Hrun as <-.
      rewrite (IncrementAttempts_open q _ Hopen).
      cbn [queue.with_db queue.db queue.messages].
      rewrite lookup_alter. case_decide; [subst|]; rewrite ?Habs; reflexivity.
  - cbn [agent.drain] in Hrun. rewrite Hdq in Hrun. cbn in Hrun.
    injection Hrun as <-. exact Habs.
  - cbn [agent.drain] in Hrun. rewrite Hdq in Hrun. cbn in Hrun.
    injection Hrun as <-. exact Habs.
Qed.

(** With more fuel than rows the loop ends. *)
Lemma drain_terminates E cfg fuel : forall q h,
  (size (queue.messages (queue.db q)) < fuel)%nat ->
  exists q', (agent.drain E cfg fuel q h).1 = Some q'.
Proof.
  induction fuel as [|k IH]; intros q h Hfuel; [lia|].
  destruct (queue.Dequeue E q) as [res q1] eqn:Hdq.
  pose proof (Dequeue_unchanged E q) as Hq. rewrite Hdq in Hq. cbn [snd] in Hq. subst q1.
  destruct res as [[msg|]|e].
  - assert (Hd : (queue.Dequeue E q).1 = Ok (Some msg)) by now rewrite Hdq.
    rewrite (drain_step E cfg k q h msg Hd). cbv zeta.
    apply Dequeue_Some in Hd as (Hopen & row & Hlk & _).
    destruct (_ || _); [|eexists; reflexivity].
    cbn [fst]. apply IH.
    rewrite (Remove_open q _ Hopen). cbn [queue.with_db queue.db queue.messages].
    rewrite map_size_delete_Some by (rewrite Hlk; eauto).
    assert (size (queue.messages (queue.db q)) <> 0)%nat.
    { intros H0. apply map_size_empty_iff in H0. rewrite H0 in Hlk.
      rewrite lookup_empty in Hlk. discriminate. }
    lia.
  - cbn [agent.drain]. rewrite Hdq. eexists. reflexivity.
  - cbn [agent.drain]. rewrite Hdq. eexists. reflexivity.
Qed.

Lemma drainCycle_terminates E cfg q h : exists q', (agent.drainCycle E cfg q h).1 = Some q'.
Proof. unfold agent.drainCycle. apply drain_terminates. lia. Qed.

(** C7. In a drain cycle, when the delivery of the oldest queued message
    fails with a non-retryable outcome, or fails (retryably or not) while
    its attempts counter is at least the hard cap ([RetryAttempts*3] as the
    program computes it), the message is removed: the loop goes on with the
    queue without it, and the queue the cycle ends with does not hold it. *)
Theorem drain_drops_permanent_failure E cfg k q h msg :
  (queue.Dequeue E q).1 = Ok (Some msg) ->
  sender.Success (sender.Send E cfg (queue.AppKey msg) (queue.Data msg) h).1 = false ->
  (sender.Retry (sender.Send E cfg (queue.AppKey msg) (queue.Data msg) h).1 = false
   \/ agent.hardCap cfg <= queue.Attempts msg) ->
  (size (queue.messages (queue.db q)) <= k)%nat ->
  queue.messages (queue.db (queue.Remove q (queue.ID msg)).2) !! queue.ID msg = None
  /\ (agent.drain E cfg (S k) q h).1
     = (agent.drain E cfg k (queue.Remove q (queue.ID msg)).2
          (h ++ (sender.Send E cfg (queue.AppKey msg) (queue.Data msg) h).2)).1
  /\ exists q', (agent.drain E cfg (S k) q h).1 = Some q'
                /\ queue.messages (queue.db q') !! queue.ID msg = None.
Proof.
  intros Hdq Hfail Hperm Hfuel.
  pose proof (Dequeue_Some E q msg Hdq) as (Hopen & _).
  assert (Hgone : queue.messages (queue.db (queue.Remove q (queue.ID msg)).2)
                    !! queue.ID msg = None).
  { rewrite (Remove_open q _ Hopen). cbn [queue.with_db queue.db queue.messages].
    apply lookup_delete_eq. }
  assert (Hstep : (agent.drain E cfg (S k) q h).1
     = (agent.drain E cfg k (queue.Remove q (queue.ID msg)).2
          (h ++ (sender.Send E cfg (queue.AppKey msg) (queue.Data msg) h).2)).1).
  { rewrite (drain_step E cfg k q h msg Hdq). cbv zeta. rewrite Hfail. cbn [orb].
    replace (negb _ || _) with true; [reflexivity|].
    symmetry. apply orb_true_iff.
    destruct Hperm as [Hr | Hcap]; [left; now rewrite Hr | right; lia]. }
  split; [exact Hgone|]. split; [exact Hstep|].
  destruct (drain_terminates E cfg (S k) q h) as [q' Hq']; [lia|].
  exists q'. split; [exact Hq'|].
  rewrite Hstep in Hq'. exact (drain_keeps_absent _ _ _ _ _ _ _ Hq' Hgone).
Qed.

(** The oldest message has reached the cap of 3; the server still answers
    503, a retryable failure. *)
Lemma drain_drops_permanent_failure_witness :
  let E := example.env [example.status 503] in
  let cfg := example.cfg 1 example.zero_secret in
  let q := example.queue_of [(5, example.row 0); (3, example.row 3)] 10 in
  exists q', (agent.drain E cfg 3 q []).1 = Some q'
             /\ queue.messages (queue.db q') !! 3 = None.
Proof.
  intros E cfg q.
  refine (proj2 (proj2 (drain_drops_permanent_failure E cfg 2 q []
            {| queue.ID := 3; queue.AppKey := "k1"; queue.Data := example.payload;
               queue.CreatedAt := 1704067200; queue.Attempts := 3 |} _ _ _ _))).
  - vm_compute. reflexivity.
  - vm_compute. reflexivity.
  - right. vm_compute. discriminate.
  - vm_compute. lia.
Defined.

(** C8. In a drain cycle, when the delivery of the oldest queued message
    fails with a retryable outcome and its attempts counter is below the
    hard cap, the cycle ends there: its attempts counter is incremented,
    every other message is left as it was, and the only events of the rest
    of the cycle are those of this one [Send]; no younger message is
    attempted before the next tick. *)
Theorem drain_head_of_line_blocking E cfg k q h msg :
  (queue.Dequeue E q).1 = Ok (Some msg) ->
  sender.Success (sender.Send E cfg (queue.AppKey msg) (queue.Data msg) h).1 = false ->
  sender.Retry (sender.Send E cfg (queue.AppKey msg) (queue.Data msg) h).1 = true ->
  queue.Attempts msg < agent.hardCap cfg ->
  agent.drain E cfg (S k) q h
  = (Some (queue.IncrementAttempts q (queue.ID msg)).2,
     (sender.Send E cfg (queue.AppKey msg) (queue.Data msg) h).2)
  /\ (exists row,
        queue.messages (queue.db q) !! queue.ID msg = Some row
        /\ queue.attempts row = queue.Attempts msg
        /\ queue.messages (queue.db (queue.IncrementAttempts q (queue.ID msg)).2)
             !! queue.ID msg
           = Some {| queue.app_key := queue.app_key row; queue.data := queue.data row;
                     queue.created_at := queue.created_at row;
                     queue.attempts := queue.Attempts msg + 1 |})
  /\ (forall id, id <> queue.ID msg ->
        queue.messages (queue.db (queue.IncrementAttempts q (queue.ID msg)).2) !! id
        = queue.messages (queue.db q) !! id).
Proof.
  intros Hdq Hfail Hretry Hcap.
  pose proof (Dequeue_Some E q msg Hdq) as (Hopen & row & Hlk & _ & _ & _ & Hatt & _).
  split; [|split].
  - rewrite (drain_step E cfg k q h msg Hdq). cbv zeta. rewrite Hfail, Hretry.
    cbn [orb negb]. replace (_ >=? _) with false by lia. reflexivity.
  - exists row. split; [exact Hlk|]. split; [now rewrite Hatt|].
    rewrite (IncrementAttempts_open q _ Hopen).
    cbn [queue.with_db queue.db queue.messages].
    rewrite lookup_alter_eq, Hlk. cbn. unfold queue.bump. now rewrite Hatt.
  - intros id Hne. rewrite (IncrementAttempts_open q _ Hopen).
    cbn [queue.with_db queue.db queue.messages].
    apply lookup_alter_ne. congruence.
Qed.

(** Two queued messages, the server answers 503: only the older one is
    attempted, once, and its counter goes from 0 to 1. *)
Lemma drain_head_of_line_blocking_witness :
  let E := example.env [example.status 503] in
  let cfg := example.cfg 1 example.zero_secret in
  let q := example.queue_of [(5, example.row 0); (3, example.row 0)] 10 in
  let msg := {| queue.ID := 3; queue.AppKey := "k1"; queue.Data := example.payload;
                queue.CreatedAt := 1704067200; queue.Attempts := 0 |} in
  agent.drain E cfg 3 q []
  = (Some (queue.IncrementAttempts q 3).2,
     (sender.Send E cfg "k1" example.payload []).2).
Proof.
  intros E cfg q msg.
  refine (proj1 (drain_head_of_line_blocking E cfg 2 q [] msg _ _ _ _)).
  - vm_compute. reflexivity.
  - vm_compute. reflexivity.
  - vm_compute. reflexivity.
  - vm_compute. reflexivity.
Defined.

Example drainCycle_blocked_by_oldest :
  let r := agent.drainCycle (example.env [example.status 503])
             (example.cfg 1 example.zero_secret)
             (example.queue_of [(5, example.row 0); (3, example.row 0)] 10) [] in
  length (http_outcomes r.2) = 1%nat
  /\ (fun q => queue.attempts <$> queue.messages (queue.db q) !! 3) <$> r.1 = Some (Some 1)
  /\ (fun q => queue.attempts <$> queue.messages (queue.db q) !! 5) <$> r.1 = Some (Some 0).
Proof. vm_compute. auto. Qed.

(** * Further properties of the code *)

(** ** Encryption *)

Lemma deriveKeyForDate_Ok masterSecret appKey date :
  exists key,
    crypto.deriveKeyForDate masterSecret appKey date = Ok key
    /\ key = RFC5869.HKDF masterSecret None
               (Bytes.of_string ("nexus-enigma-" +:+ appKey +:+ "-" +:+ date)) 32
    /\ length key = 32%nat.
Proof.
  unfold crypto.deriveKeyForDate, crypto.KeyLength, hkdf.New.
  pose proof (hkdf_Read_first_block (hkdf.Extract masterSecret None)
                (Bytes.of_string ("nexus-enigma-" +:+ appKey +:+ "-" +:+ date))) as Hrd.
  destruct (hkdf.Read _ 32) as [[[key|e] f]|];
    cbn [fmap option_fmap option_map fst] in Hrd; try discriminate.
  injection Hrd as ->. eexists. split; [reflexivity|].
  unfold RFC5869.HKDF. rewrite rfc5869_Expand_one_block.
  split; [reflexivity|apply hmac_Sum_length].
Qed.

(** [EncryptPayload] fails only when the secret does not decode, the
    entropy source fails or the payload does not serialize: deriving the key
    and building the cipher never fail. When it succeeds the payload was
    sealed once, under the 32-byte key derived from the decoded secret for
    the UTC date of the clock, with a nonce of 12 bytes, and the envelope
    names that date, version 1, and the nonce and ciphertext in base64. *)
Theorem EncryptPayload_succeeds_iff E data masterSecretB64 appKey h :
  let run := crypto.EncryptPayload E data masterSecretB64 appKey h in
  (is_ok run.1 = true
   <-> is_ok (base64.DecodeString masterSecretB64) = true
       /\ is_ok (entropy E (h ++ [EvNow (clock E h)])) = true
       /\ is_ok (json_Marshal E data) = true)
  /\ (forall enc, run.1 = Ok enc ->
      exists masterSecret key nonce plaintext,
        base64.DecodeString masterSecretB64 = Ok masterSecret
        /\ json_Marshal E data = Ok plaintext
        /\ key = RFC5869.HKDF masterSecret None
                   (Bytes.of_string ("nexus-enigma-" +:+ appKey +:+ "-" +:+
                                     time.Format_2006_01_02 (clock E h))) 32
        /\ length key = 32%nat /\ length nonce = 12%nat
        /\ seals run.2 = [(key, nonce, plaintext, gcm_Seal E key nonce plaintext)]
        /\ enc = {| crypto.Encrypted := true;
                    crypto.KeyDate := time.Format_2006_01_02 (clock E h);
                    crypto.SecretVersion := 1;
                    crypto.Nonce := base64.EncodeToString nonce;
                    crypto.Data :=
                      base64.EncodeToString (gcm_Seal E key nonce plaintext) |}).
Proof.
  cbv zeta. unfold crypto.EncryptPayload.
  destruct (base64.DecodeString masterSecretB64) as [masterSecret|e0].
  2:{ cbn [fst snd is_ok ret mret M_ret].
      split; [split; [discriminate|intros (? & _); discriminate]|discriminate]. }
  rewrite run_bind. unfold time_Now. cbn [fst snd].
  destruct (deriveKeyForDate_Ok masterSecret appKey (time.Format_2006_01_02 (clock E h)))
    as (key & -> & Hkey & Hlen).
  unfold crypto.aes_NewCipher. rewrite Hlen. cbn [Nat.eqb orb].
  rewrite run_bind. unfold rand_ReadFull. cbn [fst snd].
  destruct (entropy E (h ++ [EvNow (clock E h)])) as [f|e0].
  2:{ cbn [fst snd is_ok ret mret M_ret].
      split; [split; [discriminate|intros (_ & ? & _); discriminate]|discriminate]. }
  destruct (json_Marshal E data) as [plaintext|e0].
  2:{ cbn [fst snd is_ok ret mret M_ret].
      split; [split; [discriminate|intros (_ & _ & ?); discriminate]|discriminate]. }
  rewrite run_bind. unfold Seal. cbn [fst snd ret mret M_ret is_ok].
  split; [split; [intros _; repeat split; reflexivity|intros _; reflexivity]|].
  intros enc Henc. injection Henc as <-.
  exists masterSecret, key, (map f (seq 0 crypto.NonceLength)), plaintext.
  split; [reflexivity|]. split; [reflexivity|]. split; [exact Hkey|].
  split; [exact Hlen|]. split; [rewrite length_map, length_seq; reflexivity|].
  split; reflexivity.
Qed.

(** ** Delivery *)



Lemma doSend_headers url appKey body :
  http.Header_Set "X-API-Key" appKey
    (http.Header_Set "Content-Type" "application/json"
       {| http.Method := "POST"; http.URL := url; http.Header := [];
          http.ReqBody := body |})
  = {| http.Method := "POST"; http.URL := url;
       http.Header := [("Content-Type", "application/json"); ("X-API-Key", appKey)];
       http.ReqBody := body |}.
Proof. reflexivity. Qed.

(** The request [doSend] builds. *)
Lemma doSend_request E cfg appKey masterSecret body h :
  let request :=
    {| http.Method := "POST";
       http.URL := config.ServerURL (config.Nexus cfg) +:+ "/ingress";
       http.Header := [("Content-Type", "application/json"); ("X-API-Key", appKey)];
       http.ReqBody := body |} in
  match request_error E "POST" (config.ServerURL (config.Nexus cfg) +:+ "/ingress") with
  | Some _ => (sender.doSend E cfg appKey masterSecret body h).2 = []
  | None =>
      (sender.doSend E cfg appKey masterSecret body h).2
      = [EvDo request (transport E h request)]
  end.
Proof.
  cbv zeta. unfold sender.doSend, sender.http_NewRequest.
  destruct (request_error E _ _) as [e|]; [reflexivity|].
  rewrite run_bind. unfold client_Do. cbn [fst snd].
  rewrite doSend_headers.
  match goal with |- context [transport E h ?r] => destruct (transport E h r) as [resp|e] end.
  - destruct (_ && _); [reflexivity|]. destruct (_ <=? _); reflexivity.
  - reflexivity.
Qed.

Section RetryLoopShape.

Variables (E : Env) (cfg : config.Config) (appKey masterSecret : string).
Variable body : list byte.


End RetryLoopShape.


Example Send_pauses_between_attempts :
  let r := sender.Send
             (example.env [example.status 500; example.refused; example.status 503])
             (example.cfg 3 example.zero_secret) "k1" example.payload [] in
  sleeps r.2 = [5 * time.Second; 5 * time.Second].
Proof. vm_compute. reflexivity. Qed.

(** [Send] with nothing to attempt. *)
Lemma Send_zero_ceiling E cfg appKey data h appConfig enc :
  config.RetryAttempts (config.Nexus cfg) <= 0 ->
  config.GetAppByKey cfg appKey = Some appConfig ->
  (crypto.EncryptPayload E data (config.MasterSecret appConfig) appKey h).1 = Ok enc ->
  (sender.Send E cfg appKey data h).1
  = {| sender.Success := false;
       sender.Message := "all retries failed: <nil>";
       sender.Retry := true |}
  /\ http_outcomes (sender.Send E cfg appKey data h).2 = [].
Proof.
  intros Hzero Hkey Henc.
  destruct (crypto.EncryptPayload E data (config.MasterSecret appConfig) appKey h)
    as [r pre] eqn:Hrun.
  cbn [fst] in Henc. subst r.
  destruct (Send_encrypted E cfg appKey data h appConfig enc pre Hkey Hrun)
    as (body & _ & Hsend).
  destruct (EncryptPayload_Ok _ _ _ _ _ _ _ Hrun)
    as (ms & key & nonce & pt & _ & _ & _ & Hpre & _).
  rewrite Hsend.
  replace (Z.to_nat (config.RetryAttempts (config.Nexus cfg))) with 0%nat by lia.
  cbn [sender.retryLoop ret mret M_ret fst snd sender.show_error].
  rewrite app_nil_r, Hpre. split; reflexivity.
Qed.

(** With a ceiling of zero or less, [Send] makes no HTTP attempt at all
    and still reports a retryable failure (with a nil last error), for
    every known tenant whose payload encrypts. *)
Theorem Send_without_attempts E cfg appKey data h appConfig enc :
  config.RetryAttempts (config.Nexus cfg) <= 0 ->
  config.GetAppByKey cfg appKey = Some appConfig ->
  (crypto.EncryptPayload E data (config.MasterSecret appConfig) appKey h).1 = Ok enc ->
  (sender.Send E cfg appKey data h).1
  = {| sender.Success := false;
       sender.Message := "all retries failed: <nil>";
       sender.Retry := true |}
  /\ http_outcomes (sender.Send E cfg appKey data h).2 = [].
Proof.
  intros Hzero Hkey Henc.
  destruct (crypto.EncryptPayload E data (config.MasterSecret appConfig) appKey h)
    as [r pre] eqn:Hrun.
  cbn [fst] in Henc. subst r.
  destruct (Send_encrypted E cfg appKey data h appConfig enc pre Hkey Hrun)
    as (body & _ & Hsend).
  destruct (EncryptPayload_Ok _ _ _ _ _ _ _ Hrun)
    as (ms & key & nonce & pt & _ & _ & _ & Hpre & _).
  rewrite Hsend.
  replace (Z.to_nat (config.RetryAttempts (config.Nexus cfg))) with 0%nat by lia.
  cbn [sender.retryLoop ret mret M_ret fst snd sender.show_error].
  rewrite app_nil_r, Hpre. split; reflexivity.
Qed.

Lemma Send_without_attempts_witness :
  let E := example.env [example.status 200] in
  let cfg := example.cfg (-1) example.zero_secret in
  (sender.Send E cfg "k1" example.payload []).1
  = {| sender.Success := false;
       sender.Message := "all retries failed: <nil>";
       sender.Retry := true |}
  /\ http_outcomes (sender.Send E cfg "k1" example.payload []).2 = [].
Proof.
  intros E cfg.
  refine (Send_without_attempts E cfg "k1" example.payload []
            (example.app example.zero_secret) _ _ _ _).
  - vm_compute. discriminate.
  - reflexivity.
  - vm_compute. reflexivity.
Defined.

(** ** The drain loop, further *)

(** With a ceiling of zero or less (and a product that fits an [int]), a
    drain cycle removes the oldest message of a known tenant without a
    single HTTP attempt for it. *)
Theorem drain_drops_unsent_when_ceiling_not_positive E cfg k q h msg appConfig enc :
  config.RetryAttempts (config.Nexus cfg) <= 0 ->
  - 2 ^ 63 <= config.RetryAttempts (config.Nexus cfg) * 3 ->
  (queue.Dequeue E q).1 = Ok (Some msg) ->
  0 <= queue.Attempts msg ->
  config.GetAppByKey cfg (queue.AppKey msg) = Some appConfig ->
  (crypto.EncryptPayload E (queue.Data msg) (config.MasterSecret appConfig)
     (queue.AppKey msg) h).1 = Ok enc ->
  http_outcomes (sender.Send E cfg (queue.AppKey msg) (queue.Data msg) h).2 = []
  /\ (agent.drain E cfg (S k) q h).1
     = (agent.drain E cfg k (queue.Remove q (queue.ID msg)).2
          (h ++ (sender.Send E cfg (queue.AppKey msg) (queue.Data msg) h).2)).1
  /\ queue.messages (queue.db (queue.Remove q (queue.ID msg)).2) !! queue.ID msg = None.
Proof.
  intros Hzero Hfit Hdq Hatt Hkey Henc.
  destruct (Send_zero_ceiling E cfg _ _ h appConfig enc Hzero Hkey Henc)
    as [Hres Hout].
  pose proof (Dequeue_Some E q msg Hdq) as (Hopen & _).
  split; [exact Hout|]. split.
  - rewrite (drain_step E cfg k q h msg Hdq). cbv zeta. rewrite Hres.
    cbn [sender.Success sender.Retry negb orb].
    rewrite hardCap_exact by lia.
    replace (_ >=? _) with true by lia. reflexivity.
  - rewrite (Remove_open q _ Hopen). cbn [queue.with_db queue.db queue.messages].
    apply lookup_delete_eq.
Qed.

Lemma drain_drops_unsent_when_ceiling_not_positive_witness :
  let E := example.env [example.status 200] in
  let cfg := example.cfg (-1) example.zero_secret in
  let q := example.queue_of [(3, example.row 0)] 10 in
  http_outcomes (sender.Send E cfg "k1" example.payload []).2 = []
  /\ (agent.drain E cfg 2 q []).1
     = (agent.drain E cfg 1 (queue.Remove q 3).2
          ([] ++ (sender.Send E cfg "k1" example.payload []).2)).1
  /\ queue.messages (queue.db (queue.Remove q 3).2) !! 3 = None.
Proof.
  intros E cfg q.
  refine (drain_drops_unsent_when_ceiling_not_positive E cfg 1 q []
            {| queue.ID := 3; queue.AppKey := "k1"; queue.Data := example.payload;
               queue.CreatedAt := 1704067200; queue.Attempts := 0 |}
            (example.app example.zero_secret) _ _ _ _ _ _ _).
  - vm_compute. discriminate.
  - vm_compute. discriminate.
  - vm_compute. reflexivity.
  - vm_compute. discriminate.
  - reflexivity.
  - vm_compute. reflexivity.
Defined.



(** With more fuel than rows, on an open queue whose payloads decode and
    whose every delivery succeeds, the loop ends with an empty queue. *)
Lemma drain_all_delivered E cfg fuel : forall q h,
  (size (queue.messages (queue.db q)) < fuel)%nat ->
  queue.closed (queue.db q) = false ->
  (forall id row, queue.messages (queue.db q) !! id = Some row ->
     exists data,
       json_Unmarshal E (Bytes.of_string (queue.data row)) = Ok data
       /\ forall h', sender.Success (sender.Send E cfg (queue.app_key row) data h').1 = true) ->
  exists q', (agent.drain E cfg fuel q h).1 = Some q'
             /\ queue.messages (queue.db q') = ∅.
Proof.
  induction fuel as [|n IH]; intros q h Hfuel Hopen Hok; [lia|].
  destruct (queue.first_by_id (queue.messages (queue.db q))) as [[id row]|] eqn:Hf.
  - pose proof (first_by_id_Some _ _ _ Hf) as [Hlk _].
    destruct (Hok id row Hlk) as (data & Hu & Hsucc).
    assert (Hd : (queue.Dequeue E q).1
                 = Ok (Some {| queue.ID := id; queue.AppKey := queue.app_key row;
                               queue.Data := data;
                               queue.CreatedAt := queue.created_at row;
                               queue.Attempts := queue.attempts row |})).
    { unfold queue.Dequeue. rewrite Hopen, Hf, Hu. reflexivity. }
    rewrite (drain_step E cfg n q h _ Hd). cbv zeta.
    cbn [queue.AppKey queue.Data queue.ID queue.Attempts].
    rewrite Hsucc. cbn [orb fst].
    apply IH.
    + rewrite (Remove_open q _ Hopen). cbn [queue.with_db queue.db queue.messages].
      rewrite map_size_delete_Some by (rewrite Hlk; eauto).
      assert (size (queue.messages (queue.db q)) <> 0%nat).
      { intros H0. apply map_size_empty_iff in H0. rewrite H0, lookup_empty in Hlk.
        discriminate. }
      lia.
    + rewrite (Remove_open q _ Hopen). reflexivity.
    + rewrite (Remove_open q _ Hopen). cbn [queue.with_db queue.db queue.messages].
      intros id' row' Hlk'. apply lookup_delete_Some in Hlk' as [_ Hlk'].
      exact (Hok id' row' Hlk').
  - exists q. split.
    + cbn [agent.drain]. unfold queue.Dequeue. rewrite Hopen, Hf. reflexivity.
    + apply first_by_id_None. exact Hf.
Qed.

(** When the queue is open, its payloads decode and every delivery
    succeeds, one drain cycle delivers everything: it ends with an empty
    queue. *)
Theorem drainCycle_delivers_all E cfg q h :
  queue.closed (queue.db q) = false ->
  (forall id row, queue.messages (queue.db q) !! id = Some row ->
     exists data,
       json_Unmarshal E (Bytes.of_string (queue.data row)) = Ok data
       /\ forall h', sender.Success (sender.Send E cfg (queue.app_key row) data h').1 = true) ->
  exists q', (agent.drainCycle E cfg q h).1 = Some q'
             /\ queue.messages (queue.db q') = ∅.
Proof.
  intros Hopen Hok. unfold agent.drainCycle. apply drain_all_delivered; [lia|assumption..].
Qed.

Lemma drainCycle_delivers_all_witness :
  let E := example.env_always (example.status 200) in
  let cfg := example.cfg 3 example.zero_secret in
  let q := example.queue_of [(3, example.row 0); (5, example.row 1)] 10 in
  exists q', (agent.drainCycle E cfg q []).1 = Some q'
             /\ queue.messages (queue.db q') = ∅.
Proof.
  intros E cfg q.
  apply (drainCycle_delivers_all E cfg q []).
  - reflexivity.
  - intros id row Hlk. exists example.payload. split; [reflexivity|].
    intros h'.
    assert (Hkey : queue.app_key row = "k1").
    { cbn in Hlk. apply lookup_insert_Some in Hlk as [[_ <-]|[_ Hlk]]; [reflexivity|].
      apply lookup_insert_Some in Hlk as [[_ <-]|[_ Hlk]]; [reflexivity|].
      rewrite lookup_empty in Hlk. discriminate. }
    rewrite Hkey. vm_compute. reflexivity.
Defined.

(** ** The queue, further *)

Lemma with_db_same q : queue.with_db q (queue.db q) = q.
Proof. destruct q. reflexivity. Qed.

(** [Remove] is idempotent: removing an id a second time changes nothing;
    it makes the id absent, leaves every other row as it is, and on an open
    queue that does not hold the id it changes nothing at all. *)
Theorem Remove_idempotent q id :
  (queue.Remove (queue.Remove q id).2 id).2 = (queue.Remove q id).2
  /\ (queue.closed (queue.db q) = false ->
      queue.messages (queue.db (queue.Remove q id).2) !! id = None
      /\ (queue.messages (queue.db q) !! id = None -> (queue.Remove q id).2 = q))
  /\ (forall id', id' <> id ->
        queue.messages (queue.db (queue.Remove q id).2) !! id'
        = queue.messages (queue.db q) !! id').
Proof.
  unfold queue.Remove, queue.sql_delete.
  destruct (queue.closed (queue.db q)) eqn:Hc; cbn [snd].
  - rewrite Hc. cbn [snd]. repeat split; auto. discriminate.
  - cbn [queue.with_db queue.db queue.closed queue.messages queue.sqlite_sequence
         queue.maxSize snd].
    split; [|split].
    + unfold queue.with_db. cbn [queue.maxSize]. f_equal. f_equal.
      apply delete_delete_eq.
    + intros _. split; [apply lookup_delete_eq|].
      intros Habs. rewrite delete_id by exact Habs.
      destruct q as [[m s c] mx]. cbn in Hc. subst c. reflexivity.
    + intros id' Hne. apply lookup_delete_ne. congruence.
Qed.

(** On an open queue [IncrementAttempts] adds one to the attempts counter
    of the row with that id and changes nothing else; for an id that is not
    stored it changes no row. *)
Theorem IncrementAttempts_spec q id :
  queue.closed (queue.db q) = false ->
  queue.messages (queue.db (queue.IncrementAttempts q id).2) !! id
  = queue.bump <$> queue.messages (queue.db q) !! id
  /\ (forall id', id' <> id ->
        queue.messages (queue.db (queue.IncrementAttempts q id).2) !! id'
        = queue.messages (queue.db q) !! id')
  /\ size (queue.messages (queue.db (queue.IncrementAttempts q id).2))
     = size (queue.messages (queue.db q))
  /\ queue.Size (queue.IncrementAttempts q id).2 = queue.Size q.
Proof.
  intros Hopen. rewrite (IncrementAttempts_open q id Hopen).
  cbn [queue.with_db queue.db queue.messages].
  split; [apply lookup_alter_eq|]. split; [intros id' Hne; apply lookup_alter_ne; congruence|].
  assert (Hsz : size (alter queue.bump id (queue.messages (queue.db q)))
                = size (queue.messages (queue.db q)))
    by (rewrite <- !size_dom, dom_alter_L; reflexivity).
  split; [exact Hsz|].
  unfold queue.Size, queue.sql_count. unfold queue.with_db.
  cbn [queue.db queue.closed queue.messages].
  rewrite Hopen, Hsz. reflexivity.
Qed.

Lemma IncrementAttempts_spec_witness :
  let q := example.queue_of [(3, example.row 0); (5, example.row 1)] 10 in
  queue.attempts <$> queue.messages (queue.db (queue.IncrementAttempts q 5).2) !! 5
  = Some 2.
Proof.
  intros q.
  destruct (IncrementAttempts_spec q 5) as (Hrow & _); [reflexivity|].
  rewrite Hrow. vm_compute. reflexivity.
Defined.

(** What a successful [Enqueue] did to the store. *)
Lemma Enqueue_Ok E q now appKey data id q' :
  queue.Enqueue E q now appKey data = (Ok id, q') ->
  exists plaintext,
    json_Marshal E data = Ok plaintext
    /\ queue.closed (queue.db q') = false
    /\ queue.messages (queue.db q) !! id = None
    /\ (forall id' row', queue.messages (queue.db q) !! id' = Some row' -> id' < id)
    /\ queue.messages (queue.db q')
       = <[id := {| queue.app_key := appKey; queue.data := Bytes.to_string plaintext;
                    queue.created_at := now; queue.attempts := 0 |}]>
           (queue.messages (queue.db q))
    /\ queue.maxSize q' = queue.maxSize q.
Proof.
  unfold queue.Enqueue.
  destruct (queue.sql_count _) as [count|e]; [|discriminate].
  destruct (count >=? _); [discriminate|].
  destruct (json_Marshal E data) as [plaintext|e]; [|discriminate].
  destruct (queue.sql_insert _ _ _ _) as [[id0 d']|e] eqn:Hins; [|discriminate].
  intros Heq. injection Heq as <- <-.
  apply sql_insert_Ok in Hins as (_ & Hc' & Hfresh & Hlt & _ & Hm & _).
  exists plaintext. cbn [queue.with_db queue.db queue.maxSize]. auto 10.
Qed.

(** What a successful [Enqueue] stores: a new row under the returned id
    with the tenant key, the serialized payload, the creation time and an
    attempts counter of 0, all other rows being untouched; when the queue
    was empty and the serialized payload decodes, the next [Dequeue] returns
    exactly that message. *)
Theorem Enqueue_then_Dequeue E q now appKey data id q' :
  queue.Enqueue E q now appKey data = (Ok id, q') ->
  exists plaintext,
    json_Marshal E data = Ok plaintext
    /\ queue.messages (queue.db q) !! id = None
    /\ queue.messages (queue.db q')
       = <[id := {| queue.app_key := appKey; queue.data := Bytes.to_string plaintext;
                    queue.created_at := now; queue.attempts := 0 |}]>
           (queue.messages (queue.db q))
    /\ queue.maxSize q' = queue.maxSize q
    /\ (forall d, queue.messages (queue.db q) = ∅ ->
          json_Unmarshal E plaintext = Ok d ->
          (queue.Dequeue E q').1
          = Ok (Some {| queue.ID := id; queue.AppKey := appKey; queue.Data := d;
                        queue.CreatedAt := now; queue.Attempts := 0 |})).
Proof.
  intros Henq.
  destruct (Enqueue_Ok E q now appKey data id q' Henq)
    as (plaintext & Hmarshal & Hc' & Hfresh & _ & Hm & Hmax).
  exists plaintext. split; [exact Hmarshal|]. split; [exact Hfresh|].
  split; [exact Hm|]. split; [exact Hmax|].
  intros d Hempty Hu. unfold queue.Dequeue.
  rewrite Hc', Hm, Hempty.
  unfold queue.first_by_id. rewrite insert_empty, map_to_list_singleton.
  cbn [fold_left queue.data queue.app_key queue.created_at queue.attempts].
  unfold Bytes.of_string, Bytes.to_string.
  rewrite list_byte_of_string_of_list_byte, Hu. reflexivity.
Qed.

Lemma Enqueue_then_Dequeue_witness :
  let E := example.env [] in
  let q := example.queue_of [] 10 in
  exists plaintext,
    json_Marshal E example.payload = Ok plaintext
    /\ queue.messages (queue.db q) !! 1 = None
    /\ queue.messages (queue.db (queue.Enqueue E q 7 "k1" example.payload).2)
       = <[1 := {| queue.app_key := "k1"; queue.data := Bytes.to_string plaintext;
                   queue.created_at := 7; queue.attempts := 0 |}]>
           (queue.messages (queue.db q))
    /\ queue.maxSize (queue.Enqueue E q 7 "k1" example.payload).2 = queue.maxSize q
    /\ (forall d, queue.messages (queue.db q) = ∅ ->
          json_Unmarshal E plaintext = Ok d ->
          (queue.Dequeue E (queue.Enqueue E q 7 "k1" example.payload).2).1
          = Ok (Some {| queue.ID := 1; queue.AppKey := "k1"; queue.Data := d;
                        queue.CreatedAt := 7; queue.Attempts := 0 |})).
Proof.
  intros E q.
  apply (Enqueue_then_Dequeue E q 7 "k1" example.payload 1).
  vm_compute. reflexivity.
Defined.

(** No operation changes the capacity or lowers the id counter, and after
    any of them the size is at most the larger of the size before and the
    capacity. *)
Lemma apply_op_bounds E q op :
  queue.maxSize (apply_op E q op) = queue.maxSize q
  /\ queue.sqlite_sequence (queue.db q) <= queue.sqlite_sequence (queue.db (apply_op E q op))
  /\ Z.of_nat (size (queue.messages (queue.db (apply_op E q op))))
     <= Z.max (Z.of_nat (size (queue.messages (queue.db q)))) (queue.maxSize q).
Proof.
  destruct op as [now appKey data | id | id]; cbn [apply_op].
  - destruct (queue.Enqueue E q now appKey data) as [[id|e] q'] eqn:Hrun.
    + cbn [snd].
      destruct (queue.sql_count (queue.db q)) as [count|e] eqn:Hcount.
      2:{ unfold queue.Enqueue in Hrun. rewrite Hcount in Hrun. discriminate. }
      assert (Hcap : count + 1 <= queue.maxSize q
                     /\ Z.of_nat (size (queue.messages (queue.db q'))) = count + 1
                     /\ queue.maxSize q' = queue.maxSize q
                     /\ queue.sqlite_sequence (queue.db q)
                        <= queue.sqlite_sequence (queue.db q')).
      { unfold queue.Enqueue in Hrun. rewrite Hcount in Hrun.
        destruct (count >=? queue.maxSize q) eqn:Hge; [discriminate|].
        destruct (json_Marshal E data) as [dataJSON|e]; [|discriminate].
        destruct (queue.sql_insert _ _ _ _) as [[id0 d']|e] eqn:Hins; [|discriminate].
        injection Hrun as <- <-.
        apply sql_insert_Ok in Hins as (Hc & _ & Hfresh & _ & Hseq & Hm & Hs').
        cbn [queue.with_db queue.db queue.maxSize].
        unfold queue.sql_count in Hcount. rewrite Hc in Hcount. injection Hcount as <-.
        rewrite Hm, Hs', map_size_insert_None by exact Hfresh. lia. }
      destruct Hcap as (Hle & Hsz & Hmx & Hsq). rewrite Hsz, Hmx. lia.
    + assert (q' = q) as ->.
      { unfold queue.Enqueue in Hrun.
        destruct (queue.sql_count _); [|congruence].
        destruct (_ >=? _); [congruence|].
        destruct (json_Marshal E data); [|congruence].
        destruct (queue.sql_insert _ _ _ _) as [[? ?]|?]; congruence. }
      cbn [snd]. lia.
  - unfold queue.Remove, queue.sql_delete.
    destruct (queue.closed (queue.db q)); cbn [snd queue.with_db queue.db queue.maxSize
      queue.messages queue.sqlite_sequence]; [lia|].
    split; [reflexivity|]. split; [lia|].
    pose proof (map_size_delete id (queue.messages (queue.db q))) as Hsz.
    destruct (queue.messages (queue.db q) !! id); cbn in Hsz; lia.
  - unfold queue.IncrementAttempts, queue.sql_increment.
    destruct (queue.closed (queue.db q)); cbn [snd queue.with_db queue.db queue.maxSize
      queue.messages queue.sqlite_sequence]; [lia|].
    split; [reflexivity|]. split; [lia|].
    rewrite <- !size_dom, dom_alter_L. lia.
Qed.

Lemma apply_ops_bounds E ops : forall q,
  queue.maxSize (apply_ops E q ops) = queue.maxSize q
  /\ queue.sqlite_sequence (queue.db q)
     <= queue.sqlite_sequence (queue.db (apply_ops E q ops))
  /\ Z.of_nat (size (queue.messages (queue.db (apply_ops E q ops))))
     <= Z.max (Z.of_nat (size (queue.messages (queue.db q)))) (queue.maxSize q).
Proof.
  induction ops as [|op ops IH]; intros q; cbn [apply_ops fold_left].
  - repeat split; lia.
  - destruct (apply_op_bounds E q op) as (Hm & Hs & Hz).
    destruct (IH (apply_op E q op)) as (Hm' & Hs' & Hz').
    unfold apply_ops in *. rewrite Hm in *. repeat split; lia.
Qed.

(** Capacity bound: a queue that starts within its capacity stays within
    it under every run of [Enqueue], [Remove] and [IncrementAttempts], and
    the capacity itself never changes. *)
Theorem queue_size_never_exceeds_capacity E q ops :
  Z.of_nat (size (queue.messages (queue.db q))) <= queue.maxSize q ->
  Z.of_nat (size (queue.messages (queue.db (apply_ops E q ops))))
  <= queue.maxSize (apply_ops E q ops)
  /\ queue.maxSize (apply_ops E q ops) = queue.maxSize q.
Proof.
  intros Hle. destruct (apply_ops_bounds E ops q) as (Hm & _ & Hz).
  rewrite Hm. split; [lia|reflexivity].
Qed.

Lemma queue_size_never_exceeds_capacity_witness :
  let E := example.env [] in
  let q := example.queue_of [(1, example.row 0)] 2 in
  let ops := [OpEnqueue 0 "k1" example.payload; OpEnqueue 0 "k1" example.payload;
              OpRemove 1; OpEnqueue 0 "k1" example.payload;
              OpEnqueue 0 "k1" example.payload] in
  Z.of_nat (size (queue.messages (queue.db (apply_ops E q ops))))
  <= queue.maxSize (apply_ops E q ops)
  /\ queue.maxSize (apply_ops E q ops) = queue.maxSize q.
Proof.
  intros E q ops.
  apply (queue_size_never_exceeds_capacity E q ops).
  vm_compute. discriminate.
Defined.

(** Ids are never reused: an id given out by [Enqueue] is larger than
    every id given out before on the same queue, whatever was enqueued,
    removed or retried in between. *)
Theorem Enqueue_ids_increase E q now appKey data id q1 ops now' appKey' data' id' :
  queue.Enqueue E q now appKey data = (Ok id, q1) ->
  (queue.Enqueue E (apply_ops E q1 ops) now' appKey' data').1 = Ok id' ->
  id < id'.
Proof.
  intros Hfirst Hsecond.
  assert (Hseq : queue.sqlite_sequence (queue.db q1) = id).
  { unfold queue.Enqueue in Hfirst.
    destruct (queue.sql_count _); [|discriminate].
    destruct (_ >=? _); [discriminate|].
    destruct (json_Marshal E data); [|discriminate].
    destruct (queue.sql_insert _ _ _ _) as [[id0 d']|e] eqn:Hins; [|discriminate].
    injection Hfirst as <- <-.
    apply sql_insert_Ok in Hins as (_ & _ & _ & _ & _ & _ & Hs'). exact Hs'. }
  destruct (apply_ops_bounds E ops q1) as (_ & Hmono & _).
  unfold queue.Enqueue in Hsecond.
  destruct (queue.sql_count _); [|discriminate].
  destruct (_ >=? _); [discriminate|].
  destruct (json_Marshal E data'); [|discriminate].
  destruct (queue.sql_insert _ _ _ _) as [[id0 d']|e] eqn:Hins; [|discriminate].
  cbn [fst] in Hsecond. injection Hsecond as <-.
  apply sql_insert_Ok in Hins as (_ & _ & _ & _ & Hlt & _). lia.
Qed.

Lemma Enqueue_ids_increase_witness :
  let E := example.env [] in
  let q := example.queue_of [] 10 in
  let q1 := (queue.Enqueue E q 0 "k1" example.payload).2 in
  (queue.Enqueue E q 0 "k1" example.payload).1 = Ok 1
  /\ (queue.Enqueue E (apply_ops E q1 [OpRemove 1]) 0 "k1" example.payload).1 = Ok 2
  /\ 1 < 2.
Proof.
  intros E q q1.
  split; [vm_compute; reflexivity|]. split; [vm_compute; reflexivity|].
  apply (Enqueue_ids_increase E q 0 "k1" example.payload 1 q1 [OpRemove 1]
           0 "k1" example.payload 2).
  - vm_compute. reflexivity.
  - vm_compute. reflexivity.
Defined.

(** ** Configuration *)

Lemma synced_table_lookup (apps : list config.AppConfig) appKey :
  forall m : gmap string config.AppConfig,
  fold_left (fun m a => <[config.AppKey a := a]> m) apps m !! appKey
  = match List.find (fun a => String.eqb (config.AppKey a) appKey) (rev apps) with
    | Some a => Some a
    | None => m !! appKey
    end.
Proof.
  induction apps as [|a l IH] using rev_ind; intros m; [reflexivity|].
  rewrite fold_left_app, rev_app_distr. cbn [fold_left rev List.app List.find].
  destruct (String.eqb (config.AppKey a) appKey) eqn:Heq.
  - apply String.eqb_eq in Heq. rewrite <- Heq. apply lookup_insert_eq.
  - apply String.eqb_neq in Heq. rewrite lookup_insert_ne by exact Heq. apply IH.
Qed.

(** After [UpdateSyncedApps], a tenant key resolves to the last synced
    credential with that key, and only if there is none to the first static
    one; credentials of an earlier sync are gone. Whatever is returned
    carries the key that was asked for. *)
Theorem GetAppByKey_after_sync c apps appKey :
  config.GetAppByKey (config.UpdateSyncedApps c apps) appKey
  = match List.find (fun a => String.eqb (config.AppKey a) appKey) (rev apps) with
    | Some a => Some a
    | None => List.find (fun a => String.eqb (config.AppKey a) appKey) (config.Apps c)
    end
  /\ (forall a, config.GetAppByKey (config.UpdateSyncedApps c apps) appKey = Some a ->
        config.AppKey a = appKey).
Proof.
  assert (Heq : config.GetAppByKey (config.UpdateSyncedApps c apps) appKey
    = match List.find (fun a => String.eqb (config.AppKey a) appKey) (rev apps) with
      | Some a => Some a
      | None => List.find (fun a => String.eqb (config.AppKey a) appKey) (config.Apps c)
      end).
  { unfold config.GetAppByKey, config.UpdateSyncedApps.
    cbn [config.syncedApps config.Apps]. rewrite synced_table_lookup, lookup_empty.
    destruct (List.find _ (rev apps)); reflexivity. }
  split; [exact Heq|].
  intros a Ha. rewrite Heq in Ha.
  destruct (List.find _ (rev apps)) as [a'|] eqn:Hf.
  - injection Ha as <-. apply find_some in Hf as [_ Hk]. apply String.eqb_eq, Hk.
  - apply find_some in Ha as [_ Hk]. apply String.eqb_eq, Hk.
Qed.

Example GetAppByKey_synced_shadows_static :
  let synced := {| config.Name := "synced"; config.AppKey := "k1";
                   config.MasterSecret := "c2VjcmV0" |} in
  let c := config.UpdateSyncedApps (example.cfg 3 example.zero_secret) [synced] in
  config.GetAppByKey c "k1" = Some synced
  /\ config.GetAppByKey (config.UpdateSyncedApps c []) "k1"
     = Some (example.app example.zero_secret).
Proof. vm_compute. auto. Qed.

Lemma AppCount_fold (synced : gmap string config.AppConfig) apps : forall count,
  fold_left (fun count a => match synced !! config.AppKey a with
                            | Some _ => count
                            | None => count + 1
                            end) apps count
  = count + Z.of_nat (length (filter (fun a => synced !! config.AppKey a = None) apps)).
Proof.
  induction apps as [|a l IH]; intros count; cbn [fold_left]; [cbn; lia|].
  rewrite IH, filter_cons.
  destruct (synced !! config.AppKey a) eqn:Hlk.
  - rewrite decide_False by discriminate. reflexivity.
  - rewrite decide_True by reflexivity. cbn [length]. lia.
Qed.

(** [AppCount] is the number of apps [GetAllApps] returns. *)
Theorem AppCount_is_length_GetAllApps c :
  config.AppCount c = Z.of_nat (length (config.GetAllApps c)).
Proof.
  unfold config.AppCount, config.GetAllApps.
  rewrite AppCount_fold, length_app, length_map, length_map_to_list. lia.
Qed.

Lemma default_Z_spec v d :
  (v <> 0 -> config.default_Z v d = v) /\ (v = 0 -> config.default_Z v d = d).
Proof.
  unfold config.default_Z. destruct (v =? 0) eqn:Hv; split; intros; lia || reflexivity.
Qed.

Lemma default_string_spec v d :
  (v <> EmptyString -> config.default_string v d = v)
  /\ (v = EmptyString -> config.default_string v d = d).
Proof.
  unfold config.default_string. destruct (String.eqb v EmptyString) eqn:Hv; split; intros H.
  - apply String.eqb_eq in Hv. contradiction.
  - reflexivity.
  - reflexivity.
  - subst v. discriminate.
Qed.

(** [Load] accepts a parsed configuration exactly when it names the server
    and has an agent token or a static app. *)
Lemma Load_parsed_accepts config :
  (exists c, config.Load_parsed config = Ok c)
  <-> config.ServerURL (config.Nexus config) <> EmptyString
      /\ (config.AgentToken (config.Nexus config) <> EmptyString
          \/ config.Apps config <> []).
Proof.
  unfold config.Load_parsed. cbn [config.ServerURL config.AgentToken].
  destruct (String.eqb (config.ServerURL (config.Nexus config)) EmptyString) eqn:Hurl.
  { apply String.eqb_eq in Hurl. split; [intros [c Hc]; discriminate|].
    intros [Hne _]. contradiction. }
  apply String.eqb_neq in Hurl.
  destruct (String.eqb (config.AgentToken (config.Nexus config)) EmptyString) eqn:Htok;
    cbn [andb].
  - apply String.eqb_eq in Htok.
    destruct (config.Apps config) as [|a l]; cbn [length Nat.eqb].
    + split; [intros [c Hc]; discriminate|].
      intros [_ [Hne | Hne]]; contradiction.
    + split; [|intros _; eexists; reflexivity].
      intros _. split; [exact Hurl|]. right. discriminate.
  - apply String.eqb_neq in Htok.
    split; [|intros _; eexists; reflexivity].
    intros _. split; [exact Hurl|]. left. exact Htok.
Qed.

(** What [Load] guarantees about a configuration it accepts: the server
    URL is set and there is an agent token or a static app; no defaulted
    setting is zero or empty; every setting that was given is kept as it is
    (a negative ceiling or capacity included), and the server URL, the
    token, the buffering switch and the static apps are never touched; every
    defaulted setting that was left out has its default; the synced table is
    empty. Loading the result again changes nothing. *)
Theorem Load_parsed_spec config c :
  config.Load_parsed config = Ok c ->
  (* what was validated *)
  config.ServerURL (config.Nexus c) <> EmptyString
  /\ (config.AgentToken (config.Nexus c) <> EmptyString \/ config.Apps c <> [])
  (* no defaulted setting is zero or empty *)
  /\ config.Port (config.Agent c) <> 0
  /\ config.Bind (config.Agent c) <> EmptyString
  /\ config.Timeout (config.Nexus c) <> 0
  /\ config.RetryAttempts (config.Nexus c) <> 0
  /\ config.RetryDelay (config.Nexus c) <> 0
  /\ config.SyncInterval (config.Nexus c) <> 0
  /\ config.MaxSize (config.Buffer c) <> 0
  /\ config.DBPath (config.Buffer c) <> EmptyString
  (* a setting that was given is kept *)
  /\ (config.Port (config.Agent config) <> 0 ->
      config.Port (config.Agent c) = config.Port (config.Agent config))
  /\ (config.Bind (config.Agent config) <> EmptyString ->
      config.Bind (config.Agent c) = config.Bind (config.Agent config))
  /\ (config.Timeout (config.Nexus config) <> 0 ->
      config.Timeout (config.Nexus c) = config.Timeout (config.Nexus config))
  /\ (config.RetryAttempts (config.Nexus config) <> 0 ->
      config.RetryAttempts (config.Nexus c) = config.RetryAttempts (config.Nexus config))
  /\ (config.RetryDelay (config.Nexus config) <> 0 ->
      config.RetryDelay (config.Nexus c) = config.RetryDelay (config.Nexus config))
  /\ (config.SyncInterval (config.Nexus config) <> 0 ->
      config.SyncInterval (config.Nexus c) = config.SyncInterval (config.Nexus config))
  /\ (config.MaxSize (config.Buffer config) <> 0 ->
      config.MaxSize (config.Buffer c) = config.MaxSize (config.Buffer config))
  /\ (config.DBPath (config.Buffer config) <> EmptyString ->
      config.DBPath (config.Buffer c) = config.DBPath (config.Buffer config))
  /\ config.ServerURL (config.Nexus c) = config.ServerURL (config.Nexus config)
  /\ config.AgentToken (config.Nexus c) = config.AgentToken (config.Nexus config)
  /\ config.Enabled (config.Buffer c) = config.Enabled (config.Buffer config)
  /\ config.Apps c = config.Apps config
  (* a setting that was left out gets its default *)
  /\ (config.Port (config.Agent config) = 0 -> config.Port (config.Agent c) = 9000)
  /\ (config.Bind (config.Agent config) = EmptyString ->
      config.Bind (config.Agent c) = "127.0.0.1")
  /\ (config.Timeout (config.Nexus config) = 0 ->
      config.Timeout (config.Nexus c) = 30 * time.Second)
  /\ (config.RetryAttempts (config.Nexus config) = 0 ->
      config.RetryAttempts (config.Nexus c) = 3)
  /\ (config.RetryDelay (config.Nexus config) = 0 ->
      config.RetryDelay (config.Nexus c) = 5 * time.Second)
  /\ (config.SyncInterval (config.Nexus config) = 0 ->
      config.SyncInterval (config.Nexus c) = 60 * time.Second)
  /\ (config.MaxSize (config.Buffer config) = 0 -> config.MaxSize (config.Buffer c) = 10000)
  /\ (config.DBPath (config.Buffer config) = EmptyString ->
      config.DBPath (config.Buffer c) = "./queue.db")
  (* the runtime table, and loading again *)
  /\ config.syncedApps c = ∅
  /\ config.Load_parsed c = Ok c.
Proof.
  unfold config.Load_parsed at 1.
  cbn [config.ServerURL config.AgentToken].
  destruct (String.eqb (config.ServerURL (config.Nexus config)) EmptyString) eqn:Hurl;
    [discriminate|].
  destruct (String.eqb (config.AgentToken (config.Nexus config)) EmptyString
            && (length (config.Apps config) =? 0)%nat) eqn:Hsrc; [discriminate|].
  intros Heq. injection Heq as <-.
  assert (HdZ : forall v d, d <> 0 -> config.default_Z v d <> 0).
  { intros v d Hd. unfold config.default_Z. destruct (v =? 0) eqn:Hv; lia. }
  assert (HdS : forall v d, d <> EmptyString -> config.default_string v d <> EmptyString).
  { intros v d Hd. unfold config.default_string.
    destruct (String.eqb v EmptyString) eqn:Hv; [exact Hd|].
    apply String.eqb_neq. exact Hv. }
  assert (HiZ : forall v d, d <> 0 ->
            config.default_Z (config.default_Z v d) d = config.default_Z v d).
  { intros v d Hd. apply default_Z_spec, HdZ, Hd. }
  assert (HiS : forall v d, d <> EmptyString ->
            config.default_string (config.default_string v d) d = config.default_string v d).
  { intros v d Hd. apply default_string_spec, HdS, Hd. }
  cbn [config.Nexus config.Agent config.Buffer config.Apps config.syncedApps
       config.ServerURL config.AgentToken config.Port config.Bind config.Timeout
       config.RetryAttempts config.RetryDelay config.SyncInterval config.MaxSize
       config.DBPath config.Enabled].
  split; [apply String.eqb_neq; exact Hurl|].
  split.
  { apply andb_false_iff in Hsrc as [Htok | Hlen].
    - left. apply String.eqb_neq. exact Htok.
    - right. destruct (config.Apps config); [discriminate|discriminate]. }
  repeat (split; [first [ apply HdZ; discriminate
                        | apply HdS; discriminate
                        | apply default_Z_spec
                        | apply default_string_spec
                        | reflexivity ]|]).
  unfold config.Load_parsed.
  cbn [config.Nexus config.Agent config.Buffer config.Apps config.syncedApps
       config.ServerURL config.AgentToken config.Port config.Bind config.Timeout
       config.RetryAttempts config.RetryDelay config.SyncInterval config.MaxSize
       config.Enabled config.DBPath].
  rewrite Hurl, Hsrc.
  rewrite !HiZ by discriminate. rewrite !HiS by discriminate. reflexivity.
Qed.

(** A file that sets the server, a token and a negative ceiling, and leaves
    everything else out. *)
Lemma Load_parsed_spec_witness :
  let given :=
    {| config.Agent := {| config.Port := 0; config.Bind := EmptyString |};
       config.Nexus := {| config.ServerURL := "https://nexus.example";
                          config.AgentToken := "agt_1";
                          config.SyncInterval := 0; config.Timeout := 0;
                          config.RetryAttempts := -1; config.RetryDelay := 0 |};
       config.Apps := [];
       config.Buffer := {| config.Enabled := true; config.MaxSize := 0;
                           config.DBPath := EmptyString |};
       config.syncedApps := ∅ |} in
  let loaded :=
    {| config.Agent := {| config.Port := 9000; config.Bind := "127.0.0.1" |};
       config.Nexus := {| config.ServerURL := "https://nexus.example";
                          config.AgentToken := "agt_1";
                          config.SyncInterval := 60 * time.Second;
                          config.Timeout := 30 * time.Second;
                          config.RetryAttempts := -1;
                          config.RetryDelay := 5 * time.Second |};
       config.Apps := [];
       config.Buffer := {| config.Enabled := true; config.MaxSize := 10000;
                           config.DBPath := "./queue.db" |};
       config.syncedApps := ∅ |} in
  config.Load_parsed given = Ok loaded
  /\ config.RetryAttempts (config.Nexus loaded) <> 0
  /\ config.Load_parsed loaded = Ok loaded.
Proof.
  intros given loaded.
  assert (Hload : config.Load_parsed given = Ok loaded) by reflexivity.
  split; [exact Hload|]. split.
  - apply (Load_parsed_spec given loaded Hload).
  - apply (Load_parsed_spec given loaded Hload).
Defined.

(** ** The inbound surface *)

Lemma Enqueue_Err_unchanged E q now appKey data e :
  (queue.Enqueue E q now appKey data).1 = Err e ->
  (queue.Enqueue E q now appKey data).2 = q.
Proof.
  unfold queue.Enqueue.
  destruct (queue.sql_count _); [|reflexivity].
  destruct (_ >=? _); [reflexivity|].
  destruct (json_Marshal E data); [|reflexivity].
  destruct (queue.sql_insert _ _ _ _) as [[? ?]|?]; [discriminate|reflexivity].
Qed.

(** [HandleSend] on a request that passed validation: the events are those
    of the one [Send], and the answer follows from its result. *)
Lemma HandleSend_valid E cfg q decoded h req data :
  decoded = Ok req ->
  handler.AppKey req <> EmptyString ->
  handler.Data req = Some data -> data <> [] ->
  config.GetAppByKey cfg (handler.AppKey req) <> None ->
  let r := handler.HandleSend E cfg q "POST" decoded h in
  let s := sender.Send E cfg (handler.AppKey req) data h in
  r.2 = s.2
  /\ (sender.Success s.1 = true ->
      r.1 = (handler.jsonSuccess "data sent successfully" 0, q))
  /\ (sender.Success s.1 = false ->
      q = None \/ config.Enabled (config.Buffer cfg) = false \/ sender.Retry s.1 = false ->
      r.1 = (handler.jsonError (sender.Message s.1) 502, q))
  /\ (forall queue0, sender.Success s.1 = false ->
        q = Some queue0 -> config.Enabled (config.Buffer cfg) = true ->
        sender.Retry s.1 = true ->
        let enq := queue.Enqueue E queue0 (clock E (h ++ s.2)) (handler.AppKey req) data in
        match enq.1 with
        | Err _ => r.1 = (handler.jsonError "failed to send and queue message" 500, q)
        | Ok id =>
            r.1 = ((202, {| handler.Success := true;
                            handler.Message := "data queued for delivery (server unavailable)";
                            handler.ID := id |}), Some enq.2)
        end).
Proof.
  intros -> Hkey Hdata Hne Hknown. cbv zeta.
  unfold handler.HandleSend. cbn [String.eqb Ascii.eqb Bool.eqb negb andb].
  apply String.eqb_neq in Hkey. rewrite Hkey, Hdata.
  destruct data as [|kv data]; [contradiction|].
  destruct (config.GetAppByKey cfg (handler.AppKey req)); [|contradiction].
  rewrite run_bind.
  destruct (sender.Send E cfg (handler.AppKey req) (kv :: data) h) as [result sevs].
  cbn [fst snd].
  destruct (sender.Success result) eqn:Hs.
  { cbn [ret mret M_ret fst snd]. rewrite app_nil_r.
    split; [reflexivity|]. split; [reflexivity|].
    split; intros; discriminate. }
  destruct q as [queue0|].
  2:{ cbn [ret mret M_ret fst snd]. rewrite app_nil_r.
      split; [reflexivity|]. split; [intros; discriminate|].
      split; [reflexivity|]. intros; discriminate. }
  destruct (config.Enabled (config.Buffer cfg)) eqn:Hen; cbn [andb].
  2:{ cbn [ret mret M_ret fst snd]. rewrite app_nil_r.
      split; [reflexivity|]. split; [intros; discriminate|].
      split; [reflexivity|]. intros; discriminate. }
  destruct (sender.Retry result) eqn:Hr.
  2:{ cbn [ret mret M_ret fst snd]. rewrite app_nil_r.
      split; [reflexivity|]. split; [intros; discriminate|].
      split; [reflexivity|]. intros; discriminate. }
  pose proof (Enqueue_Err_unchanged E queue0 (clock E (h ++ sevs)) (handler.AppKey req)
                (kv :: data)) as Hsame.
  destruct (queue.Enqueue E queue0 (clock E (h ++ sevs)) (handler.AppKey req) (kv :: data))
    as [[id|e] queue1] eqn:Henq; cbn [fst snd] in *; rewrite app_nil_r.
  - split; [reflexivity|]. split; [intros; discriminate|].
    split; [intros _ [Hq | [Hq | Hq]]; discriminate|].
    intros queue0' _ Hq _ _. injection Hq as <-. rewrite Henq. reflexivity.
  - split; [reflexivity|]. split; [intros; discriminate|].
    split; [intros _ [Hq | [Hq | Hq]]; discriminate|].
    intros queue0' _ Hq _ _. injection Hq as <-. rewrite Henq. cbn [fst].
    rewrite (Hsame e eq_refl). reflexivity.
Qed.

(** The answers of [HandleSend], case by case. Any method but POST gets
    405. A POST whose body does not decode, whose key is empty, whose data
    is missing or empty, or whose key is not configured gets 400 with the
    message of the first of these checks that fails. In all these cases no
    call leaves the process and the queue is untouched. A valid request is
    handed to [Send] once: 200 if it succeeded; 502 with its message if it
    failed and the failure is not retryable, buffering is off or there is no
    queue; otherwise the payload is enqueued, 202 with the new id if that
    worked and 500 with the queue unchanged if not. Conversely the answer is
    always one of these: 200 only if [Send] succeeded, and 202 only if
    [Send] failed retryably with buffering on, the payload then being stored
    under the reported id with an attempts counter of 0 and the time of the
    clock after the send. *)
Theorem HandleSend_spec E cfg q method decoded h :
  let r := handler.HandleSend E cfg q method decoded h in
  let status := r.1.1.1 in
  let resp := r.1.1.2 in
  let q' := r.1.2 in
  let evs := r.2 in
  (method <> "POST" -> r = (handler.jsonError "method not allowed" 405, q, []))
  /\ (method = "POST" ->
      (forall e, decoded = Err e -> r = (handler.jsonError "invalid JSON body" 400, q, []))
      /\ forall req, decoded = Ok req ->
         (handler.AppKey req = EmptyString ->
          r = (handler.jsonError "app_key is required" 400, q, []))
         /\ (handler.AppKey req <> EmptyString ->
             (handler.Data req = None \/ handler.Data req = Some [] ->
              r = (handler.jsonError "data is required" 400, q, []))
             /\ forall data, handler.Data req = Some data -> data <> [] ->
                (config.GetAppByKey cfg (handler.AppKey req) = None ->
                 r = (handler.jsonError "unknown app_key - not configured in agent" 400,
                      q, []))
                /\ (config.GetAppByKey cfg (handler.AppKey req) <> None ->
                    let s := sender.Send E cfg (handler.AppKey req) data h in
                    evs = s.2
                    /\ (sender.Success s.1 = true ->
                        r.1 = (handler.jsonSuccess "data sent successfully" 0, q))
                    /\ (sender.Success s.1 = false ->
                        q = None \/ config.Enabled (config.Buffer cfg) = false
                        \/ sender.Retry s.1 = false ->
                        r.1 = (handler.jsonError (sender.Message s.1) 502, q))
                    /\ (forall queue0, sender.Success s.1 = false ->
                          q = Some queue0 -> config.Enabled (config.Buffer cfg) = true ->
                          sender.Retry s.1 = true ->
                          let enq := queue.Enqueue E queue0 (clock E (h ++ s.2))
                                       (handler.AppKey req) data in
                          match enq.1 with
                          | Err _ =>
                              r.1 = (handler.jsonError "failed to send and queue message" 500,
                                     q)
                          | Ok id =>
                              r.1 = ((202,
                                      {| handler.Success := true;
                                         handler.Message :=
                                           "data queued for delivery (server unavailable)";
                                         handler.ID := id |}),
                                     Some enq.2)
                          end))))
  /\ ((status = 405 \/ status = 400) /\ evs = [] /\ q' = q /\ handler.Success resp = false
      \/ exists req data,
           decoded = Ok req /\ handler.Data req = Some data
           /\ evs = (sender.Send E cfg (handler.AppKey req) data h).2
           /\ let result := (sender.Send E cfg (handler.AppKey req) data h).1 in
              (status = 200 /\ sender.Success result = true /\ q' = q)
              \/ (status = 502 /\ sender.Success result = false /\ q' = q
                  /\ handler.Success resp = false)
              \/ (status = 500 /\ sender.Success result = false
                  /\ sender.Retry result = true /\ q' = q /\ handler.Success resp = false)
              \/ (status = 202 /\ sender.Success result = false
                  /\ sender.Retry result = true
                  /\ config.Enabled (config.Buffer cfg) = true
                  /\ exists queue0 queue1 plaintext,
                       q = Some queue0 /\ q' = Some queue1
                       /\ json_Marshal E data = Ok plaintext
                       /\ queue.messages (queue.db queue0) !! handler.ID resp = None
                       /\ queue.messages (queue.db queue1)
                          = <[handler.ID resp :=
                                {| queue.app_key := handler.AppKey req;
                                   queue.data := Bytes.to_string plaintext;
                                   queue.created_at := clock E (h ++ evs);
                                   queue.attempts := 0 |}]>
                              (queue.messages (queue.db queue0)))).
Proof.
  cbv zeta. split; [|split].
  - intros Hm. apply String.eqb_neq in Hm.
    unfold handler.HandleSend. rewrite Hm. reflexivity.
  - intros ->. split; [intros e ->; reflexivity|].
    intros req ->. split.
    { intros Hk. unfold handler.HandleSend.
      cbn [String.eqb Ascii.eqb Bool.eqb negb andb]. rewrite Hk. reflexivity. }
    intros Hk. split.
    { apply String.eqb_neq in Hk.
      intros [Hd | Hd]; unfold handler.HandleSend;
        cbn [String.eqb Ascii.eqb Bool.eqb negb andb]; rewrite Hk, Hd; reflexivity. }
    intros data Hd Hne. split.
    { intros Hnone. apply String.eqb_neq in Hk. unfold handler.HandleSend.
      cbn [String.eqb Ascii.eqb Bool.eqb negb andb]. rewrite Hk, Hd.
      destruct data; [contradiction|]. rewrite Hnone. reflexivity. }
    intros Hknown.
    exact (HandleSend_valid E cfg q (Ok req) h req data eq_refl Hk Hd Hne Hknown).
  - unfold handler.HandleSend.
    destruct (negb (String.eqb method "POST")); [left; cbn; auto|].
    destruct decoded as [req|e]; [|left; cbn; auto].
    destruct (String.eqb (handler.AppKey req) EmptyString); [left; cbn; auto|].
    destruct (handler.Data req) as [[|kv data]|] eqn:Hdata;
      [left; cbn; auto| |left; cbn; auto].
    destruct (config.GetAppByKey cfg (handler.AppKey req)); [|left; cbn; auto].
    right. exists req, (kv :: data). split; [reflexivity|]. split; [exact Hdata|].
    rewrite run_bind.
    destruct (sender.Send E cfg (handler.AppKey req) (kv :: data) h) as [result sevs].
    cbn [fst snd].
    destruct (sender.Success result) eqn:Hs.
    { cbn [ret mret M_ret fst snd handler.jsonSuccess]. rewrite app_nil_r.
      split; [reflexivity|]. left. auto. }
    destruct q as [queue0|].
    2:{ cbn [ret mret M_ret fst snd handler.jsonError]. rewrite app_nil_r.
        split; [reflexivity|]. right; left. auto. }
    destruct (config.Enabled (config.Buffer cfg)) eqn:Hen; cbn [andb].
    2:{ cbn [ret mret M_ret fst snd handler.jsonError]. rewrite app_nil_r.
        split; [reflexivity|]. right; left. auto. }
    destruct (sender.Retry result) eqn:Hr.
    2:{ cbn [ret mret M_ret fst snd handler.jsonError]. rewrite app_nil_r.
        split; [reflexivity|]. right; left. auto. }
    destruct (queue.Enqueue E queue0 (clock E (h ++ sevs)) (handler.AppKey req) (kv :: data))
      as [[id|e] queue1] eqn:Henq; cbn [fst snd handler.jsonError]; rewrite app_nil_r;
      (split; [reflexivity|]).
    + right; right; right.
      destruct (Enqueue_Ok E _ _ _ _ _ _ Henq)
        as (plaintext & Hm & _ & Hfresh & _ & Hrows & _).
      repeat (split; [reflexivity|]).
      exists queue0, queue1, plaintext.
      cbn [handler.ID]. auto.
    + right; right; left.
      pose proof (Enqueue_Err_unchanged E queue0 (clock E (h ++ sevs)) (handler.AppKey req)
                    (kv :: data) e) as Hsame.
      rewrite Henq in Hsame. cbn [fst snd] in Hsame. rewrite Hsame by reflexivity. auto.
Qed.

(** The server is down and buffering is on: the request is answered 202
    and the payload waits in the queue under id 1. *)
Example HandleSend_buffers_when_server_is_down :
  let r := handler.HandleSend (example.env [])
             (example.cfg 2 example.zero_secret) (Some (example.queue_of [] 10)) "POST"
             (Ok {| handler.AppKey := "k1"; handler.Data := Some example.payload |}) [] in
  r.1.1.1 = 202 /\ handler.ID r.1.1.2 = 1
  /\ (fun q => queue.Size q) <$> r.1.2 = Some (Ok 1)
  /\ length (http_outcomes r.2) = 2%nat.
Proof. vm_compute. auto. Qed.

(** A client error of the server is passed on as 502 and not buffered. *)
Example HandleSend_does_not_buffer_client_errors :
  let r := handler.HandleSend (example.env [example.status 400])
             (example.cfg 2 example.zero_secret) (Some (example.queue_of [] 10)) "POST"
             (Ok {| handler.AppKey := "k1"; handler.Data := Some example.payload |}) [] in
  r.1.1.1 = 502 /\ (fun q => queue.Size q) <$> r.1.2 = Some (Ok 0).
Proof. vm_compute. auto. Qed.

(** A GET, and a POST for a key that is not configured, reach neither the
    server nor the queue. *)
Example HandleSend_refuses_before_sending :
  let E := example.env [example.status 200] in
  let cfg := example.cfg 2 example.zero_secret in
  let q := Some (example.queue_of [] 10) in
  handler.HandleSend E cfg q "GET"
    (Ok {| handler.AppKey := "k1"; handler.Data := Some example.payload |}) []
  = (handler.jsonError "method not allowed" 405, q, [])
  /\ handler.HandleSend E cfg q "POST"
       (Ok {| handler.AppKey := "k9"; handler.Data := Some example.payload |}) []
     = (handler.jsonError "unknown app_key - not configured in agent" 400, q, []).
Proof. split; vm_compute; reflexivity. Qed.

(** [HandleHealth] answers 200 to every GET, whatever the state of the
    queue: without a queue, or when its size cannot be read, it reports a
    size of 0, and otherwise the number of stored messages; it counts the
    static apps only. Any other method gets 405. *)
Theorem HandleHealth_spec cfg q method :
  (method <> "GET" ->
   (handler.HandleHealth cfg q method).1 = 405)
  /\ (method = "GET" ->
      exists n,
        handler.HandleHealth cfg q method
        = (200, inr {| handler.Status := "healthy"; handler.QueueSize := n;
                       handler.AppsConfigured := Z.of_nat (length (config.Apps cfg)) |})
        /\ match q with
           | None => n = 0
           | Some queue =>
               if queue.closed (queue.db queue) then n = 0
               else n = Z.of_nat (size (queue.messages (queue.db queue)))
           end).
Proof.
  unfold handler.HandleHealth. split.
  - intros Hne. apply String.eqb_neq in Hne. rewrite Hne. reflexivity.
  - intros ->. cbn [String.eqb Ascii.eqb Bool.eqb negb andb].
    eexists. split; [reflexivity|].
    destruct q as [queue|]; [|reflexivity].
    unfold queue.Size, queue.sql_count. destruct (queue.closed _); reflexivity.
Qed.

(** ** Order and lifetime of queued messages *)

(** The row with the smallest id is what [ORDER BY id ASC LIMIT 1] yields. *)
Lemma first_by_id_unique (m : gmap Z queue.Row) id row :
  m !! id = Some row ->
  (forall id' row', m !! id' = Some row' -> id <= id') ->
  queue.first_by_id m = Some (id, row).
Proof.
  intros Hlk Hmin.
  destruct (queue.first_by_id m) as [[id0 row0]|] eqn:Hf.
  - apply first_by_id_Some in Hf as [Hlk0 Hmin0].
    pose proof (Hmin _ _ Hlk0). pose proof (Hmin0 _ _ Hlk).
    assert (id0 = id) as -> by lia. congruence.
  - apply first_by_id_None in Hf. rewrite Hf, lookup_empty in Hlk. discriminate.
Qed.

(** Enqueuing never changes which message is at the head of the queue:
    whatever [Dequeue] returned before a successful [Enqueue], it returns
    after it. *)
Theorem Enqueue_keeps_head E q now appKey data id q' msg :
  (queue.Dequeue E q).1 = Ok (Some msg) ->
  queue.Enqueue E q now appKey data = (Ok id, q') ->
  (queue.Dequeue E q').1 = Ok (Some msg) /\ queue.ID msg < id.
Proof.
  intros Hdq Henq.
  destruct (Enqueue_Ok E _ _ _ _ _ _ Henq)
    as (plaintext & _ & Hopen' & Hfresh & Hlt & Hrows & _).
  revert Hdq. unfold queue.Dequeue. rewrite Hopen'.
  destruct (queue.closed (queue.db q)); [discriminate|].
  destruct (queue.first_by_id (queue.messages (queue.db q))) as [[id0 row0]|] eqn:Hf;
    [|discriminate].
  apply first_by_id_Some in Hf as [Hlk0 Hmin0].
  pose proof (Hlt _ _ Hlk0) as Hid0.
  rewrite (first_by_id_unique (queue.messages (queue.db q')) id0 row0).
  - destruct (json_Unmarshal E _); [|discriminate].
    cbn [fst]. intros Heq. injection Heq as <-. cbn [queue.ID]. auto.
  - rewrite Hrows, lookup_insert_ne by lia. exact Hlk0.
  - intros id' row'. rewrite Hrows. intros Hlk.
    apply lookup_insert_Some in Hlk as [[<- _]|[_ Hlk]]; [lia|exact (Hmin0 _ _ Hlk)].
Qed.

Lemma Enqueue_keeps_head_witness :
  let E := example.env [] in
  let q := example.queue_of [(3, example.row 0); (5, example.row 1)] 10 in
  (queue.Dequeue E (queue.Enqueue E q 9 "k1" example.payload).2).1
  = Ok (Some {| queue.ID := 3; queue.AppKey := "k1"; queue.Data := example.payload;
                queue.CreatedAt := 1704067200; queue.Attempts := 0 |})
  /\ 3 < 6.
Proof.
  intros E q.
  apply (Enqueue_keeps_head E q 9 "k1" example.payload 6
           (queue.Enqueue E q 9 "k1" example.payload).2).
  - vm_compute. reflexivity.
  - vm_compute. reflexivity.
Defined.

(** A failed delivery that is not retryable, or that happens at the cap,
    removes the head of the queue for the rest of the cycle. *)
Lemma drain_drops_head E cfg k q h msg :
  (queue.Dequeue E q).1 = Ok (Some msg) ->
  sender.Success (sender.Send E cfg (queue.AppKey msg) (queue.Data msg) h).1 = false ->
  (sender.Retry (sender.Send E cfg (queue.AppKey msg) (queue.Data msg) h).1 = false
   \/ agent.hardCap cfg <= queue.Attempts msg) ->
  (size (queue.messages (queue.db q)) <= k)%nat ->
  exists q', (agent.drain E cfg (S k) q h).1 = Some q'
             /\ queue.messages (queue.db q') !! queue.ID msg = None.
Proof.
  intros Hdq Hfail Hperm Hfuel.
  pose proof (Dequeue_Some E q msg Hdq) as (Hopen & _).
  destruct (drain_terminates E cfg (S k) q h) as [q' Hq']; [lia|].
  exists q'. split; [exact Hq'|].
  rewrite (drain_step E cfg k q h msg Hdq) in Hq'. cbv zeta in Hq'.
  rewrite Hfail in Hq'. cbn [orb] in Hq'.
  replace (negb _ || _) with true in Hq'.
  2:{ symmetry. apply orb_true_iff.
      destruct Hperm as [Hr | Hcap]; [left; now rewrite Hr | right; lia]. }
  cbn [fst] in Hq'. apply (drain_keeps_absent _ _ _ _ _ _ _ Hq').
  rewrite (Remove_open q _ Hopen). cbn [queue.with_db queue.db queue.messages].
  apply lookup_delete_eq.
Qed.

(** A retryable failure below the cap ends the cycle with one more
    attempt recorded. *)
Lemma drain_blocks E cfg k q h msg :
  (queue.Dequeue E q).1 = Ok (Some msg) ->
  sender.Success (sender.Send E cfg (queue.AppKey msg) (queue.Data msg) h).1 = false ->
  sender.Retry (sender.Send E cfg (queue.AppKey msg) (queue.Data msg) h).1 = true ->
  queue.Attempts msg < agent.hardCap cfg ->
  agent.drain E cfg (S k) q h
  = (Some (queue.IncrementAttempts q (queue.ID msg)).2,
     (sender.Send E cfg (queue.AppKey msg) (queue.Data msg) h).2).
Proof.
  intros Hdq Hfail Hretry Hcap.
  rewrite (drain_step E cfg k q h msg Hdq). cbv zeta. rewrite Hfail, Hretry.
  cbn [orb negb]. replace (_ >=? _) with false by lia. reflexivity.
Qed.

(** One tick, then the others. *)
Lemma processQueue_S E cfg k q h :
  agent.processQueue E cfg (S k) q h
  = match (agent.drainCycle E cfg q h).1 with
    | Some q1 =>
        ((agent.processQueue E cfg k q1 (h ++ (agent.drainCycle E cfg q h).2)).1,
         (agent.drainCycle E cfg q h).2
         ++ (agent.processQueue E cfg k q1 (h ++ (agent.drainCycle E cfg q h).2)).2)
    | None => (None, (agent.drainCycle E cfg q h).2)
    end.
Proof.
  cbn [agent.processQueue]. rewrite run_bind.
  destruct (agent.drainCycle E cfg q h) as [[q1|] evs]; cbn [fst snd]; [reflexivity|].
  cbn. now rewrite app_nil_r.
Qed.

(** Ticks never bring a message back. *)
Lemma processQueue_keeps_absent E cfg id ticks : forall q h q',
  (agent.processQueue E cfg ticks q h).1 = Some q' ->
  queue.messages (queue.db q) !! id = None ->
  queue.messages (queue.db q') !! id = None.
Proof.
  induction ticks as [|n IH]; intros q h q' Hrun Habs.
  - cbn in Hrun. injection Hrun as <-. exact Habs.
  - rewrite processQueue_S in Hrun.
    destruct (agent.drainCycle E cfg q h) as [[q1|] evs] eqn:Hcycle; cbn [fst snd] in Hrun;
      [|discriminate].
    apply (IH _ _ _ Hrun).
    apply (drain_keeps_absent E cfg id (S (size (queue.messages (queue.db q)))) q h q1);
      [|exact Habs].
    unfold agent.drainCycle in Hcycle. rewrite Hcycle. reflexivity.
Qed.

Lemma processQueue_terminates E cfg ticks : forall q h,
  exists q', (agent.processQueue E cfg ticks q h).1 = Some q'.
Proof.
  induction ticks as [|n IH]; intros q h; [eexists; reflexivity|].
  rewrite processQueue_S.
  destruct (drainCycle_terminates E cfg q h) as [q1 Hq1]. rewrite Hq1. cbn [fst]. apply IH.
Qed.

(** After a retryable failure below the cap the head of the queue is the
    same message with one more attempt. *)
Lemma Dequeue_after_increment E q msg :
  (queue.Dequeue E q).1 = Ok (Some msg) ->
  (queue.Dequeue E (queue.IncrementAttempts q (queue.ID msg)).2).1
  = Ok (Some {| queue.ID := queue.ID msg; queue.AppKey := queue.AppKey msg;
                queue.Data := queue.Data msg; queue.CreatedAt := queue.CreatedAt msg;
                queue.Attempts := queue.Attempts msg + 1 |}).
Proof.
  intros Hdq.
  apply Dequeue_Some in Hdq as (Hopen & row & Hlk & Hkey & Hu & Hc & Ha & Hmin).
  rewrite (IncrementAttempts_open q _ Hopen).
  unfold queue.Dequeue. cbn [queue.with_db queue.db queue.closed queue.messages].
  rewrite (first_by_id_unique _ (queue.ID msg) (queue.bump row)).
  - cbn [queue.bump queue.data queue.app_key queue.created_at queue.attempts].
    rewrite Hu, Hkey, Hc, Ha. reflexivity.
  - rewrite lookup_alter_eq, Hlk. reflexivity.
  - intros id' row'. rewrite lookup_alter. case_decide; [lia|].
    apply Hmin.
Qed.

(** When the head of the queue is dropped in a cycle it is gone after any
    number of ticks. *)
Lemma processQueue_head_dropped E cfg k q h msg :
  (queue.Dequeue E q).1 = Ok (Some msg) ->
  sender.Success (sender.Send E cfg (queue.AppKey msg) (queue.Data msg) h).1 = false ->
  (sender.Retry (sender.Send E cfg (queue.AppKey msg) (queue.Data msg) h).1 = false
   \/ agent.hardCap cfg <= queue.Attempts msg) ->
  exists q', (agent.processQueue E cfg (S k) q h).1 = Some q'
             /\ queue.messages (queue.db q') !! queue.ID msg = None.
Proof.
  intros Hdq Hfail Hperm.
  destruct (processQueue_terminates E cfg (S k) q h) as [q' Hq'].
  exists q'. split; [exact Hq'|].
  rewrite processQueue_S in Hq'.
  destruct (drain_drops_head E cfg (size (queue.messages (queue.db q))) q h msg
              Hdq Hfail Hperm (le_n _)) as (q1 & Hq1 & Hgone).
  unfold agent.drainCycle in Hq'. rewrite Hq1 in Hq'. cbn [fst] in Hq'.
  exact (processQueue_keeps_absent _ _ _ _ _ _ _ Hq' Hgone).
Qed.

(** A message cannot block the queue forever: when no delivery succeeds,
    the message at the head of the queue, with attempts counter [a], is gone
    after [hardCap - a + 1] ticks at the latest (after one tick if [a] is
    already at the cap), and it never comes back. *)
Theorem head_dropped_within_cap E cfg :
  (forall appKey data h, sender.Success (sender.Send E cfg appKey data h).1 = false) ->
  forall (n : nat) q h msg,
    (queue.Dequeue E q).1 = Ok (Some msg) ->
    agent.hardCap cfg - queue.Attempts msg <= Z.of_nat n ->
    forall extra,
    exists q', (agent.processQueue E cfg (S (n + extra)) q h).1 = Some q'
               /\ queue.messages (queue.db q') !! queue.ID msg = None.
Proof.
  intros Hfail n. induction n as [|n IH]; intros q h msg Hdq Hcap extra.
  - apply processQueue_head_dropped; auto. right. lia.
  - destruct (Z_lt_ge_dec (queue.Attempts msg) (agent.hardCap cfg)) as [Hlt|Hge];
      [destruct (sender.Retry (sender.Send E cfg (queue.AppKey msg) (queue.Data msg) h).1)
         eqn:Hretry|].
    + (* retryable, below the cap: one more attempt is recorded *)
      rewrite processQueue_S. unfold agent.drainCycle.
      rewrite (drain_blocks E cfg _ q h msg Hdq (Hfail _ _ _) Hretry Hlt). cbn [fst snd].
      pose proof (Dequeue_after_increment E q msg Hdq) as Hnext.
      destruct (IH (queue.IncrementAttempts q (queue.ID msg)).2
                  (h ++ (sender.Send E cfg (queue.AppKey msg) (queue.Data msg) h).2)
                  _ Hnext) with (extra := extra) as (q' & Hq' & Hgone).
      { cbn [queue.Attempts]. lia. }
      exists q'. split; [exact Hq'|exact Hgone].
    + apply processQueue_head_dropped; auto.
    + apply processQueue_head_dropped; auto. right. lia.
Qed.

(** The server is down for good; the head message has failed twice before
    and the cap is 3: two ticks later it is gone. *)
Lemma head_dropped_within_cap_witness :
  let E := example.env_always example.refused in
  let cfg := example.cfg 1 example.zero_secret in
  let q := example.queue_of [(3, example.row 2); (5, example.row 0)] 10 in
  exists q', (agent.processQueue E cfg 2 q []).1 = Some q'
             /\ queue.messages (queue.db q') !! 3 = None.
Proof.
  intros E cfg q.
  refine (head_dropped_within_cap E cfg _ 1 q []
            {| queue.ID := 3; queue.AppKey := "k1"; queue.Data := example.payload;
               queue.CreatedAt := 1704067200; queue.Attempts := 2 |} _ _ 0%nat).
  - intros appKey data h.
    destruct (config.GetAppByKey cfg appKey) as [appConfig|] eqn:Hkey.
    + destruct (crypto.EncryptPayload E data (config.MasterSecret appConfig) appKey h)
        as [[enc|e] pre] eqn:Hrun.
      * destruct (Send_encrypted E cfg appKey data h appConfig enc pre Hkey Hrun)
          as (body & _ & Hsend).
        rewrite Hsend. cbn [fst].
        change (Z.to_nat (config.RetryAttempts (config.Nexus cfg))) with 1%nat.
        rewrite retryLoop_step. cbv zeta.
        destruct (doSend_cases E cfg appKey (config.MasterSecret appConfig) body (h ++ pre))
          as [(Hnil & Hs & Hr) | (req & ans0 & Hevs & Hbody & Hcls)].
        -- rewrite Hs, Hr. cbn [negb fst]. exact Hs.
        -- pose proof (doSend_request E cfg appKey (config.MasterSecret appConfig) body
                         (h ++ pre)) as Hreq.
           cbv zeta in Hreq. change (request_error E _ _) with (@None string) in Hreq.
           rewrite Hevs in Hreq. injection Hreq as _ Hans.
           change (transport E _ _) with example.refused in Hans. subst ans0.
           cbv zeta in Hcls. unfold example.refused in Hcls.
           cbn [delivered rejected] in Hcls.
           destruct Hcls as [([] & _) | [(_ & Hs & Hr) | ([] & _)]].
           rewrite Hs, Hr. cbn [negb fst]. reflexivity.
      * rewrite (Send_encryption_failed E cfg appKey data h appConfig e pre Hkey Hrun).
        reflexivity.
    + rewrite (Send_unknown_key E cfg appKey data h Hkey). reflexivity.
  - vm_compute. reflexivity.
  - vm_compute. discriminate.
Defined.

(** ** Failures that reach the caller and the queue *)

(** A credential whose secret is not base64 text: every well-formed request
    of that tenant is answered 502 with the decode error, nothing is sent
    and nothing is queued, although buffering may be on. *)
Theorem HandleSend_corrupt_secret E cfg q req data h appConfig e :
  handler.AppKey req <> EmptyString ->
  handler.Data req = Some data -> data <> [] ->
  config.GetAppByKey cfg (handler.AppKey req) = Some appConfig ->
  base64.DecodeString (config.MasterSecret appConfig) = Err e ->
  handler.HandleSend E cfg q "POST" (Ok req) h
  = ((502, {| handler.Success := false;
              handler.Message :=
                "encryption failed: failed to decode master secret: " +:+ e;
              handler.ID := 0 |}), q, []).
Proof.
  intros Hkey Hdata Hne Happ Hdec. unfold handler.HandleSend.
  cbn [String.eqb Ascii.eqb Bool.eqb negb andb].
  apply String.eqb_neq in Hkey. rewrite Hkey, Hdata.
  destruct data as [|kv data]; [contradiction|].
  rewrite Happ, run_bind.
  rewrite (Send_encryption_failed E cfg _ _ h appConfig
             ("failed to decode master secret: " +:+ e) []
             Happ).
  2:{ unfold crypto.EncryptPayload. rewrite Hdec. reflexivity. }
  cbn [fst snd sender.Success sender.Retry sender.Message andb].
  destruct q as [queue0|]; [rewrite andb_false_r|]; reflexivity.
Qed.

Lemma HandleSend_corrupt_secret_witness :
  let E := example.env [example.status 200] in
  let cfg := example.cfg 3 "not base64!!" in
  let q := Some (example.queue_of [] 10) in
  handler.HandleSend E cfg q "POST"
    (Ok {| handler.AppKey := "k1"; handler.Data := Some example.payload |}) []
  = ((502, {| handler.Success := false;
              handler.Message :=
                "encryption failed: failed to decode master secret: "
                +:+ "illegal base64 data at input byte 3";
              handler.ID := 0 |}), q, []).
Proof.
  intros E cfg q.
  apply (HandleSend_corrupt_secret E cfg q
           {| handler.AppKey := "k1"; handler.Data := Some example.payload |}
           example.payload [] (example.app "not base64!!")).
  - discriminate.
  - reflexivity.
  - discriminate.
  - reflexivity.
  - vm_compute. reflexivity.
Defined.

(** A queued message whose tenant key is no longer configured (it was
    dropped by a sync, say) is removed by the next drain cycle that reaches
    it, without any HTTP attempt and whatever its attempts counter. *)
Theorem drain_drops_unknown_tenant E cfg k q h msg :
  (queue.Dequeue E q).1 = Ok (Some msg) ->
  config.GetAppByKey cfg (queue.AppKey msg) = None ->
  (size (queue.messages (queue.db q)) <= k)%nat ->
  (sender.Send E cfg (queue.AppKey msg) (queue.Data msg) h).2 = []
  /\ agent.drain E cfg (S k) q h
     = agent.drain E cfg k (queue.Remove q (queue.ID msg)).2 h
  /\ exists q', (agent.drain E cfg (S k) q h).1 = Some q'
                /\ queue.messages (queue.db q') !! queue.ID msg = None.
Proof.
  intros Hdq Hkey Hfuel.
  pose proof (Send_unknown_key E cfg _ (queue.Data msg) h Hkey) as Hsend.
  split; [rewrite Hsend; reflexivity|]. split.
  - rewrite (drain_step E cfg k q h msg Hdq). cbv zeta. rewrite Hsend.
    cbn [fst snd sender.Success sender.Retry negb orb]. rewrite app_nil_r.
    destruct (agent.drain E cfg k _ h). reflexivity.
  - apply drain_drops_head; auto.
    + rewrite Hsend. reflexivity.
    + left. rewrite Hsend. reflexivity.
Qed.

Lemma drain_drops_unknown_tenant_witness :
  let E := example.env [example.status 200] in
  let cfg := example.cfg 3 example.zero_secret in
  let q := example.queue_of
             [(3, {| queue.app_key := "gone"; queue.data := example.payload_json;
                     queue.created_at := 0; queue.attempts := 0 |})] 10 in
  exists q', (agent.drain E cfg 2 q []).1 = Some q'
             /\ queue.messages (queue.db q') !! 3 = None.
Proof.
  intros E cfg q.
  refine (proj2 (proj2 (drain_drops_unknown_tenant E cfg 1 q []
            {| queue.ID := 3; queue.AppKey := "gone"; queue.Data := example.payload;
               queue.CreatedAt := 0; queue.Attempts := 0 |} _ _ _))).
  - vm_compute. reflexivity.
  - reflexivity.
  - vm_compute. lia.
Defined.

(** ** Credential sync *)

(** [Sync] makes at most one HTTP call, none when the request cannot be
    built, and never sleeps. It returns no error exactly when the request
    could be built, the server answered, the body could be read, the status
    is 200, the body parses and its success flag is set; the synced
    credentials are then replaced, so that every tenant key resolves to the
    last app of the response with that key, or else to the static
    configuration, and nothing else of the configuration changes. In every
    other case it returns the error of the first step that failed and the
    configuration is as before. *)
Theorem Sync_spec E read_error parse cfg h :
  let r := sync.Sync E read_error parse cfg h in
  let url := config.ServerURL (config.Nexus cfg) +:+ "/agent/sync" in
  let ans := transport E h (sync.request cfg) in
  (* the one call, and its absence *)
  (length (http_outcomes r.2) <= 1)%nat /\ sleeps r.2 = []
  /\ (forall e, request_error E "POST" url = Some e ->
        r = (Some ("failed to create request: " +:+ e), cfg, []))
  /\ (request_error E "POST" url = None -> r.2 = [EvDo (sync.request cfg) ans])
  (* success, exactly when everything went well *)
  /\ (r.1.1 = None <->
      request_error E "POST" url = None
      /\ exists resp syncResp,
           ans = Ok resp /\ read_error resp = None /\ http.StatusCode resp = 200
           /\ parse (http.Body resp) = Ok syncResp /\ sync.Success syncResp = true)
  (* an error leaves the credentials alone *)
  /\ (r.1.1 <> None -> r.1.2 = cfg)
  (* which error *)
  /\ (request_error E "POST" url = None ->
      (forall e, ans = Err e -> r.1.1 = Some ("request failed: " +:+ e))
      /\ forall resp, ans = Ok resp ->
         (forall e, read_error resp = Some e ->
            r.1.1 = Some ("failed to read response: " +:+ e))
         /\ (read_error resp = None ->
             (http.StatusCode resp <> 200 ->
              r.1.1 = Some ("server returned " +:+ fmt.itoa (http.StatusCode resp)
                            +:+ ": " +:+ Bytes.to_string (http.Body resp)))
             /\ (http.StatusCode resp = 200 ->
                 (forall e, parse (http.Body resp) = Err e ->
                    r.1.1 = Some ("failed to parse response: " +:+ e))
                 /\ forall syncResp, parse (http.Body resp) = Ok syncResp ->
                    (sync.Success syncResp = false ->
                     r.1.1 = Some ("sync failed: " +:+ sync.Message syncResp))
                    /\ (sync.Success syncResp = true ->
                        r.1.1 = None
                        /\ config.Agent r.1.2 = config.Agent cfg
                        /\ config.Nexus r.1.2 = config.Nexus cfg
                        /\ config.Apps r.1.2 = config.Apps cfg
                        /\ config.Buffer r.1.2 = config.Buffer cfg
                        /\ forall appKey,
                             config.GetAppByKey r.1.2 appKey
                             = match List.find
                                       (fun a => String.eqb (sync.AppKey a) appKey)
                                       (rev (sync.Apps syncResp)) with
                               | Some a => Some (sync.to_AppConfig a)
                               | None =>
                                   List.find
                                     (fun a => String.eqb (config.AppKey a) appKey)
                                     (config.Apps cfg)
                               end)))).
Proof.
  cbv zeta. unfold sync.Sync.
  destruct (request_error E "POST" _) as [e0|] eqn:Hreq.
  { cbn [ret mret M_ret fst snd http_outcomes sleeps length].
    split; [lia|]. split; [reflexivity|].
    split; [intros e He; injection He as <-; reflexivity|].
    split; [intros; discriminate|].
    split; [split; [intros; discriminate|intros [? _]; discriminate]|].
    split; [reflexivity|]. intros; discriminate. }
  rewrite run_bind. unfold client_Do. cbn [fst snd].
  destruct (transport E h (sync.request cfg)) as [resp|e0] eqn:Hdo.
  2:{ cbn [ret mret M_ret fst snd http_outcomes sleeps length List.app].
      split; [lia|]. split; [reflexivity|].
      split; [intros; discriminate|]. split; [reflexivity|].
      split; [split; [intros; discriminate|intros (_ & ? & ? & ? & _); discriminate]|].
      split; [reflexivity|]. intros _.
      split; [intros e He; injection He as <-; reflexivity|]. intros; discriminate. }
  destruct (read_error resp) as [e0|] eqn:Hread.
  { cbn [ret mret M_ret fst snd http_outcomes sleeps length List.app].
    split; [lia|]. split; [reflexivity|].
    split; [intros; discriminate|]. split; [reflexivity|].
    split.
    { split; [intros; discriminate|].
      intros (_ & resp' & ? & Hr & Hre & _). injection Hr as <-. congruence. }
    split; [reflexivity|]. intros _.
    split; [intros; discriminate|]. intros resp' Hr. injection Hr as <-.
    split; [intros e He; rewrite Hread in He; injection He as <-; reflexivity|].
    intros He. congruence. }
  destruct (http.StatusCode resp =? 200) eqn:Hcode; cbn [negb].
  2:{ cbn [ret mret M_ret fst snd http_outcomes sleeps length List.app].
      split; [lia|]. split; [reflexivity|].
      split; [intros; discriminate|]. split; [reflexivity|].
      split.
      { split; [intros; discriminate|].
        intros (_ & resp' & ? & Hr & _ & Hc & _). injection Hr as <-. lia. }
      split; [reflexivity|]. intros _.
      split; [intros; discriminate|]. intros resp' Hr. injection Hr as <-.
      split; [intros e He; congruence|]. intros _.
      split; [reflexivity|]. intros Hc. lia. }
  destruct (parse (http.Body resp)) as [syncResp|e0] eqn:Hparse.
  2:{ cbn [ret mret M_ret fst snd http_outcomes sleeps length List.app].
      split; [lia|]. split; [reflexivity|].
      split; [intros; discriminate|]. split; [reflexivity|].
      split.
      { split; [intros; discriminate|].
        intros (_ & resp' & ? & Hr & _ & _ & Hp & _). injection Hr as <-. congruence. }
      split; [reflexivity|]. intros _.
      split; [intros; discriminate|]. intros resp' Hr. injection Hr as <-.
      split; [intros e He; congruence|]. intros _.
      split; [intros Hc; lia|]. intros _.
      split; [intros e He; rewrite Hparse in He; injection He as <-; reflexivity|].
      intros ? Hp. congruence. }
  destruct (sync.Success syncResp) eqn:Hok; cbn [negb].
  2:{ cbn [ret mret M_ret fst snd http_outcomes sleeps length List.app].
      split; [lia|]. split; [reflexivity|].
      split; [intros; discriminate|]. split; [reflexivity|].
      split.
      { split; [intros; discriminate|].
        intros (_ & resp' & sr & Hr & _ & _ & Hp & Hs). injection Hr as <-.
        rewrite Hparse in Hp. injection Hp as <-. congruence. }
      split; [reflexivity|]. intros _.
      split; [intros; discriminate|]. intros resp' Hr. injection Hr as <-.
      split; [intros e He; congruence|]. intros _.
      split; [intros Hc; lia|]. intros _.
      split; [intros e He; congruence|].
      intros sr Hp. rewrite Hparse in Hp. injection Hp as <-.
      split; [reflexivity|]. intros Hs. congruence. }
  cbn [ret mret M_ret fst snd List.app http_outcomes sleeps length].
  split; [lia|]. split; [reflexivity|].
  split; [intros; discriminate|]. split; [reflexivity|].
  split.
  { split; [|reflexivity]. intros _. split; [reflexivity|].
    exists resp, syncResp. repeat split; auto. lia. }
  split; [intros Hx; contradiction|]. intros _.
  split; [intros; discriminate|]. intros resp' Hr. injection Hr as <-.
  split; [intros e He; congruence|]. intros _.
  split; [intros Hc; lia|]. intros _.
  split; [intros e He; congruence|].
  intros sr Hp. rewrite Hparse in Hp. injection Hp as <-.
  split; [intros Hs; congruence|]. intros _.
  split; [reflexivity|]. split; [reflexivity|]. split; [reflexivity|].
  split; [reflexivity|]. split; [reflexivity|].
  intros appKey. unfold config.GetAppByKey, config.UpdateSyncedApps.
  cbn [config.syncedApps config.Apps]. rewrite synced_table_lookup, lookup_empty.
  rewrite <- map_rev.
  induction (rev (sync.Apps syncResp)) as [|a l IH]; [reflexivity|].
  cbn [map List.find sync.to_AppConfig config.AppKey].
  destruct (String.eqb (sync.AppKey a) appKey); [reflexivity|exact IH].
Qed.

(** A 200 whose body cannot be read is an error and replaces nothing, even
    though the body would have parsed. *)
Example Sync_unreadable_body :
  let cfg := example.cfg 3 example.zero_secret in
  let parse := fun _ : list byte =>
    Ok {| sync.Success := true; sync.Message := EmptyString;
          sync.Apps := [{| sync.ID := 7; sync.Name := "other"; sync.AppKey := "k2";
                           sync.MasterSecret := example.zero_secret;
                           sync.EncryptionEnabled := true |}];
          sync.SyncedAt := EmptyString |} in
  (sync.Sync (example.env [example.status 200]) (fun _ => Some "unexpected EOF")
     parse cfg []).1
  = (Some "failed to read response: unexpected EOF", cfg)
  /\ config.GetAppByKey
       (sync.Sync (example.env [example.status 200]) (fun _ => None) parse cfg []).1.2 "k2"
     = Some {| config.Name := "other"; config.AppKey := "k2";
               config.MasterSecret := example.zero_secret |}.
Proof. split; vm_compute; reflexivity. Qed.

(** ** Base64 *)

Lemma to_Z_range b : 0 <= Bytes.to_Z b < 256.
Proof.
  unfold Bytes.to_Z. pose proof (Byte.to_N_bounded b). lia.
Qed.

Lemma of_Z_to_Z b : Bytes.of_Z (Bytes.to_Z b) = b.
Proof.
  unfold Bytes.of_Z. rewrite Z.mod_small by apply to_Z_range.
  unfold Bytes.to_Z. rewrite N2Z.id, Byte.of_to_N. reflexivity.
Qed.

(** A byte is determined by its value modulo 256. *)
Lemma of_Z_eq x b : x mod 256 = Bytes.to_Z b -> Bytes.of_Z x = b.
Proof.
  intros Hx. rewrite <- (of_Z_to_Z b), <- Hx. unfold Bytes.of_Z.
  rewrite Z.mod_mod by lia. reflexivity.
Qed.

Ltac bits :=
  repeat match goal with
  | |- context [Z.testbit (Z.lor _ _) _] => rewrite Z.lor_spec
  | |- context [Z.testbit (Z.shiftl _ _) ?m] => rewrite (Z.shiftl_spec _ _ m) by lia
  | |- context [Z.testbit (_ mod 2 ^ ?k) ?m] => rewrite (Z.testbit_mod_pow2 _ k m) by lia
  | |- context [Z.testbit (Z.shiftr _ _) ?m] =>
      first [rewrite (Z.shiftr_spec _ _ m) by lia | rewrite (Z.testbit_neg_r _ m) by lia]
  | |- context [?a <? ?b] =>
      first [replace (a <? b) with true by lia | replace (a <? b) with false by lia]
  end;
  cbn [andb orb];
  rewrite ?orb_false_r, ?andb_false_r, ?orb_false_l.

(** The bits of a byte above the eighth are zero. *)
Lemma byte_high_bits b n : 8 <= n -> Z.testbit (Bytes.to_Z b) n = false.
Proof.
  intros Hn. rewrite <- (Z.mod_small (Bytes.to_Z b) (2 ^ 8)) by apply to_Z_range.
  rewrite Z.testbit_mod_pow2 by lia. replace (n <? 8) with false by lia. reflexivity.
Qed.

Lemma byte_bits_eq b i j : i = j -> Z.testbit (Bytes.to_Z b) i = Z.testbit (Bytes.to_Z b) j.
Proof. intros ->. reflexivity. Qed.

(** The four sextets of a 24-bit group give back its three bytes. *)
Lemma quantum_bytes_4 a b c :
  let v := Z.lor (Z.lor (Z.shiftl (Bytes.to_Z a) 16) (Z.shiftl (Bytes.to_Z b) 8))
                 (Bytes.to_Z c) in
  base64.quantum_bytes [Z.shiftr v 18 mod 64; Z.shiftr v 12 mod 64;
                        Z.shiftr v 6 mod 64; v mod 64]
  = [a; b; c].
Proof.
  cbv zeta. unfold base64.quantum_bytes. cbn [nth length Nat.sub take].
  change 64 with (2 ^ 6). 
  f_equal; [|f_equal; [|f_equal]]; apply of_Z_eq; change 256 with (2 ^ 8);
    apply Z.bits_inj'; intros n Hn;
    destruct (Z_lt_ge_dec n 8) as [Hlt|Hge];
    try (rewrite (byte_high_bits _ n) by lia; rewrite Z.testbit_mod_pow2 by lia;
         replace (n <? 8) with false by lia; reflexivity).
  - rewrite Z.testbit_mod_pow2 by lia. replace (n <? 8) with true by lia. cbn [andb].
    rewrite Z.shiftr_spec by lia.
    destruct (Z_lt_ge_dec n 2) as [H2|H2]; bits;
      rewrite ?(byte_high_bits b) by lia; rewrite ?(byte_high_bits c) by lia;
      rewrite ?orb_false_r; apply byte_bits_eq; lia.
  - rewrite Z.testbit_mod_pow2 by lia. replace (n <? 8) with true by lia. cbn [andb].
    rewrite Z.shiftr_spec by lia.
    destruct (Z_lt_ge_dec n 4) as [H4|H4]; bits;
      rewrite ?(Z.testbit_neg_r (Bytes.to_Z a)) by lia;
      rewrite ?(byte_high_bits c) by lia;
      rewrite ?orb_false_r, ?orb_false_l; apply byte_bits_eq; lia.
  - rewrite Z.testbit_mod_pow2 by lia. replace (n <? 8) with true by lia. cbn [andb].
    destruct (Z_lt_ge_dec n 6) as [H6|H6]; bits;
      rewrite ?(Z.testbit_neg_r (Bytes.to_Z a)) by lia;
      rewrite ?(Z.testbit_neg_r (Bytes.to_Z b)) by lia;
      rewrite ?orb_false_r, ?orb_false_l; apply byte_bits_eq; lia.
Qed.

Lemma quantum_bytes_2 a :
  let v := Z.shiftl (Bytes.to_Z a) 16 in
  base64.quantum_bytes [Z.shiftr v 18 mod 64; Z.shiftr v 12 mod 64] = [a].
Proof.
  cbv zeta. unfold base64.quantum_bytes. cbn [nth length Nat.sub take].
  change 64 with (2 ^ 6).
  f_equal. apply of_Z_eq. change 256 with (2 ^ 8).
  apply Z.bits_inj'. intros n Hn.
  destruct (Z_lt_ge_dec n 8) as [Hlt|Hge].
  2:{ rewrite (byte_high_bits _ n) by lia. rewrite Z.testbit_mod_pow2 by lia.
      replace (n <? 8) with false by lia. reflexivity. }
  rewrite Z.testbit_mod_pow2 by lia. replace (n <? 8) with true by lia. cbn [andb].
  rewrite Z.shiftr_spec by lia. rewrite !Z.lor_spec.
  change (Z.shiftl 0 6) with 0. rewrite !Z.bits_0, !orb_false_r.
  destruct (Z_lt_ge_dec n 2) as [H2|H2]; bits;
    rewrite ?(Z.testbit_neg_r (Bytes.to_Z a)) by lia;
    rewrite ?orb_false_r, ?orb_false_l; apply byte_bits_eq; lia.
Qed.

Lemma quantum_bytes_3 a b :
  let v := Z.lor (Z.shiftl (Bytes.to_Z a) 16) (Z.shiftl (Bytes.to_Z b) 8) in
  base64.quantum_bytes [Z.shiftr v 18 mod 64; Z.shiftr v 12 mod 64; Z.shiftr v 6 mod 64]
  = [a; b].
Proof.
  cbv zeta. unfold base64.quantum_bytes. cbn [nth length Nat.sub take].
  change 64 with (2 ^ 6).
  f_equal; [|f_equal]; apply of_Z_eq; change 256 with (2 ^ 8);
    apply Z.bits_inj'; intros n Hn;
    destruct (Z_lt_ge_dec n 8) as [Hlt|Hge];
    try (rewrite (byte_high_bits _ n) by lia; rewrite Z.testbit_mod_pow2 by lia;
         replace (n <? 8) with false by lia; reflexivity).
  - rewrite Z.testbit_mod_pow2 by lia. replace (n <? 8) with true by lia. cbn [andb].
    rewrite Z.shiftr_spec by lia. rewrite !Z.lor_spec, Z.bits_0, orb_false_r.
    destruct (Z_lt_ge_dec n 2) as [H2|H2]; bits;
      rewrite ?(byte_high_bits b) by lia;
      rewrite ?orb_false_r, ?orb_false_l; apply byte_bits_eq; lia.
  - rewrite Z.testbit_mod_pow2 by lia. replace (n <? 8) with true by lia. cbn [andb].
    rewrite Z.shiftr_spec by lia. rewrite !Z.lor_spec, Z.bits_0, orb_false_r.
    destruct (Z_lt_ge_dec n 4) as [H4|H4]; bits;
      rewrite ?(Z.testbit_neg_r (Bytes.to_Z a)) by lia;
      rewrite ?(Z.testbit_neg_r (Bytes.to_Z b)) by lia;
      rewrite ?orb_false_r, ?orb_false_l; apply byte_bits_eq; lia.
Qed.

(** Every character the encoder writes for a sextet decodes to it. *)
Lemma decodeMap_enc_char v : base64.decodeMap (base64.enc_char v) = Some (v mod 64).
Proof.
  assert (Hall : forallb (fun n => match base64.decodeMap (base64.enc_char (Z.of_nat n)) with
                                   | Some x => x =? Z.of_nat n
                                   | None => false
                                   end) (seq 0 64) = true) by (vm_compute; reflexivity).
  rewrite forallb_forall in Hall.
  assert (Hr : 0 <= v mod 64 < 64) by (apply Z.mod_pos_bound; lia).
  specialize (Hall (Z.to_nat (v mod 64))).
  rewrite Z2Nat.id in Hall by lia.
  assert (Henc : base64.enc_char (v mod 64) = base64.enc_char v).
  { unfold base64.enc_char. rewrite Z.mod_mod by lia. reflexivity. }
  rewrite Henc in Hall.
  destruct (base64.decodeMap (base64.enc_char v)) as [x|].
  - f_equal. apply Z.eqb_eq. apply Hall. apply in_seq. lia.
  - discriminate Hall. apply in_seq. lia.
Qed.

Lemma pad_is_pad : base64.decodeMap base64.padChar = None
  /\ base64.is_newline base64.padChar = false /\ base64.is_pad base64.padChar = true.
Proof. vm_compute. auto. Qed.

(** Decoding undoes encoding. *)
Lemma decode_encode : forall (n : nat) (src : list byte) si out,
  (length src <= n)%nat ->
  base64.decode (base64.encode src) si [] out = Ok (out ++ src).
Proof.
  destruct pad_is_pad as (Hpm & Hpn & Hpp).
  induction n as [|n IH]; intros src si out Hlen;
    [destruct src; [cbn; now rewrite app_nil_r|cbn in Hlen; lia]|].
  destruct src as [|a [|b [|c rest]]].
  - cbn. now rewrite app_nil_r.
  - cbn [base64.encode base64.decode].
    rewrite !decodeMap_enc_char. cbn [length Nat.eqb List.app].
    rewrite Hpm, Hpn, Hpp. cbn [negb base64.skip_newlines base64.decode].
    rewrite Hpn. cbn iota. rewrite Hpp. unfold base64.finish. cbn [base64.skip_newlines].
    rewrite quantum_bytes_2. reflexivity.
  - cbn [base64.encode base64.decode].
    rewrite !decodeMap_enc_char. cbn [length Nat.eqb List.app].
    rewrite Hpm, Hpn, Hpp. cbn [negb].
    unfold base64.finish. cbn [base64.skip_newlines].
    rewrite quantum_bytes_3. reflexivity.
  - cbn [base64.encode base64.decode].
    rewrite !decodeMap_enc_char. cbn [length Nat.eqb List.app].
    rewrite quantum_bytes_4.
    rewrite IH by (cbn in Hlen; lia).
    rewrite <- app_assoc. reflexivity.
Qed.

(** Round trip: what [EncodeToString] writes, [DecodeString] reads back. *)
Lemma DecodeString_EncodeToString bs :
  base64.DecodeString (base64.EncodeToString bs) = Ok bs.
Proof.
  unfold base64.DecodeString, base64.EncodeToString, Bytes.of_string, Bytes.to_string.
  rewrite list_byte_of_string_of_list_byte.
  apply (decode_encode (length bs)). lia.
Qed.

(** A successful [EncryptPayload], with the length of its nonce. *)
Lemma EncryptPayload_Ok_nonce E data masterSecretB64 appKey h enc :
  (crypto.EncryptPayload E data masterSecretB64 appKey h).1 = Ok enc ->
  exists masterSecret key nonce plaintext,
    base64.DecodeString masterSecretB64 = Ok masterSecret
    /\ json_Marshal E data = Ok plaintext
    /\ crypto.deriveKeyForDate masterSecret appKey (time.Format_2006_01_02 (clock E h))
       = Ok key
    /\ length nonce = 12%nat
    /\ seals (crypto.EncryptPayload E data masterSecretB64 appKey h).2
       = [(key, nonce, plaintext, gcm_Seal E key nonce plaintext)]
    /\ enc = {| crypto.Encrypted := true;
                crypto.KeyDate := time.Format_2006_01_02 (clock E h);
                crypto.SecretVersion := 1;
                crypto.Nonce := base64.EncodeToString nonce;
                crypto.Data :=
                  base64.EncodeToString (gcm_Seal E key nonce plaintext) |}.
Proof.
  unfold crypto.EncryptPayload.
  destruct (base64.DecodeString masterSecretB64) as [masterSecret|e0]; [|discriminate].
  rewrite run_bind. unfold time_Now. cbn [fst snd].
  destruct (crypto.deriveKeyForDate _ _ _) as [key|e0] eqn:Hkey; [|discriminate].
  destruct (crypto.aes_NewCipher key) as [block|e0] eqn:Hblock; [|discriminate].
  assert (block = key) as ->.
  { unfold crypto.aes_NewCipher in Hblock. destruct (_ || _); congruence. }
  rewrite run_bind. unfold rand_ReadFull. cbn [fst snd].
  destruct (entropy E _) as [f|e0]; [|discriminate].
  destruct (json_Marshal E data) as [plaintext|e0]; [|discriminate].
  rewrite run_bind. unfold Seal. cbn [fst snd ret mret M_ret].
  intros Heq. injection Heq as <-.
  exists masterSecret, key, (map f (seq 0 crypto.NonceLength)), plaintext.
  split; [reflexivity|]. split; [reflexivity|]. split; [exact Hkey|].
  split; [rewrite length_map, length_seq; reflexivity|]. split; reflexivity.
Qed.

(** The envelope can be opened: from a successful [EncryptPayload] the
    receiver decodes, out of the base64 fields of the envelope, exactly the
    12-byte nonce that was drawn and the ciphertext that was sealed over the
    serialized payload, under the key derived for the envelope's date. *)
Theorem EncryptPayload_envelope_decodes E data masterSecretB64 appKey h enc :
  (crypto.EncryptPayload E data masterSecretB64 appKey h).1 = Ok enc ->
  exists masterSecret key nonce plaintext,
    base64.DecodeString masterSecretB64 = Ok masterSecret
    /\ json_Marshal E data = Ok plaintext
    /\ crypto.deriveKeyForDate masterSecret appKey (crypto.KeyDate enc) = Ok key
    /\ seals (crypto.EncryptPayload E data masterSecretB64 appKey h).2
       = [(key, nonce, plaintext, gcm_Seal E key nonce plaintext)]
    /\ base64.DecodeString (crypto.Nonce enc) = Ok nonce
    /\ length nonce = 12%nat
    /\ base64.DecodeString (crypto.Data enc) = Ok (gcm_Seal E key nonce plaintext).
Proof.
  intros Henc.
  destruct (EncryptPayload_Ok_nonce E data masterSecretB64 appKey h enc Henc)
    as (ms & key & nonce & pt & Hdec & Hm & Hkey & Hlen & Hseals & Hshape).
  exists ms, key, nonce, pt. rewrite Hshape.
  cbn [crypto.KeyDate crypto.Nonce crypto.Data].
  rewrite !DecodeString_EncodeToString.
  repeat (split; [first [assumption | reflexivity]|]). reflexivity.
Qed.

Lemma EncryptPayload_envelope_decodes_witness :
  let E := example.env [] in
  exists enc masterSecret key nonce plaintext,
    (crypto.EncryptPayload E example.payload example.zero_secret "k1" []).1 = Ok enc
    /\ base64.DecodeString example.zero_secret = Ok masterSecret
    /\ json_Marshal E example.payload = Ok plaintext
    /\ crypto.deriveKeyForDate masterSecret "k1" (crypto.KeyDate enc) = Ok key
    /\ seals (crypto.EncryptPayload E example.payload example.zero_secret "k1" []).2
       = [(key, nonce, plaintext, gcm_Seal E key nonce plaintext)]
    /\ base64.DecodeString (crypto.Nonce enc) = Ok nonce
    /\ length nonce = 12%nat
    /\ base64.DecodeString (crypto.Data enc) = Ok (gcm_Seal E key nonce plaintext).
Proof.
  intros E. eexists.
  assert (Hrun : (crypto.EncryptPayload E example.payload example.zero_secret "k1" []).1
                 = Ok _) by (vm_compute; reflexivity).
  destruct (EncryptPayload_envelope_decodes E example.payload example.zero_secret "k1" []
              _ Hrun) as (ms & key & nonce & pt & H).
  exists ms, key, nonce, pt. split; [exact Hrun|exact H].
Defined.
